(** * File-sharing server: storage providers, cleanup job and usage limiter

    A shallow embedding of the JavaScript sources
    - [src/storage/LocalFileSystemProvider.js]
    - [src/storage/GoogleCloudStorageProvider.js]
    - [src/jobs/cleanupJob.js]
    - [src/middleware/usageLimiter.js] and the routes of [src/api/files.js]
    together with the properties of the storage abstraction, the eviction
    cycle and the traffic ledger.

    Conventions of the embedding.
    - A [Buffer] is a [list byte]; file and object names are [string]s.
    - [new Date()] and [Date.now()] are an explicit argument [now : Z]
      (milliseconds since the epoch); an ISO-8601 timestamp string is
      identified with the instant it denotes. A [Date] computed from a
      number can be an Invalid Date: see [Js.valid_date].
    - Numbers are integers. The source computes with doubles, which agree
      with the integers on sums within [Js.MAX_SAFE_INTEGER].
    - [crypto.randomBytes] reads from an explicit entropy stream.
    - An asynchronous method becomes a function from the provider state to a
      result and the provider state it leaves behind; a rejected promise is
      [Err], and the state returned with it records the writes that were
      already performed. *)

From Stdlib Require Import ZArith Lia Ascii.
From Stdlib Require String.
From Stdlib.Strings Require Import Byte.
From stdpp Require Import base option list gmap strings fin_maps countable pretty.

Local Open Scope Z_scope.

(** ** Strings as JavaScript uses them *)

Module Js.

(** [s.endsWith(suf)]: some tail of [s] is [suf]. *)
Fixpoint endsWith (s suf : string) : bool :=
  String.eqb s suf ||
  match s with
  | EmptyString => false
  | String _ s' => endsWith s' suf
  end.

Fixpoint drop_chars (n : nat) (s : string) : string :=
  match n, s with
  | O, _ => s
  | S _, EmptyString => EmptyString
  | S n', String _ s' => drop_chars n' s'
  end.

(** [s.replace(pat, rep)] with a string pattern: only the first occurrence
    is replaced. *)
Fixpoint replace (pat rep s : string) : string :=
  if String.prefix pat s then rep +:+ drop_chars (String.length pat) s
  else match s with
       | EmptyString => EmptyString
       | String c s' => String c (replace pat rep s')
       end.

(** [a || b] on strings: the empty string is falsy. *)
Definition or_string (a : option string) (b : string) : string :=
  match a with
  | Some s => if decide (s = "") then b else s
  | None => b
  end.

(** [a || b] on the result of [parseInt]: [NaN] and [0] are falsy. *)
Definition or_number (a : option Z) (b : Z) : Z :=
  match a with
  | Some n => if decide (n = 0) then b else n
  | None => b
  end.

Fixpoint all_chars (P : ascii → bool) (s : string) : bool :=
  match s with
  | EmptyString => true
  | String c s' => P c && all_chars P s'
  end.

(** The white space [trim] removes, among the code units below 256: tab,
    line feed, vertical tab, form feed, carriage return, space and the
    no-break space. Strings are sequences of such code units. *)
Definition is_whitespace (c : ascii) : bool :=
  match c with
  | "009" | "010" | "011" | "012" | "013" | " " | "160" => true
  | _ => false
  end%char.

(** [s.trim() === ''] *)
Definition blank (s : string) : bool := all_chars is_whitespace s.

(** [Number.MAX_SAFE_INTEGER]. Numbers are IEEE doubles: sums and
    differences of integers are exact as long as the operands and the result
    stay within this bound; beyond it an addition rounds. *)
Definition MAX_SAFE_INTEGER : Z := 2 ^ 53 - 1.

(** The largest time value of a [Date], in milliseconds on either side of
    the epoch. [new Date(t)] is an Invalid Date for a number [t] beyond it:
    [toISOString] then throws a [RangeError] and every comparison with the
    date is false. The bound lies below [MAX_SAFE_INTEGER], so the time
    value of a valid date is an exact integer. *)
Definition MAX_TIME_VALUE : Z := 8640000000000000.

Definition valid_date (t : Z) : bool :=
  bool_decide (- MAX_TIME_VALUE ≤ t ≤ MAX_TIME_VALUE).

End Js.

(** ** Key generation *)

(** The entropy source behind [crypto.randomBytes]. *)
Definition entropy := nat → byte.

Definition randomBytes (src : entropy) (n : nat) : list byte * entropy :=
  (src <$> seq 0 n, λ i, src (n + i)%nat).

Definition hex_digit (n : N) : ascii :=
  match n with
  | 0 => "0" | 1 => "1" | 2 => "2" | 3 => "3" | 4 => "4" | 5 => "5"
  | 6 => "6" | 7 => "7" | 8 => "8" | 9 => "9" | 10 => "a" | 11 => "b"
  | 12 => "c" | 13 => "d" | 14 => "e" | _ => "f"
  end%N%char.

(** [buffer.toString('hex')] *)
Fixpoint toHex (bs : list byte) : string :=
  match bs with
  | [] => EmptyString
  | b :: bs' =>
      let n := Byte.to_N b in
      String (hex_digit (n / 16)) (String (hex_digit (n mod 16)) (toHex bs'))
  end.

Definition is_hex_char (c : ascii) : bool :=
  match c with
  | "0" | "1" | "2" | "3" | "4" | "5" | "6" | "7" | "8" | "9"
  | "a" | "b" | "c" | "d" | "e" | "f" => true
  | _ => false
  end%char.

(** A key as the generator produces it: a non-empty string of hex digits. *)
Definition is_key (k : string) : Prop :=
  Js.all_chars is_hex_char k = true ∧ k ≠ "".

(** [_generateKeys()], the same in both providers: two independent draws of
    32 bytes. *)
Definition _generateKeys (src : entropy) : string * string :=
  let '(b1, src1) := randomBytes src 32 in
  let '(b2, _) := randomBytes src1 32 in
  (toHex b1, toHex b2).

(** ** Metadata records and their JSON text *)

Record metadata := Metadata {
  publicKey : string;
  privateKey : string;
  originalName : string;
  mimeType : string;
  createdAt : Z;
  lastAccessed : option Z;
  fileSize : nat;
  (** only the cloud provider writes this field *)
  filePath : option string
}.

Definition touch (m : metadata) (now : Z) : metadata :=
  {| publicKey := publicKey m; privateKey := privateKey m;
     originalName := originalName m; mimeType := mimeType m;
     createdAt := createdAt m; lastAccessed := Some now;
     fileSize := fileSize m; filePath := filePath m |}.

(** [const referenceDate = lastAccessed || createdAt]: a [Date] object is
    always truthy, so [createdAt] is used exactly when [lastAccessed] is
    [null]. *)
Definition referenceDate (m : metadata) : Z :=
  match lastAccessed m with
  | Some t => t
  | None => createdAt m
  end.

(** [JSON.stringify] and [JSON.parse] on metadata records. The only law the
    development relies on is that parsing a stringified record gives the
    record back. [JSON_parse] answers [None] where the JavaScript function
    throws; a text that parses to something other than a metadata record
    is not represented, the providers write none. *)
Class Json := {
  JSON_stringify : metadata → list byte;
  JSON_parse : list byte → option metadata;
  JSON_parse_stringify : ∀ m, JSON_parse (JSON_stringify m) = Some m
}.

(** ** Storage primitives that can fail *)

Inductive error :=
  | FileNotFound        (* new Error('File not found') *)
  | MetadataNotFound    (* new Error('File metadata not found') *)
  | NotInitialized      (* new Error('Storage provider not initialized') *)
  | SyntaxError         (* thrown by JSON.parse *)
  | IOError.            (* thrown by a file-system or bucket primitive *)

Inductive result (A : Type) :=
  | Ok (a : A)
  | Err (e : error).
Arguments Ok {A} a.
Arguments Err {A} e.

(** A directory of the local file system, or a bucket: named byte strings.
    [rejecting] lists the names on which the backend refuses writes and
    removals (read-only entries, exhausted quota, outage); reads fail only
    on names that are absent. *)
Record disk := Disk {
  entries : gmap string (list byte);
  rejecting : gset string
}.

Definition disk_read (d : disk) (name : string) : option (list byte) :=
  entries d !! name.

Definition disk_exists (d : disk) (name : string) : bool :=
  bool_decide (is_Some (entries d !! name)).

Definition disk_write (d : disk) (name : string) (data : list byte) : option disk :=
  if decide (name ∈ rejecting d) then None
  else Some {| entries := <[name := data]> (entries d); rejecting := rejecting d |}.

Definition disk_unlink (d : disk) (name : string) : option disk :=
  if decide (name ∈ rejecting d) then None
  else match entries d !! name with
       | None => None
       | Some _ => Some {| entries := delete name (entries d); rejecting := rejecting d |}
       end.

(** A removal inside [try { ... } catch { }]: a failure leaves the disk as
    it was. *)
Definition try_unlink (d : disk) (name : string) : disk :=
  default d (disk_unlink d name).

Definition readdir (d : disk) : list string :=
  (map_to_list (entries d)).*1.

(** ** The local file-system provider *)

Module Local.

(** [rootFolder/files] and [rootFolder/.metadata]. Keys are plain file
    names, as every generated key is, so a path below one of the two
    folders is the file name. [path.join] would resolve a key that holds
    path syntax (["./"], [".."]) to the file of another name; such keys are
    outside the embedding, and the properties that relate two keys are
    stated for generated keys. *)
Record provider := Provider {
  filesFolder : disk;
  metadataFolder : disk
}.

Definition _getMetadataPath (key : string) : string := key +:+ ".json".

Definition _getFilePath (key : string) : string := key.

Section Methods.
Context `{Json}.

Definition uploadFile (p : provider) (src : entropy) (now : Z)
    (fileBuffer : list byte) (originalName mimeType : string)
    : result (string * string) * provider :=
  let '(publicKey, privateKey) := _generateKeys src in
  let filePath := _getFilePath publicKey in
  match disk_write (filesFolder p) filePath fileBuffer with
  | None => (Err IOError, p)
  | Some files1 =>
    let p1 := Provider files1 (metadataFolder p) in
    let metadata :=
      Metadata publicKey privateKey originalName mimeType now None
               (length fileBuffer) None in
    let publicMetadataPath := _getMetadataPath publicKey in
    let privateMetadataPath := _getMetadataPath privateKey in
    match disk_write (metadataFolder p1) publicMetadataPath (JSON_stringify metadata) with
    | None => (Err IOError, p1)
    | Some meta1 =>
      let p2 := Provider files1 meta1 in
      match disk_write meta1 privateMetadataPath (JSON_stringify metadata) with
      | None => (Err IOError, p2)
      | Some meta2 => (Ok (publicKey, privateKey), Provider files1 meta2)
      end
    end
  end.

Definition downloadFile (p : provider) (now : Z) (publicKey : string)
    : result (list byte * string * string) * provider :=
  let metadataPath := _getMetadataPath publicKey in
  if negb (disk_exists (metadataFolder p) metadataPath) then (Err FileNotFound, p)
  else
    match disk_read (metadataFolder p) metadataPath with
    | None => (Err IOError, p)
    | Some metadataContent =>
      match JSON_parse metadataContent with
      | None => (Err SyntaxError, p)
      | Some metadata =>
        let filePath := _getFilePath publicKey in
        match disk_read (filesFolder p) filePath with
        | None => (Err IOError, p)
        | Some buffer =>
          let metadata := touch metadata now in
          match disk_write (metadataFolder p) metadataPath (JSON_stringify metadata) with
          | None => (Err IOError, p)
          | Some meta1 =>
            let p1 := Provider (filesFolder p) meta1 in
            let privateMetadataPath := _getMetadataPath (privateKey metadata) in
            match disk_write meta1 privateMetadataPath (JSON_stringify metadata) with
            | None => (Err IOError, p1)
            | Some meta2 =>
                (Ok (buffer, mimeType metadata, originalName metadata),
                 Provider (filesFolder p) meta2)
            end
          end
        end
      end
    end.

(** Reading and parsing the record are inside [try]/[catch]; what follows
    reads [metadata.publicKey] outside of it. A text that parses to JSON
    other than a record, for which that access or the path built from it
    throws, is not represented by [JSON_parse] (see [Json]). *)
Definition deleteFile (p : provider) (privateKey : string)
    : result bool * provider :=
  let metadataPath := _getMetadataPath privateKey in
  match disk_read (metadataFolder p) metadataPath ≫= JSON_parse with
  | None => (Ok false, p)
  | Some metadata =>
    let filePath := _getFilePath (publicKey metadata) in
    let files1 := try_unlink (filesFolder p) filePath in
    let publicMetadataPath := _getMetadataPath (publicKey metadata) in
    let meta1 := try_unlink (metadataFolder p) publicMetadataPath in
    let meta2 := try_unlink meta1 metadataPath in
    (Ok true, Provider files1 meta2)
  end.

Definition getFileMetadata (p : provider) (privateKey : string)
    : result (option Z * Z) :=
  match disk_read (metadataFolder p) (_getMetadataPath privateKey) ≫= JSON_parse with
  | None => Err MetadataNotFound
  | Some metadata => Ok (lastAccessed metadata, createdAt metadata)
  end.

(** The whole body is inside [try]/[catch]: a failure is swallowed and
    what was written before it stays. *)
Definition updateLastAccessed (p : provider) (now : Z) (publicKey : string)
    : provider :=
  let metadataPath := _getMetadataPath publicKey in
  match disk_read (metadataFolder p) metadataPath ≫= JSON_parse with
  | None => p
  | Some metadata =>
    let metadata := touch metadata now in
    match disk_write (metadataFolder p) metadataPath (JSON_stringify metadata) with
    | None => p
    | Some meta1 =>
      let privateMetadataPath := _getMetadataPath (privateKey metadata) in
      match disk_write meta1 privateMetadataPath (JSON_stringify metadata) with
      | None => Provider (filesFolder p) meta1
      | Some meta2 => Provider (filesFolder p) meta2
      end
    end
  end.

(** The body of the [for] loop of [getInactiveFiles] for one directory
    entry: the key to push, or [None] when the entry is skipped. *)
Definition inspect (p : provider) (inactiveSince : Z) (metadataFile : string)
    : option string :=
  if Js.endsWith metadataFile ".json" then
    match disk_read (metadataFolder p) metadataFile ≫= JSON_parse with
    | None => None
    | Some metadata =>
      let keyFromFilename := Js.replace ".json" "" metadataFile in
      if decide (privateKey metadata = keyFromFilename) then
        if bool_decide (referenceDate metadata < inactiveSince)
        then Some (privateKey metadata)
        else None
      else None
    end
  else None.

Fixpoint scan (p : provider) (inactiveSince : Z) (metadataFiles : list string)
    (inactiveFiles : list string) : list string :=
  match metadataFiles with
  | [] => inactiveFiles
  | metadataFile :: rest =>
      scan p inactiveSince rest
        match inspect p inactiveSince metadataFile with
        | Some key => inactiveFiles ++ [key]
        | None => inactiveFiles
        end
  end.

(** Each element stands for the object [{ privateKey }] of the source. *)
Definition getInactiveFiles (p : provider) (inactiveSince : Z)
    : result (list string) * provider :=
  (Ok (scan p inactiveSince (readdir (metadataFolder p)) []), p).

End Methods.

End Local.

(** ** The Google Cloud Storage provider *)

Module GCS.

(** The fields of the configuration file that the methods read. *)
Record config := Config {
  cfg_filePrefix : option string;
  cfg_metadataPrefix : option string
}.

(** [bucket] is [null] until [initialize] has run; content and metadata
    objects live in the one bucket, told apart by their name prefix. *)
Record provider := Provider {
  config_ : config;
  metadataPrefix : string;
  bucket : option disk
}.

(** What [initialize] leaves behind once the bucket [b] has been found. *)
Definition initialize (cfg : config) (b : disk) : provider :=
  Provider cfg (Js.or_string (cfg_metadataPrefix cfg) "metadata/") (Some b).

Definition _getMetadataPath (p : provider) (key : string) : string :=
  metadataPrefix p +:+ key +:+ ".json".

Definition _getFilePath (p : provider) (key : string) : string :=
  let prefix := Js.or_string (cfg_filePrefix (config_ p)) "files/" in
  prefix +:+ key.

Definition with_bucket (p : provider) (b : disk) : provider :=
  Provider (config_ p) (metadataPrefix p) (Some b).

(** [bucket.getFiles({ prefix })]: the names that start with [prefix]. *)
Definition getFiles (b : disk) (prefix : string) : list string :=
  filter (λ name, String.prefix prefix name = true) (readdir b).

(** The bucket holds nothing below the metadata prefix but objects named
    as the provider names its metadata records. *)
Definition only_records_below_prefix (p : provider) (b : disk) : Prop :=
  ∀ name, name ∈ getFiles b (metadataPrefix p) →
          ∃ key, name = _getMetadataPath p key.

Section Methods.
Context `{Json}.

Definition uploadFile (p : provider) (src : entropy) (now : Z)
    (fileBuffer : list byte) (originalName mimeType : string)
    : result (string * string) * provider :=
  match bucket p with
  | None => (Err NotInitialized, p)
  | Some b =>
    let '(publicKey, privateKey) := _generateKeys src in
    let filePath := _getFilePath p publicKey in
    match disk_write b filePath fileBuffer with
    | None => (Err IOError, p)
    | Some b1 =>
      let metadata :=
        Metadata publicKey privateKey originalName mimeType now None
                 (length fileBuffer) (Some filePath) in
      let publicMetadataPath := _getMetadataPath p publicKey in
      let privateMetadataPath := _getMetadataPath p privateKey in
      match disk_write b1 publicMetadataPath (JSON_stringify metadata) with
      | None => (Err IOError, with_bucket p b1)
      | Some b2 =>
        match disk_write b2 privateMetadataPath (JSON_stringify metadata) with
        | None => (Err IOError, with_bucket p b2)
        | Some b3 => (Ok (publicKey, privateKey), with_bucket p b3)
        end
      end
    end
  end.

Definition downloadFile (p : provider) (now : Z) (publicKey : string)
    : result (list byte * string * string) * provider :=
  match bucket p with
  | None => (Err NotInitialized, p)
  | Some b =>
    let metadataPath := _getMetadataPath p publicKey in
    if negb (disk_exists b metadataPath) then (Err FileNotFound, p)
    else
      match disk_read b metadataPath with
      | None => (Err IOError, p)
      | Some metadataContent =>
        match JSON_parse metadataContent with
        | None => (Err SyntaxError, p)
        | Some metadata =>
          let filePath :=
            Js.or_string (filePath metadata) (_getFilePath p publicKey) in
          match disk_read b filePath with
          | None => (Err IOError, p)
          | Some fileBuffer =>
            let metadata := touch metadata now in
            match disk_write b metadataPath (JSON_stringify metadata) with
            | None => (Err IOError, p)
            | Some b1 =>
              let privateMetadataPath :=
                _getMetadataPath p (privateKey metadata) in
              match disk_write b1 privateMetadataPath (JSON_stringify metadata) with
              | None => (Err IOError, with_bucket p b1)
              | Some b2 =>
                  (Ok (fileBuffer, mimeType metadata, originalName metadata),
                   with_bucket p b2)
              end
            end
          end
        end
      end
  end.

(** As in the local provider, the record is read inside [try]/[catch] and
    used outside of it; [exists()] is answered by the bucket at hand and
    does not fail. *)
Definition deleteFile (p : provider) (privateKey : string)
    : result bool * provider :=
  match bucket p with
  | None => (Err NotInitialized, p)
  | Some b =>
    let metadataPath := _getMetadataPath p privateKey in
    if negb (disk_exists b metadataPath) then (Ok false, p)
    else
      match disk_read b metadataPath ≫= JSON_parse with
      | None => (Ok false, p)
      | Some metadata =>
        let filePath :=
          Js.or_string (filePath metadata) (_getFilePath p (publicKey metadata)) in
        let b1 := try_unlink b filePath in
        let publicMetadataPath := _getMetadataPath p (publicKey metadata) in
        let b2 := try_unlink b1 publicMetadataPath in
        let b3 := try_unlink b2 metadataPath in
        (Ok true, with_bucket p b3)
      end
  end.

Definition getFileMetadata (p : provider) (privateKey : string)
    : result (option Z * Z) :=
  match bucket p with
  | None => Err NotInitialized
  | Some b =>
    match disk_read b (_getMetadataPath p privateKey) ≫= JSON_parse with
    | None => Err MetadataNotFound
    | Some metadata => Ok (lastAccessed metadata, createdAt metadata)
    end
  end.

(** Apart from the initialisation check the body is inside [try]/[catch]. *)
Definition updateLastAccessed (p : provider) (now : Z) (publicKey : string)
    : result unit * provider :=
  match bucket p with
  | None => (Err NotInitialized, p)
  | Some b =>
    let metadataPath := _getMetadataPath p publicKey in
    match disk_read b metadataPath ≫= JSON_parse with
    | None => (Ok tt, p)
    | Some metadata =>
      let metadata := touch metadata now in
      match disk_write b metadataPath (JSON_stringify metadata) with
      | None => (Ok tt, p)
      | Some b1 =>
        let privateMetadataPath := _getMetadataPath p (privateKey metadata) in
        match disk_write b1 privateMetadataPath (JSON_stringify metadata) with
        | None => (Ok tt, with_bucket p b1)
        | Some b2 => (Ok tt, with_bucket p b2)
        end
      end
    end
  end.

(** The body of the [for] loop of [getInactiveFiles] for one listed
    object. *)
Definition inspect (p : provider) (b : disk) (inactiveSince : Z) (name : string)
    : option string :=
  match disk_read b name ≫= JSON_parse with
  | None => None
  | Some metadata =>
    let keyFromFilename :=
      Js.replace ".json" "" (Js.replace (metadataPrefix p) "" name) in
    if decide (privateKey metadata = keyFromFilename) then
      if bool_decide (referenceDate metadata < inactiveSince)
      then Some (privateKey metadata)
      else None
    else None
  end.

Fixpoint scan (p : provider) (b : disk) (inactiveSince : Z) (files : list string)
    (inactiveFiles : list string) : list string :=
  match files with
  | [] => inactiveFiles
  | file :: rest =>
      scan p b inactiveSince rest
        match inspect p b inactiveSince file with
        | Some key => inactiveFiles ++ [key]
        | None => inactiveFiles
        end
  end.

Definition getInactiveFiles (p : provider) (inactiveSince : Z)
    : result (list string) * provider :=
  match bucket p with
  | None => (Err NotInitialized, p)
  | Some b => (Ok (scan p b inactiveSince (getFiles b (metadataPrefix p)) []), p)
  end.

End Methods.

End GCS.

(** ** The provider interface *)

(** The methods of the abstract class [StorageProvider] that the routes and
    the cleanup job call, over a provider state [St]. *)
Record StorageProvider (St : Type) := {
  uploadFile :
    St → entropy → Z → list byte → string → string → result (string * string) * St;
  downloadFile : St → Z → string → result (list byte * string * string) * St;
  deleteFile : St → string → result bool * St;
  getInactiveFiles : St → Z → result (list string) * St
}.
Arguments uploadFile {St}.
Arguments downloadFile {St}.
Arguments deleteFile {St}.
Arguments getInactiveFiles {St}.

Definition localProvider `{Json} : StorageProvider Local.provider :=
  {| uploadFile := Local.uploadFile;
     downloadFile := Local.downloadFile;
     deleteFile := Local.deleteFile;
     getInactiveFiles := Local.getInactiveFiles |}.

Definition googleProvider `{Json} : StorageProvider GCS.provider :=
  {| uploadFile := GCS.uploadFile;
     downloadFile := GCS.downloadFile;
     deleteFile := GCS.deleteFile;
     getInactiveFiles := GCS.getInactiveFiles |}.

(** ** The cleanup job *)

Module CleanupJob.

Definition DEFAULT_INACTIVITY_PERIOD_DAYS : Z := 30.

(** [env] is [parseInt(process.env.INACTIVITY_PERIOD_DAYS, 10)], [None]
    for [NaN]. *)
Definition INACTIVITY_PERIOD_MS (env : option Z) : Z :=
  Js.or_number env DEFAULT_INACTIVITY_PERIOD_DAYS * 24 * 60 * 60 * 1000.

Section Job.
Context {St : Type}.
(** The module variable [storageProvider], [null] before [initialize]. *)
Variable storageProvider : option (StorageProvider St).
Variable env : option Z.

(** The [for (const file of inactiveFiles)] loop with its [try]/[catch]. *)
Fixpoint delete_each (sp : StorageProvider St) (inactiveFiles : list string)
    (deletedCount : nat) (s : St) : nat * St :=
  match inactiveFiles with
  | [] => (deletedCount, s)
  | file :: rest =>
      match deleteFile sp s file with
      | (Ok true, s') => delete_each sp rest (S deletedCount) s'
      | (Ok false, s') => delete_each sp rest deletedCount s'
      | (Err _, s') => delete_each sp rest deletedCount s'
      end
  end.

(** [now] is [Date.now()], itself a valid time value. The cutoff is logged
    with [toISOString] before the provider is asked for anything: when the
    period taken from the environment puts [now - INACTIVITY_PERIOD_MS]
    outside the range of a [Date], that call throws inside the outer [try]
    and the cycle ends with [0], the provider untouched.

    The integer arithmetic is that of the source's doubles. For up to
    [10 ^ 11] days each of the products by [24], [60], [60] and [1000] is
    exact (the last is a multiple of [2 ^ 10] below [2 ^ 63]); a difference
    within the range of a [Date] is an exact integer, and one outside it
    stays outside when rounded. Beyond [10 ^ 11] days the period exceeds
    every time value a thousandfold, and the cutoff is invalid whatever the
    rounding. *)
Definition runCleanup (now : Z) (s : St) : nat * St :=
  match storageProvider with
  | None => (O, s)
  | Some sp =>
      let inactiveSince := now - INACTIVITY_PERIOD_MS env in
      if Js.valid_date inactiveSince then
        match getInactiveFiles sp s inactiveSince with
        | (Err _, s') => (O, s')
        | (Ok inactiveFiles, s') => delete_each sp inactiveFiles O s'
        end
      else (O, s)
  end.

End Job.

End CleanupJob.

(** ** The usage limiter *)

Module UsageLimiter.

Record usage := Usage {
  upload : Z;
  download : Z;
  lastReset : string
}.

(** The calendar fields [getTodayKey] reads off [new Date()]. *)
Record date := Date {
  getFullYear : Z;
  getMonth : Z;
  getDate : Z
}.

Record file_part := FilePart {
  buffer : list byte;
  originalname : string;
  mimetype : string;
  size : Z
}.

(** [req.file] is what the multipart parser attaches: it is absent while
    [uploadLimiter] runs and read again when the response is written. *)
Record request := Request {
  ip : option string;
  remoteAddress : option string;
  file : option file_part
}.

Definition DEFAULT_UPLOAD_LIMIT : Z := 100 * 1024 * 1024.
Definition DEFAULT_DOWNLOAD_LIMIT : Z := 500 * 1024 * 1024.

Definition getTodayKey (now : date) : string :=
  pretty (getFullYear now) +:+ "-" +:+ pretty (getMonth now) +:+ "-" +:+
  pretty (getDate now).

Definition getUsageKey (ip : string) (now : date) : string :=
  ip +:+ ":" +:+ getTodayKey now.

(** [req.ip || req.connection.remoteAddress || 'unknown'] *)
Definition client (req : request) : string :=
  Js.or_string (ip req) (Js.or_string (remoteAddress req) "unknown").

(** The response methods after zero or more rounds of wrapping by
    [uploadLimiter]. A wrapper closes over the usage record it was
    installed for; the record is a shared object of [dailyUsageStore] and
    is named here by its key in that map. *)
Inductive send_handler :=
  | OriginalSend
  | TrackingSend (originalSend : send_handler) (usage : string).

Inductive json_handler :=
  | OriginalJson
  | TrackingJson (originalJson : json_handler) (usage : string).

Record response := Response {
  send : send_handler;
  json : json_handler
}.

Inductive admission :=
  | Next (res : response)
  | TooManyRequests.

Section Limiter.
(** [parseInt(process.env.UPLOAD_LIMIT, 10)] and
    [parseInt(process.env.DOWNLOAD_LIMIT, 10)], [None] for [NaN]. *)
Variables env_UPLOAD_LIMIT env_DOWNLOAD_LIMIT : option Z.
(** Whether the response object's own [json] hands the serialised body
    to [this.send]: Express does, the [jest.fn()] of the unit tests does
    not. The framework is not part of the repository. *)
Variable json_calls_send : bool.

Definition UPLOAD_LIMIT : Z := Js.or_number env_UPLOAD_LIMIT DEFAULT_UPLOAD_LIMIT.
Definition DOWNLOAD_LIMIT : Z := Js.or_number env_DOWNLOAD_LIMIT DEFAULT_DOWNLOAD_LIMIT.

(** Returns the key that names the record together with the store. The
    source reads the clock once for the key and once more for [lastReset]
    of a record it creates; [now] stands for both readings, which are taken
    to fall on the same calendar day. *)
Definition getUsageRecord (dailyUsageStore : gmap string usage) (ip : string)
    (now : date) : string * gmap string usage :=
  let key := getUsageKey ip now in
  match dailyUsageStore !! key with
  | None => (key, <[key := Usage 0 0 (getTodayKey now)]> dailyUsageStore)
  | Some _ => (key, dailyUsageStore)
  end.

Definition cleanupOldRecords (dailyUsageStore : gmap string usage) (now : date)
    : gmap string usage :=
  let today := getTodayKey now in
  filter (λ kr, lastReset kr.2 = today) dailyUsageStore.

(** [usage.upload += n] through a reference to the record. The counters
    are doubles in the source: the sum below is the one the source computes
    as long as it stays within [Js.MAX_SAFE_INTEGER]. *)
Definition add_upload (key : string) (n : Z) (store : gmap string usage)
    : gmap string usage :=
  alter (λ u, Usage (upload u + n) (download u) (lastReset u)) key store.

Definition add_download (key : string) (n : Z) (store : gmap string usage)
    : gmap string usage :=
  alter (λ u, Usage (upload u) (download u + n) (lastReset u)) key store.

(** [req.file ? req.file.size : 0] *)
Definition uploadSize (req : request) : Z :=
  match file req with
  | Some f => size f
  | None => 0
  end.

Fixpoint call_send (h : send_handler) (req : request) (store : gmap string usage)
    : gmap string usage :=
  match h with
  | OriginalSend => store
  | TrackingSend originalSend usage =>
      call_send originalSend req (add_upload usage (uploadSize req) store)
  end.

Fixpoint call_json (res : response) (h : json_handler) (req : request)
    (store : gmap string usage) : gmap string usage :=
  match h with
  | OriginalJson =>
      if json_calls_send then call_send (send res) req store else store
  | TrackingJson originalJson usage =>
      call_json res originalJson req (add_upload usage (uploadSize req) store)
  end.

Definition uploadLimiter (req : request) (res : response) (now : date)
    (store : gmap string usage) : admission * gmap string usage :=
  let '(usage, store) := getUsageRecord store (client req) now in
  if bool_decide (UPLOAD_LIMIT ≤ default 0 (upload <$> store !! usage))
  then (TooManyRequests, call_json res (json res) req store)
  else (Next (Response (TrackingSend (send res) usage)
                       (TrackingJson (json res) usage)), store).

Definition downloadLimiter (req : request) (res : response) (now : date)
    (store : gmap string usage) : admission * gmap string usage :=
  let '(usage, store) := getUsageRecord store (client req) now in
  if bool_decide (DOWNLOAD_LIMIT ≤ default 0 (download <$> store !! usage))
  then (TooManyRequests, call_json res (json res) req store)
  else (Next res, store).

Definition trackDownload (ip : string) (size : Z) (now : date)
    (store : gmap string usage) : gmap string usage :=
  let '(usage, store) := getUsageRecord store ip now in
  add_download usage size store.

Definition getUsage (ip : string) (now : date) (store : gmap string usage)
    : (Z * Z * Z * Z) * gmap string usage :=
  let '(usage, store) := getUsageRecord store ip now in
  ((default 0 (upload <$> store !! usage),
    default 0 (download <$> store !! usage),
    UPLOAD_LIMIT, DOWNLOAD_LIMIT), store).

(** [router.post('/files', uploadLimiter, upload.single('file'), ...)]:
    the status code of the response, the usage store and the provider
    state after the request. [body] is the file part of the multipart
    body, which the parser turns into [req.file]; a request that the parser
    rejects does not reach the handler and is [post_files_parser_error]
    below. *)
Definition post_files {St : Type} (storageProvider : StorageProvider St)
    (s : St) (src : entropy) (clock : Z) (now : date)
    (req : request) (body : option file_part) (store : gmap string usage)
    : nat * gmap string usage * St :=
  let res := Response OriginalSend OriginalJson in
  match uploadLimiter req res now store with
  | (TooManyRequests, store) => (429%nat, store, s)
  | (Next res, store) =>
      let req := Request (ip req) (remoteAddress req) body in
      match file req with
      | None => (400%nat, call_json res (json res) req store, s)
      | Some f =>
          match uploadFile storageProvider s src clock
                  (buffer f) (originalname f) (mimetype f) with
          | (Ok _, s') => (201%nat, call_json res (json res) req store, s')
          | (Err _, s') => (500%nat, call_json res (json res) req store, s')
          end
      end
  end.


End Limiter.

End UsageLimiter.

(** ** The download and delete routes *)

Module Routes.

Inductive reply :=
  | File (buffer : list byte) (contentType contentDisposition : string)
  | Status (code : nat).

Definition dquote : string := String (ascii_of_nat 34) EmptyString.

Section Handlers.
(** [parseInt(process.env.DOWNLOAD_LIMIT, 10)], [None] for [NaN]. *)
Variable env_DOWNLOAD_LIMIT : option Z.
Variable json_calls_send : bool.
(** Whether [res.setHeader] accepts a header value; it throws on the
    others. The check belongs to the platform, not to the repository. *)
Variable valid_header : string → bool.
Context {St : Type}.
Variable storageProvider : StorageProvider St.

(** [router.get('/files/:publicKey', downloadLimiter, ...)] *)
Definition get_files (s : St) (clock : Z) (now : UsageLimiter.date)
    (req : UsageLimiter.request) (publicKey : string)
    (store : gmap string UsageLimiter.usage)
    : reply * gmap string UsageLimiter.usage * St :=
  let res := UsageLimiter.Response UsageLimiter.OriginalSend UsageLimiter.OriginalJson in
  match UsageLimiter.downloadLimiter env_DOWNLOAD_LIMIT json_calls_send req res now store with
  | (UsageLimiter.TooManyRequests, store) => (Status 429, store, s)
  | (UsageLimiter.Next res, store) =>
      let json store :=
        UsageLimiter.call_json json_calls_send res (UsageLimiter.json res) req store in
      if Js.blank publicKey then (Status 400, json store, s)
      else
        match downloadFile storageProvider s clock publicKey with
        | (Ok (buffer, mimeType, originalName), s') =>
            let store :=
              UsageLimiter.trackDownload (UsageLimiter.client req)
                (Z.of_nat (length buffer)) now store in
            let disposition :=
              "attachment; filename=" +:+ dquote +:+ originalName +:+ dquote in
            if valid_header mimeType && valid_header disposition
            then (File buffer mimeType disposition,
                  UsageLimiter.call_send (UsageLimiter.send res) req store, s')
            else (Status 500, json store, s')
        | (Err FileNotFound, s') => (Status 404, json store, s')
        | (Err _, s') => (Status 500, json store, s')
        end
  end.

(** [router.delete('/files/:privateKey', ...)]: no limiter is installed on
    this route. *)
Definition delete_files (s : St) (privateKey : string) : reply * St :=
  if Js.blank privateKey then (Status 400, s)
  else
    match deleteFile storageProvider s privateKey with
    | (Ok false, s') => (Status 404, s')
    | (Ok true, s') => (Status 200, s')
    | (Err _, s') => (Status 500, s')
    end.

End Handlers.

End Routes.

(** ** Starting and stopping the cleanup job *)

Module Scheduler.

(** The interval timers of the event loop: the handles that are running
    and the handle the next [setInterval] returns. *)
Record timers := Timers {
  running : gset nat;
  fresh : nat
}.

Definition setInterval (t : timers) : nat * timers :=
  (fresh t, Timers ({[fresh t]} ∪ running t) (S (fresh t))).

Definition clearInterval (t : timers) (handle : nat) : timers :=
  Timers (running t ∖ {[handle]}) (fresh t).

(** The module variables [cleanupInterval] and [storageProvider]. *)
Record job (St : Type) := Job {
  cleanupInterval : option nat;
  storageProvider : option (StorageProvider St)
}.
Arguments Job {St}.
Arguments cleanupInterval {St}.
Arguments storageProvider {St}.

(** [initialize] either returns or throws
    [new Error('Storage provider is required for cleanup job')]. *)
Inductive outcome :=
  | Returned
  | ProviderRequired.

Section Job.
Context {St : Type}.
Variable env : option Z.

(** [initialize(provider)]: the first cycle is started at once; its effect
    on the store is taken here as if it ran to completion before
    [initialize] returns. *)
Definition initialize (j : job St) (provider : option (StorageProvider St))
    (now : Z) (t : timers) (s : St) : outcome * job St * timers * St :=
  match provider with
  | None => (ProviderRequired, j, t, s)
  | Some sp =>
      let '(_, s') := CleanupJob.runCleanup (Some sp) env now s in
      let '(handle, t') := setInterval t in
      (Returned, Job (Some handle) (Some sp), t', s')
  end.

Definition stop (j : job St) (t : timers) : job St * timers :=
  match cleanupInterval j with
  | Some handle => (Job None (storageProvider j), clearInterval t handle)
  | None => (j, t)
  end.

(** [runCleanup] as exported: it reads the module variable. *)
Definition runCleanup (j : job St) (now : Z) (s : St) : nat * St :=
  CleanupJob.runCleanup (storageProvider j) env now s.

End Job.

End Scheduler.

(** * Definitions used to state the properties *)

(** Calling [deleteFile] on every candidate in turn, whatever the earlier
    calls answered: the call log and the state at the end. *)
Fixpoint attempts {St} (sp : StorageProvider St) (files : list string) (s : St)
    : list (string * result bool) * St :=
  match files with
  | [] => ([], s)
  | file :: rest =>
      let '(r, s') := deleteFile sp s file in
      let '(log, s'') := attempts sp rest s' in
      ((file, r) :: log, s'')
  end.

Definition deleted (entry : string * result bool) : bool :=
  match entry.2 with
  | Ok true => true
  | _ => false
  end.

(** The bytes on record for a client and a day; nothing on record counts
    as zero. *)
Definition bytes_uploaded (store : gmap string UsageLimiter.usage) (ip : string)
    (now : UsageLimiter.date) : Z :=
  default 0 (UsageLimiter.upload <$> store !! UsageLimiter.getUsageKey ip now).

Definition bytes_downloaded (store : gmap string UsageLimiter.usage) (ip : string)
    (now : UsageLimiter.date) : Z :=
  default 0 (UsageLimiter.download <$> store !! UsageLimiter.getUsageKey ip now).

(** Every record of the usage store sits under the key of some client and
    day and carries that day in [lastReset]. *)
Definition ledger_wf (store : gmap string UsageLimiter.usage) : Prop :=
  ∀ key r, store !! key = Some r →
    ∃ ip d, key = UsageLimiter.getUsageKey ip d ∧
            UsageLimiter.lastReset r = UsageLimiter.getTodayKey d.

(** No counter of any client and day differs between the two stores. *)
Definition same_usage (store store' : gmap string UsageLimiter.usage) : Prop :=
  ∀ ip d, bytes_uploaded store' ip d = bytes_uploaded store ip d ∧
          bytes_downloaded store' ip d = bytes_downloaded store ip d.

(** No character of [s] is [c]. *)
Definition lacks (c : ascii) (s : string) : bool :=
  Js.all_chars (λ x, negb (Ascii.eqb x c)) s.

(** The value of a lower-case hex digit, and [Buffer.from(s, 'hex')] on
    strings of such digits: the reading that [toHex] inverts. *)
Definition hex_value (c : ascii) : option N :=
  let n := N_of_ascii c in
  if (48 <=? n)%N && (n <=? 57)%N then Some (n - 48)%N
  else if (97 <=? n)%N && (n <=? 102)%N then Some (n - 87)%N
  else None.

Fixpoint fromHex (s : string) : option (list byte) :=
  match s with
  | EmptyString => Some []
  | String h (String l s') =>
      hi ← hex_value h; lo ← hex_value l;
      b ← Byte.of_N (16 * hi + lo); bs ← fromHex s'; Some (b :: bs)
  | String _ EmptyString => None
  end.

(** [d'] holds nothing that [d] did not hold, byte for byte, and refuses
    the same names. *)
Definition disk_within (d' d : disk) : Prop :=
  entries d' ⊆ entries d ∧ rejecting d' = rejecting d.

(** The same for the two folders of the local provider and for the bucket
    of the cloud provider, whose configuration stays as it is. *)
Definition local_within (p' p : Local.provider) : Prop :=
  disk_within (Local.filesFolder p') (Local.filesFolder p) ∧
  disk_within (Local.metadataFolder p') (Local.metadataFolder p).

Definition gcs_within (p' p : GCS.provider) : Prop :=
  GCS.config_ p' = GCS.config_ p ∧
  GCS.metadataPrefix p' = GCS.metadataPrefix p ∧
  match GCS.bucket p', GCS.bucket p with
  | Some b', Some b => disk_within b' b
  | None, None => True
  | _, _ => False
  end.

(** Handles are handed out in increasing order: the next one is not in
    use. *)
Definition timers_wf (t : Scheduler.timers) : Prop :=
  ∀ h, h ∈ Scheduler.running t → (h < Scheduler.fresh t)%nat.

(** ** A concrete codec *)

(** The law of [Json] is satisfiable: number the records and write the
    number in binary, one ASCII digit per bit. The examples further down run
    on this codec. *)
Module Codec.

Fixpoint bits (p : positive) : list byte :=
  match p with
  | xH => []
  | xO q => x30 :: bits q
  | xI q => x31 :: bits q
  end.

Fixpoint unbits (l : list byte) : option positive :=
  match l with
  | [] => Some xH
  | x30 :: l' => xO <$> unbits l'
  | x31 :: l' => xI <$> unbits l'
  | _ => None
  end.

Lemma unbits_bits p : unbits (bits p) = Some p.
Proof. induction p as [p IH|p IH|]; cbn; by rewrite ?IH. Qed.

Definition to_tuple (m : metadata) :=
  (publicKey m, privateKey m, originalName m, mimeType m,
   createdAt m, lastAccessed m, fileSize m, filePath m).

Definition of_tuple
    (t : string * string * string * string * Z * option Z * nat * option string)
    : metadata :=
  let '(a, b, c, d, e, f, g, h) := t in Metadata a b c d e f g h.

Lemma of_to_tuple m : of_tuple (to_tuple m) = m.
Proof. by destruct m. Qed.

#[export] Instance metadata_eq_dec : EqDecision metadata.
Proof. solve_decision. Defined.

#[export] Instance metadata_countable : Countable metadata :=
  inj_countable' to_tuple of_tuple of_to_tuple.

Definition stringify (m : metadata) : list byte := bits (encode m).

Definition parse (l : list byte) : option metadata := unbits l ≫= decode.

Lemma parse_stringify m : parse (stringify m) = Some m.
Proof.
  unfold parse, stringify. rewrite unbits_bits. cbn. apply decode_encode.
Qed.

Definition codec : Json := {|
  JSON_stringify := stringify;
  JSON_parse := parse;
  JSON_parse_stringify := parse_stringify
|}.

End Codec.

#[global] Opaque Codec.stringify Codec.parse.

(** ** Example data *)

Definition demo_entropy : entropy := λ i, default x00 (Byte.of_nat i).

Definition demo_pub : string := (_generateKeys demo_entropy).1.
Definition demo_priv : string := (_generateKeys demo_entropy).2.

Definition demo_content : list byte := [x68; x69].

Definition local_empty : Local.provider :=
  Local.Provider (Disk ∅ ∅) (Disk ∅ ∅).

Definition gcs_empty : GCS.provider :=
  GCS.initialize (GCS.Config None None) (Disk ∅ ∅).

(** One upload into the empty store, with the concrete codec. *)
Definition local_stored : Local.provider :=
  (Local.uploadFile (H := Codec.codec) local_empty demo_entropy 1000
     demo_content "hi.txt" "text/plain").2.

Definition gcs_stored : GCS.provider :=
  (GCS.uploadFile (H := Codec.codec) gcs_empty demo_entropy 1000
     demo_content "hi.txt" "text/plain").2.

(** The same stores after a read of the object at time 3000. *)
Definition local_read : Local.provider :=
  (Local.downloadFile (H := Codec.codec) local_stored 3000 demo_pub).2.

Definition gcs_read : GCS.provider :=
  (GCS.downloadFile (H := Codec.codec) gcs_stored 3000 demo_pub).2.

Definition demo_record (path : option string) : metadata :=
  Metadata demo_pub demo_priv "hi.txt" "text/plain" 1000 None 2 path.

(** A local store whose metadata folder rejects the record of the private
    key, and a bucket that does the same. *)
Definition local_rejecting : Local.provider :=
  Local.Provider (Disk ∅ ∅) (Disk ∅ {[demo_priv +:+ ".json"]}).

Definition gcs_rejecting : GCS.provider :=
  GCS.initialize (GCS.Config None None)
    (Disk ∅ {[GCS._getMetadataPath gcs_empty demo_priv]}).

Definition local_half_stored : Local.provider :=
  Local.Provider
    (Disk {[demo_pub := demo_content]} ∅)
    (Disk {[demo_pub +:+ ".json" := Codec.stringify (demo_record None)]}
          {[demo_priv +:+ ".json"]}).

Definition gcs_half_stored : GCS.provider :=
  GCS.with_bucket gcs_rejecting
    (Disk (<[GCS._getMetadataPath gcs_empty demo_pub :=
               Codec.stringify
                 (demo_record (Some (GCS._getFilePath gcs_empty demo_pub)))]>
             {[GCS._getFilePath gcs_empty demo_pub := demo_content]})
          {[GCS._getMetadataPath gcs_empty demo_priv]}).

(** A provider in the manner of the job's unit tests: two candidates, the
    deletion of the first throws, the deletion of the second succeeds. The
    state is the list of keys [deleteFile] was called with. *)
Definition flaky_provider : StorageProvider (list string) := {|
  uploadFile s _ _ _ _ _ := (Err IOError, s);
  downloadFile s _ _ := (Err FileNotFound, s);
  deleteFile s key :=
    (if decide (key = "key1") then Err IOError else Ok true, s ++ [key]);
  getInactiveFiles s _ := (Ok ["key1"; "key2"], s)
|}.

(** A provider that accepts every upload, a request from 192.168.1.1 and a
    file of 1024 bytes. *)
Definition accepting_provider : StorageProvider unit := {|
  uploadFile s _ _ _ _ _ := (Ok ("test", "test"), s);
  downloadFile s _ _ := (Err FileNotFound, s);
  deleteFile s _ := (Ok false, s);
  getInactiveFiles s _ := (Ok [], s)
|}.

Definition demo_request : UsageLimiter.request :=
  UsageLimiter.Request (Some "192.168.1.1") (Some "192.168.1.1") None.

Definition demo_file : UsageLimiter.file_part :=
  UsageLimiter.FilePart (replicate 1024 x00) "test.txt" "text/plain" 1024.

Definition demo_day : UsageLimiter.date := UsageLimiter.Date 2024 0 17.

Definition demo_ledger : gmap string UsageLimiter.usage :=
  (UsageLimiter.post_files None true accepting_provider tt demo_entropy 0 demo_day
     demo_request (Some demo_file) ∅).1.2.

Definition demo_upload : UsageLimiter.file_part :=
  UsageLimiter.FilePart demo_content "hi.txt" "text/plain" 2.

(** The usage store after [demo_request] has uploaded [demo_upload] into
    the empty local store. *)
Definition demo_upload_ledger : gmap string UsageLimiter.usage :=
  (UsageLimiter.post_files None true (localProvider (H := Codec.codec)) local_empty
     demo_entropy 1000 demo_day demo_request (Some demo_upload) ∅).1.2.

Definition any_header : string → bool := λ _, true.

(** The usage store after [demo_request] has downloaded the stored object
    on an empty usage store. *)
Definition demo_download_ledger : gmap string UsageLimiter.usage :=
  UsageLimiter.trackDownload (UsageLimiter.client demo_request) 2 demo_day
    (UsageLimiter.getUsageRecord ∅ (UsageLimiter.client demo_request) demo_day).2.

(** A second object, uploaded into [local_stored] much later. *)
Definition demo_entropy2 : entropy := λ i, demo_entropy (64 + i)%nat.

Definition demo_pub2 : string := (_generateKeys demo_entropy2).1.
Definition demo_priv2 : string := (_generateKeys demo_entropy2).2.

Definition local_two_stored : Local.provider :=
  (Local.uploadFile (H := Codec.codec) local_stored demo_entropy2 3000000000
     [x6f; x6b] "ok.txt" "text/plain").2.

(** * Properties *)

(** ** Names and keys *)

Lemma string_app_cons c s t : String c s +:+ t = String c (s +:+ t).
Proof. reflexivity. Qed.

Lemma string_app_nil_l t : "" +:+ t = t.
Proof. reflexivity. Qed.

Lemma hex_digit_is_hex b :
  is_hex_char (hex_digit (Byte.to_N b / 16)) = true ∧
  is_hex_char (hex_digit (Byte.to_N b mod 16)) = true.
Proof. destruct b; split; reflexivity. Qed.

Lemma toHex_hex bs : Js.all_chars is_hex_char (toHex bs) = true.
Proof.
  induction bs as [|b bs IH]; [done|].
  destruct (hex_digit_is_hex b) as [Hh Hl].
  cbn [toHex Js.all_chars]. by rewrite Hh, Hl, IH.
Qed.

Lemma generateKeys_is_key src :
  is_key (_generateKeys src).1 ∧ is_key (_generateKeys src).2.
Proof.
  unfold _generateKeys, randomBytes, is_key. cbn [fst snd].
  split; (split; [apply toHex_hex | done]).
Qed.

Lemma endsWith_app k suf : Js.endsWith (k +:+ suf) suf = true.
Proof.
  induction k as [|c k IH].
  - rewrite string_app_nil_l. destruct suf; cbn; [done|].
    by rewrite Ascii.eqb_refl, String.eqb_refl.
  - rewrite string_app_cons. cbn [Js.endsWith]. rewrite IH. apply orb_true_r.
Qed.

Lemma replace_key_json k :
  Js.all_chars is_hex_char k = true → Js.replace ".json" "" (k +:+ ".json") = k.
Proof.
  induction k as [|c k IH]; [done|].
  intros [Hc Hk]%andb_prop. rewrite string_app_cons.
  cbn [Js.replace String.prefix].
  destruct (ascii_dec "." c) as [<-|_]; [done|].
  by rewrite IH.
Qed.

Lemma prefix_app p r : String.prefix p (p +:+ r) = true.
Proof.
  induction p as [|c p IH]; [by destruct r|].
  rewrite string_app_cons. cbn. by destruct (ascii_dec c c).
Qed.

Lemma prefix_true p s : String.prefix p s = true → ∃ r, s = p +:+ r.
Proof.
  revert s. induction p as [|c p IH]; intros s Hp; [by exists s|].
  destruct s as [|c' s]; [done|]. cbn in Hp.
  destruct (ascii_dec c c') as [<-|]; [|done].
  destruct (IH _ Hp) as [r ->]. by exists r.
Qed.

Lemma drop_chars_app p r : Js.drop_chars (String.length p) (p +:+ r) = r.
Proof. induction p as [|c p IH]; [by destruct r|]. by rewrite string_app_cons. Qed.

Lemma replace_prefix p r : Js.replace p "" (p +:+ r) = r.
Proof.
  destruct p as [|c p]; [by destruct r|].
  rewrite string_app_cons. cbn [Js.replace].
  rewrite <- string_app_cons, prefix_app, drop_chars_app. done.
Qed.

Lemma endsWith_hex s :
  Js.all_chars is_hex_char s = true → Js.endsWith s ".json" = false.
Proof.
  induction s as [|c s IH]; [done|].
  intros [Hc Hs]%andb_prop. cbn [Js.endsWith]. rewrite IH by done.
  rewrite orb_false_r. apply String.eqb_neq. intros [= -> _]. done.
Qed.

Lemma json_name_of_key f k :
  Js.endsWith f ".json" = true →
  Js.all_chars is_hex_char k = true →
  Js.replace ".json" "" f = k →
  f = k +:+ ".json".
Proof.
  revert k. induction f as [|c f IH]; intros k Hend Hk Hrep; [done|].
  cbn [Js.replace] in Hrep.
  destruct (String.prefix ".json" (String c f)) eqn:Hp.
  - apply prefix_true in Hp as [r Hr]. rewrite Hr in *.
    rewrite drop_chars_app, string_app_nil_l in Hrep. subst r.
    rewrite !string_app_cons, string_app_nil_l in Hend. cbn [Js.endsWith] in Hend.
    rewrite (endsWith_hex k Hk) in Hend. cbn in Hend.
    rewrite !orb_false_r in Hend. destruct k; [done|]. done.
  - destruct k as [|c' k]; [done|]. injection Hrep as <- Hrep.
    apply andb_prop in Hk as [_ Hk].
    cbn [Js.endsWith] in Hend. apply orb_prop in Hend as [Heq|Hend].
    + apply String.eqb_eq in Heq. rewrite Heq in Hp. done.
    + rewrite string_app_cons. f_equal. by apply IH.
Qed.

Lemma app_key_ne_json x h : is_key h → x +:+ h ≠ ".json".
Proof.
  intros [Hh Hne] Heq.
  do 5 (destruct x as [|? x];
        [rewrite string_app_nil_l in Heq; subst h; vm_compute in Hh; discriminate|];
        rewrite string_app_cons in Heq; injection Heq as -> Heq).
  destruct x as [|? x]; [rewrite string_app_nil_l in Heq; congruence|].
  rewrite string_app_cons in Heq. discriminate.
Qed.

Lemma endsWith_key a h : is_key h → Js.endsWith (a +:+ h) ".json" = false.
Proof.
  intros Hh. induction a as [|c a IH].
  - rewrite string_app_nil_l. by apply endsWith_hex, Hh.
  - rewrite string_app_cons. cbn [Js.endsWith]. rewrite IH, orb_false_r.
    apply String.eqb_neq. rewrite <- string_app_cons. by apply app_key_ne_json.
Qed.

Lemma endsWith_app_l b s suf :
  Js.endsWith s suf = true → Js.endsWith (b +:+ s) suf = true.
Proof.
  intros Hs. induction b as [|c b IH]; [done|].
  rewrite string_app_cons. cbn [Js.endsWith]. rewrite IH. apply orb_true_r.
Qed.

(** A content name never coincides with a metadata name. *)
Lemma content_name_ne_metadata_name a h b k :
  is_key h → a +:+ h ≠ b +:+ k +:+ ".json".
Proof.
  intros Hh Heq.
  assert (Js.endsWith (a +:+ h) ".json" = true) as Hend.
  { rewrite Heq. apply endsWith_app_l, endsWith_app. }
  by rewrite endsWith_key in Hend.
Qed.

(** ** Disk primitives *)

Lemma disk_write_Some d name data d' :
  disk_write d name data = Some d' →
  (name ∉ rejecting d) ∧ d' = Disk (<[name := data]> (entries d)) (rejecting d).
Proof. unfold disk_write. case_decide; naive_solver. Qed.

Lemma disk_write_accepted d name data :
  name ∉ rejecting d →
  disk_write d name data = Some (Disk (<[name := data]> (entries d)) (rejecting d)).
Proof. intros. unfold disk_write. by case_decide. Qed.

Lemma disk_exists_true d name data :
  entries d !! name = Some data → disk_exists d name = true.
Proof. intros Hd. unfold disk_exists. apply bool_decide_eq_true. by eexists. Qed.

Lemma disk_exists_false d name :
  entries d !! name = None → disk_exists d name = false.
Proof.
  intros Hd. unfold disk_exists. apply bool_decide_eq_false.
  rewrite Hd. by intros [? ?].
Qed.

Lemma try_unlink_rejecting d name : rejecting (try_unlink d name) = rejecting d.
Proof.
  unfold try_unlink, disk_unlink. case_decide; [done|].
  by destruct (entries d !! name).
Qed.

(** After an accepted removal attempt the name is free, whether or not
    there was anything to remove. *)
Lemma try_unlink_gone d name :
  name ∉ rejecting d → entries (try_unlink d name) !! name = None.
Proof.
  intros Hr. unfold try_unlink, disk_unlink. case_decide; [done|].
  destruct (entries d !! name) eqn:Hd; cbn; [apply lookup_delete_eq | done].
Qed.

Lemma try_unlink_absent d name other :
  entries d !! name = None → entries (try_unlink d other) !! name = None.
Proof.
  intros Hd. unfold try_unlink, disk_unlink. case_decide; [done|].
  destruct (entries d !! other); cbn; [|done].
  rewrite lookup_delete. by case_decide.
Qed.

Lemma elem_of_readdir d name : name ∈ readdir d ↔ is_Some (entries d !! name).
Proof.
  unfold readdir. rewrite list_elem_of_fmap. split.
  - intros [[n x] [-> Hin]]. apply elem_of_map_to_list in Hin. by eexists.
  - intros [x Hx]. exists (name, x). split; [done|]. by apply elem_of_map_to_list.
Qed.

Lemma NoDup_readdir d : NoDup (readdir d).
Proof. apply NoDup_fst_map_to_list. Qed.

(** ** The local provider: put, get, delete *)

Section LocalProvider.
Context `{Json}.

(** What a completed upload has done. *)
Lemma local_upload_ok p src now buf name mime pub priv p' :
  Local.uploadFile p src now buf name mime = (Ok (pub, priv), p') →
  let m := Metadata pub priv name mime now None (length buf) None in
  (pub, priv) = _generateKeys src ∧
  ((pub +:+ ".json") ∉ rejecting (Local.metadataFolder p)) ∧
  ((priv +:+ ".json") ∉ rejecting (Local.metadataFolder p)) ∧
  (pub ∉ rejecting (Local.filesFolder p)) ∧
  p' = Local.Provider
         (Disk (<[pub := buf]> (entries (Local.filesFolder p)))
               (rejecting (Local.filesFolder p)))
         (Disk (<[priv +:+ ".json" := JSON_stringify m]>
                  (<[pub +:+ ".json" := JSON_stringify m]>
                     (entries (Local.metadataFolder p))))
               (rejecting (Local.metadataFolder p))).
Proof.
  unfold Local.uploadFile, Local._getFilePath, Local._getMetadataPath.
  destruct (_generateKeys src) as [pub0 priv0].
  destruct (disk_write _ pub0 _) as [f1|] eqn:Hf; [|done].
  destruct (disk_write _ (pub0 +:+ _) _) as [m1|] eqn:Hm1; [|done].
  destruct (disk_write m1 _ _) as [m2|] eqn:Hm2; [|done].
  intros [= -> -> <-].
  apply disk_write_Some in Hf as [? ->].
  apply disk_write_Some in Hm1 as [? ->].
  apply disk_write_Some in Hm2 as [? ->]. done.
Qed.

(** The metadata record found under both keys after an upload. *)
Lemma local_upload_records p src now buf name mime pub priv p' :
  Local.uploadFile p src now buf name mime = (Ok (pub, priv), p') →
  let m := Metadata pub priv name mime now None (length buf) None in
  disk_read (Local.metadataFolder p') (pub +:+ ".json") = Some (JSON_stringify m) ∧
  disk_read (Local.metadataFolder p') (priv +:+ ".json") = Some (JSON_stringify m) ∧
  disk_read (Local.filesFolder p') pub = Some buf.
Proof.
  intros Hup m. apply local_upload_ok in Hup as (_ & _ & _ & _ & ->).
  unfold disk_read. cbn. split_and!.
  - rewrite lookup_insert. case_decide; [done|]. by rewrite lookup_insert_eq.
  - by rewrite lookup_insert_eq.
  - by rewrite lookup_insert_eq.
Qed.

Lemma local_download_after_upload p src now buf name mime pub priv p1 now' :
  Local.uploadFile p src now buf name mime = (Ok (pub, priv), p1) →
  ∃ p2, Local.downloadFile p1 now' pub = (Ok (buf, mime, name), p2).
Proof.
  intros Hup.
  destruct (local_upload_records _ _ _ _ _ _ _ _ _ Hup) as (Hpub & Hpriv & Hbuf).
  apply local_upload_ok in Hup as (_ & Hr1 & Hr2 & _ & Hp1).
  unfold Local.downloadFile, Local._getMetadataPath, Local._getFilePath.
  rewrite (disk_exists_true _ _ _ Hpub). cbn [negb].
  rewrite Hpub, JSON_parse_stringify, Hbuf.
  assert (rejecting (Local.metadataFolder p1) = rejecting (Local.metadataFolder p))
    as Hrej by (by subst p1).
  rewrite disk_write_accepted by (by rewrite Hrej).
  rewrite disk_write_accepted by (by cbn; rewrite Hrej).
  by eexists.
Qed.

(** The record under the private key after a read under the public key:
    the stored record with [lastAccessed] set to the time of the read. *)
Lemma local_download_touches p src now buf name mime pub priv p1 now' :
  Local.uploadFile p src now buf name mime = (Ok (pub, priv), p1) →
  ∃ p2, Local.downloadFile p1 now' pub = (Ok (buf, mime, name), p2) ∧
        disk_read (Local.metadataFolder p2) (priv +:+ ".json")
        = Some (JSON_stringify
                  (touch (Metadata pub priv name mime now None (length buf) None) now')).
Proof.
  intros Hup.
  destruct (local_upload_records _ _ _ _ _ _ _ _ _ Hup) as (Hpub & Hpriv & Hbuf).
  apply local_upload_ok in Hup as (_ & Hr1 & Hr2 & _ & Hp1).
  unfold Local.downloadFile, Local._getMetadataPath, Local._getFilePath.
  rewrite (disk_exists_true _ _ _ Hpub). cbn [negb].
  rewrite Hpub, JSON_parse_stringify, Hbuf.
  assert (rejecting (Local.metadataFolder p1) = rejecting (Local.metadataFolder p))
    as Hrej by (by subst p1).
  rewrite disk_write_accepted by (by rewrite Hrej).
  rewrite disk_write_accepted by (by cbn; rewrite Hrej).
  eexists. split; [done|]. unfold disk_read. cbn. by rewrite lookup_insert_eq.
Qed.

(** Deleting under the public key: the metadata record is found there too,
    so the content and the public record are removed. *)
Lemma local_delete_by_public_key p src now buf name mime pub priv p1 now' :
  Local.uploadFile p src now buf name mime = (Ok (pub, priv), p1) →
  ∃ p2, Local.deleteFile p1 pub = (Ok true, p2) ∧
        disk_read (Local.filesFolder p2) pub = None ∧
        Local.downloadFile p2 now' pub = (Err FileNotFound, p2).
Proof.
  intros Hup.
  destruct (local_upload_records _ _ _ _ _ _ _ _ _ Hup) as (Hpub & Hpriv & Hbuf).
  apply local_upload_ok in Hup as (_ & Hr1 & Hr2 & Hr3 & Hp1).
  assert (rejecting (Local.metadataFolder p1) = rejecting (Local.metadataFolder p))
    as Hrej by (by subst p1).
  assert (rejecting (Local.filesFolder p1) = rejecting (Local.filesFolder p))
    as Hrejf by (by subst p1).
  unfold Local.deleteFile, Local._getMetadataPath, Local._getFilePath.
  rewrite Hpub. cbn. rewrite JSON_parse_stringify. cbn.
  eexists. split; [done|]. split.
  - unfold disk_read. cbn. apply try_unlink_gone. by rewrite Hrejf.
  - unfold Local.downloadFile, Local._getMetadataPath. cbn.
    rewrite disk_exists_false; [done|].
    apply try_unlink_gone. by rewrite try_unlink_rejecting, Hrej.
Qed.

(** Reading under the private key: the record is found, the content is
    looked up under the supplied key and is not there. *)
Lemma local_download_by_private_key p src now buf name mime pub priv p1 now' :
  Local.uploadFile p src now buf name mime = (Ok (pub, priv), p1) →
  pub ≠ priv →
  disk_read (Local.filesFolder p) priv = None →
  Local.downloadFile p1 now' priv = (Err IOError, p1).
Proof.
  intros Hup Hne Hfree.
  destruct (local_upload_records _ _ _ _ _ _ _ _ _ Hup) as (Hpub & Hpriv & Hbuf).
  apply local_upload_ok in Hup as (_ & Hr1 & Hr2 & Hr3 & Hp1).
  unfold Local.downloadFile, Local._getMetadataPath, Local._getFilePath.
  rewrite (disk_exists_true _ _ _ Hpriv). cbn [negb].
  rewrite Hpriv, JSON_parse_stringify.
  assert (disk_read (Local.filesFolder p1) priv = None) as ->; [|done].
  subst p1. unfold disk_read in *. cbn. by rewrite lookup_insert_ne.
Qed.

(** A failed upload keeps every write that preceded the failing one. *)
Lemma local_upload_failure p src now buf name mime :
  let pub := (_generateKeys src).1 in
  let priv := (_generateKeys src).2 in
  let m := Metadata pub priv name mime now None (length buf) None in
  let files1 := Disk (<[pub := buf]> (entries (Local.filesFolder p)))
                     (rejecting (Local.filesFolder p)) in
  let meta1 := Disk (<[pub +:+ ".json" := JSON_stringify m]>
                       (entries (Local.metadataFolder p)))
                    (rejecting (Local.metadataFolder p)) in
  (pub ∈ rejecting (Local.filesFolder p) →
     Local.uploadFile p src now buf name mime = (Err IOError, p)) ∧
  (pub ∉ rejecting (Local.filesFolder p) →
   (pub +:+ ".json") ∈ rejecting (Local.metadataFolder p) →
     Local.uploadFile p src now buf name mime =
       (Err IOError, Local.Provider files1 (Local.metadataFolder p))) ∧
  (pub ∉ rejecting (Local.filesFolder p) →
   (pub +:+ ".json") ∉ rejecting (Local.metadataFolder p) →
   (priv +:+ ".json") ∈ rejecting (Local.metadataFolder p) →
     Local.uploadFile p src now buf name mime =
       (Err IOError, Local.Provider files1 meta1)).
Proof.
  intros pub priv m files1 meta1.
  unfold Local.uploadFile, Local._getFilePath, Local._getMetadataPath.
  subst pub priv m files1 meta1.
  destruct (_generateKeys src) as [pub priv]. cbn [fst snd].
  unfold disk_write. cbn. split_and!; intros; repeat case_decide; done.
Qed.

(** [deleteFile] answers [false] when no record is found under the key. *)
Lemma local_delete_absent p key :
  disk_read (Local.metadataFolder p) (key +:+ ".json") ≫= JSON_parse = None →
  Local.deleteFile p key = (Ok false, p).
Proof.
  intros Hnone. unfold Local.deleteFile, Local._getMetadataPath. by rewrite Hnone.
Qed.

Lemma local_delete_twice p key m :
  disk_read (Local.metadataFolder p) (key +:+ ".json") ≫= JSON_parse = Some m →
  (key +:+ ".json") ∉ rejecting (Local.metadataFolder p) →
  ∃ p1, Local.deleteFile p key = (Ok true, p1) ∧
        Local.deleteFile p1 key = (Ok false, p1).
Proof.
  intros Hm Hr. unfold Local.deleteFile at 1. unfold Local._getMetadataPath.
  rewrite Hm. eexists. split; [done|].
  apply local_delete_absent. unfold disk_read. cbn.
  rewrite try_unlink_gone; [done|]. by rewrite try_unlink_rejecting.
Qed.

End LocalProvider.

(** ** The inactive-file scan *)

Section Scan.
Context {A B : Type} `{EqDecision B}.
Implicit Types (g : A → option B) (l : list A) (k : B).

Lemma omap_filter_none g l k :
  (∀ a, a ∈ l → g a ≠ Some k) → filter (λ x, x = k) (omap g l) = [].
Proof.
  induction l as [|a l IH]; intros Hl; [done|]. cbn.
  assert (filter (λ x, x = k) (omap g l) = []) as IH'.
  { apply IH. intros a' Ha'. apply Hl. by right. }
  destruct (g a) as [b|] eqn:Hga; [|done].
  rewrite filter_cons. case_decide as Hb; [|done].
  subst b. destruct (Hl a); [by left | done].
Qed.

(** If only one element of a duplicate-free list can produce [k], then
    [k] is produced at most once. *)
Lemma omap_at_most_once g l k a0 :
  NoDup l →
  (∀ a, a ∈ l → g a = Some k → a = a0) →
  (length (filter (λ x, x = k) (omap g l)) ≤ 1)%nat.
Proof.
  induction 1 as [|a l Hnotin Hnd IH]; intros Hone; [cbn; lia|]. cbn.
  destruct (g a) as [b|] eqn:Hga.
  - rewrite filter_cons. case_decide as Hb.
    + subst b. rewrite omap_filter_none; [cbn; lia|].
      intros a' Ha' Hga'. apply Hnotin.
      rewrite (Hone a) by (done || by left).
      rewrite <- (Hone a') by (done || by right). done.
    + apply IH. intros a' Ha'. apply Hone. by right.
  - apply IH. intros a' Ha'. apply Hone. by right.
Qed.
End Scan.

Section LocalScan.
Context `{Json}.

Lemma local_scan_omap p cutoff names acc :
  Local.scan p cutoff names acc = acc ++ omap (Local.inspect p cutoff) names.
Proof.
  revert acc. induction names as [|f names IH]; intros acc; cbn.
  - by rewrite app_nil_r.
  - rewrite IH. destruct (Local.inspect p cutoff f); [|done].
    by rewrite <- app_assoc.
Qed.

Lemma local_inspect_Some p cutoff f k :
  Local.inspect p cutoff f = Some k ↔
  Js.endsWith f ".json" = true ∧
  ∃ m, disk_read (Local.metadataFolder p) f ≫= JSON_parse = Some m ∧
       privateKey m = Js.replace ".json" "" f ∧
       referenceDate m < cutoff ∧ k = privateKey m.
Proof.
  unfold Local.inspect.
  destruct (Js.endsWith f ".json"); [|split; [done | by intros [? _]]].
  destruct (disk_read _ f ≫= JSON_parse) as [m|];
    [|split; [done | by intros (_ & ? & ? & _)]].
  case_decide as Hk; [|split; [done | by intros (_ & ? & [= <-] & ? & _)]].
  case_bool_decide as Hlt.
  - split; [intros [= <-]; eauto 10 | by intros (_ & ? & [= <-] & _ & _ & ->)].
  - split; [done | by intros (_ & ? & [= <-] & _ & ? & _)].
Qed.

(** The scan lists [key] exactly when the record stored under [key]
    names [key] as its private key and is older than the cutoff. *)
Lemma local_scan_member p cutoff key :
  is_key key →
  key ∈ Local.scan p cutoff (readdir (Local.metadataFolder p)) [] ↔
  ∃ m, disk_read (Local.metadataFolder p) (key +:+ ".json") ≫= JSON_parse = Some m ∧
       privateKey m = key ∧ referenceDate m < cutoff.
Proof.
  intros [Hhex _]. rewrite local_scan_omap, app_nil_l, list_elem_of_omap. split.
  - intros (f & _ & (Hend & m & Hm & Hk & Hlt & ->)%local_inspect_Some).
    symmetry in Hk. apply json_name_of_key in Hk; [|done..]. subst f. eauto.
  - intros (m & Hm & Hk & Hlt). exists (key +:+ ".json"). split.
    + apply elem_of_readdir. unfold disk_read in Hm.
      destruct (entries _ !! _); [by eexists | done].
    + apply local_inspect_Some. split; [apply endsWith_app|].
      exists m. by rewrite replace_key_json.
Qed.

Lemma local_scan_at_most_once p cutoff key :
  is_key key →
  (length (filter (λ k, k = key)
     (Local.scan p cutoff (readdir (Local.metadataFolder p)) [])) ≤ 1)%nat.
Proof.
  intros [Hhex _]. rewrite local_scan_omap, app_nil_l.
  apply (omap_at_most_once _ _ _ (key +:+ ".json")); [apply NoDup_readdir|].
  intros f _ (Hend & m & Hm & Hk & Hlt & ->)%local_inspect_Some.
  symmetry in Hk. by apply json_name_of_key in Hk.
Qed.

(** Every listed key is the [privateKey] field of a record whose file
    name, less [.json], is that same key. *)
Lemma local_scan_origin p cutoff key :
  key ∈ Local.scan p cutoff (readdir (Local.metadataFolder p)) [] →
  ∃ f m, disk_read (Local.metadataFolder p) f ≫= JSON_parse = Some m ∧
         Js.endsWith f ".json" = true ∧
         Js.replace ".json" "" f = key ∧ privateKey m = key ∧
         referenceDate m < cutoff.
Proof.
  rewrite local_scan_omap, app_nil_l, list_elem_of_omap.
  intros (f & _ & (Hend & m & Hm & Hk & Hlt & ->)%local_inspect_Some).
  exists f, m. eauto 10.
Qed.

End LocalScan.

(** ** The cloud provider: put, get, delete *)

Section CloudProvider.
Context `{Json}.

Lemma string_app_empty a h : a +:+ h = "" → h = "".
Proof. destruct a; [by rewrite string_app_nil_l | by rewrite string_app_cons]. Qed.

Lemma gcs_file_path_truthy p key other :
  is_key key →
  Js.or_string (Some (GCS._getFilePath p key)) other = GCS._getFilePath p key.
Proof.
  intros [_ Hne]. unfold Js.or_string. case_decide as Hempty; [|done].
  by apply string_app_empty in Hempty.
Qed.

Lemma gcs_file_path_ne_metadata_path p key key' :
  is_key key → GCS._getFilePath p key ≠ GCS._getMetadataPath p key'.
Proof. intros. by apply content_name_ne_metadata_name. Qed.

Lemma gcs_download_not_found p b now key :
  GCS.bucket p = Some b →
  entries b !! GCS._getMetadataPath p key = None →
  GCS.downloadFile p now key = (Err FileNotFound, p).
Proof.
  intros Hb Hnone. unfold GCS.downloadFile.
  by rewrite Hb, disk_exists_false.
Qed.

(** What a completed upload has done. *)
Lemma gcs_upload_ok p b src now buf name mime pub priv p' :
  GCS.bucket p = Some b →
  GCS.uploadFile p src now buf name mime = (Ok (pub, priv), p') →
  let path := GCS._getFilePath p pub in
  let m := Metadata pub priv name mime now None (length buf) (Some path) in
  (pub, priv) = _generateKeys src ∧
  (GCS._getMetadataPath p pub ∉ rejecting b) ∧
  (GCS._getMetadataPath p priv ∉ rejecting b) ∧
  (path ∉ rejecting b) ∧
  p' = GCS.with_bucket p
         (Disk (<[GCS._getMetadataPath p priv := JSON_stringify m]>
                  (<[GCS._getMetadataPath p pub := JSON_stringify m]>
                     (<[path := buf]> (entries b))))
               (rejecting b)).
Proof.
  intros Hb. unfold GCS.uploadFile. rewrite Hb.
  destruct (_generateKeys src) as [pub0 priv0].
  destruct (disk_write b _ _) as [b1|] eqn:H1; [|done].
  destruct (disk_write b1 _ _) as [b2|] eqn:H2; [|done].
  destruct (disk_write b2 _ _) as [b3|] eqn:H3; [|done].
  intros [= -> -> <-].
  apply disk_write_Some in H1 as [? ->].
  apply disk_write_Some in H2 as [? ->].
  apply disk_write_Some in H3 as [? ->]. done.
Qed.

Lemma gcs_upload_records p b src now buf name mime pub priv p' :
  GCS.bucket p = Some b →
  GCS.uploadFile p src now buf name mime = (Ok (pub, priv), p') →
  let path := GCS._getFilePath p pub in
  let m := Metadata pub priv name mime now None (length buf) (Some path) in
  ∃ b', GCS.bucket p' = Some b' ∧ rejecting b' = rejecting b ∧
        is_key pub ∧
        disk_read b' (GCS._getMetadataPath p pub) = Some (JSON_stringify m) ∧
        disk_read b' (GCS._getMetadataPath p priv) = Some (JSON_stringify m) ∧
        disk_read b' path = Some buf.
Proof.
  intros Hb Hup path m.
  apply (gcs_upload_ok _ _ _ _ _ _ _ _ _ _ Hb) in Hup as (Hkeys & _ & _ & _ & ->).
  assert (is_key pub) as Hpub.
  { pose proof (generateKeys_is_key src) as [Hk _]. by rewrite <- Hkeys in Hk. }
  eexists. split; [done|]. split; [done|]. split; [done|].
  unfold disk_read. cbn. split_and!.
  - rewrite lookup_insert. case_decide; [done|]. by rewrite lookup_insert_eq.
  - by rewrite lookup_insert_eq.
  - rewrite !lookup_insert_ne by (by apply not_eq_sym, gcs_file_path_ne_metadata_path).
    by rewrite lookup_insert_eq.
Qed.

Lemma gcs_download_after_upload p b src now buf name mime pub priv p1 now' :
  GCS.bucket p = Some b →
  GCS.uploadFile p src now buf name mime = (Ok (pub, priv), p1) →
  ∃ p2, GCS.downloadFile p1 now' pub = (Ok (buf, mime, name), p2).
Proof.
  intros Hb Hup.
  destruct (gcs_upload_records _ _ _ _ _ _ _ _ _ _ Hb Hup)
    as (b' & Hb' & Hrej & Hkey & Hpub & Hpriv & Hbuf).
  apply (gcs_upload_ok _ _ _ _ _ _ _ _ _ _ Hb) in Hup as (_ & Hr1 & Hr2 & _ & Hp1).
  unfold GCS.downloadFile. rewrite Hb'.
  assert (∀ k, GCS._getMetadataPath p1 k = GCS._getMetadataPath p k) as Hmp
    by (by subst p1).
  rewrite !Hmp. rewrite (disk_exists_true _ _ _ Hpub). cbn [negb].
  rewrite Hpub, JSON_parse_stringify. cbn [touch filePath privateKey].
  rewrite gcs_file_path_truthy by done. rewrite Hbuf.
  rewrite Hmp.
  rewrite disk_write_accepted by (by rewrite Hrej).
  rewrite disk_write_accepted by (by cbn; rewrite Hrej).
  by eexists.
Qed.

Lemma gcs_download_touches p b src now buf name mime pub priv p1 now' :
  GCS.bucket p = Some b →
  GCS.uploadFile p src now buf name mime = (Ok (pub, priv), p1) →
  ∃ p2 b2, GCS.downloadFile p1 now' pub = (Ok (buf, mime, name), p2) ∧
           GCS.bucket p2 = Some b2 ∧
           disk_read b2 (GCS._getMetadataPath p priv)
           = Some (JSON_stringify
                     (touch (Metadata pub priv name mime now None (length buf)
                               (Some (GCS._getFilePath p pub))) now')).
Proof.
  intros Hb Hup.
  destruct (gcs_upload_records _ _ _ _ _ _ _ _ _ _ Hb Hup)
    as (b' & Hb' & Hrej & Hkey & Hpub & Hpriv & Hbuf).
  apply (gcs_upload_ok _ _ _ _ _ _ _ _ _ _ Hb) in Hup as (_ & Hr1 & Hr2 & _ & Hp1).
  unfold GCS.downloadFile. rewrite Hb'.
  assert (∀ k, GCS._getMetadataPath p1 k = GCS._getMetadataPath p k) as Hmp
    by (by subst p1).
  rewrite !Hmp. rewrite (disk_exists_true _ _ _ Hpub). cbn [negb].
  rewrite Hpub, JSON_parse_stringify. cbn [touch filePath privateKey].
  rewrite gcs_file_path_truthy by done. rewrite Hbuf.
  rewrite Hmp.
  rewrite disk_write_accepted by (by rewrite Hrej).
  rewrite disk_write_accepted by (by cbn; rewrite Hrej).
  eexists _, _. split; [done|]. split; [done|].
  unfold disk_read. cbn. by rewrite lookup_insert_eq.
Qed.

(** Reading under the private key succeeds: the record found there names
    the content object in its [filePath] field. *)
Lemma gcs_download_by_private_key p b src now buf name mime pub priv p1 now' :
  GCS.bucket p = Some b →
  GCS.uploadFile p src now buf name mime = (Ok (pub, priv), p1) →
  ∃ p2, GCS.downloadFile p1 now' priv = (Ok (buf, mime, name), p2).
Proof.
  intros Hb Hup.
  destruct (gcs_upload_records _ _ _ _ _ _ _ _ _ _ Hb Hup)
    as (b' & Hb' & Hrej & Hkey & Hpub & Hpriv & Hbuf).
  apply (gcs_upload_ok _ _ _ _ _ _ _ _ _ _ Hb) in Hup as (_ & Hr1 & Hr2 & _ & Hp1).
  unfold GCS.downloadFile. rewrite Hb'.
  assert (∀ k, GCS._getMetadataPath p1 k = GCS._getMetadataPath p k) as Hmp
    by (by subst p1).
  rewrite !Hmp. rewrite (disk_exists_true _ _ _ Hpriv). cbn [negb].
  rewrite Hpriv, JSON_parse_stringify. cbn [touch filePath privateKey].
  rewrite gcs_file_path_truthy by done. rewrite Hbuf, Hmp.
  rewrite disk_write_accepted by (by rewrite Hrej).
  rewrite disk_write_accepted by (by cbn; rewrite Hrej).
  by eexists.
Qed.

Lemma gcs_delete_by_public_key p b src now buf name mime pub priv p1 now' :
  GCS.bucket p = Some b →
  GCS.uploadFile p src now buf name mime = (Ok (pub, priv), p1) →
  ∃ p2 b2, GCS.deleteFile p1 pub = (Ok true, p2) ∧
           GCS.bucket p2 = Some b2 ∧
           disk_read b2 (GCS._getFilePath p pub) = None ∧
           GCS.downloadFile p2 now' pub = (Err FileNotFound, p2).
Proof.
  intros Hb Hup.
  destruct (gcs_upload_records _ _ _ _ _ _ _ _ _ _ Hb Hup)
    as (b' & Hb' & Hrej & Hkey & Hpub & Hpriv & Hbuf).
  apply (gcs_upload_ok _ _ _ _ _ _ _ _ _ _ Hb) in Hup as (_ & Hr1 & Hr2 & Hr3 & Hp1).
  unfold GCS.deleteFile. rewrite Hb'.
  assert (∀ k, GCS._getMetadataPath p1 k = GCS._getMetadataPath p k) as Hmp
    by (by subst p1).
  assert (∀ k, GCS._getFilePath p1 k = GCS._getFilePath p k) as Hfp
    by (by subst p1).
  rewrite !Hmp. rewrite (disk_exists_true _ _ _ Hpub). cbn [negb].
  rewrite Hpub. cbn. rewrite JSON_parse_stringify. cbn [filePath publicKey].
  rewrite gcs_file_path_truthy by done. rewrite Hmp.
  eexists _, _. split; [done|]. split; [done|]. split.
  - unfold disk_read. do 2 apply try_unlink_absent.
    apply try_unlink_gone. by rewrite Hrej.
  - eapply gcs_download_not_found; [done|].
    unfold GCS._getMetadataPath at 1. cbn [GCS.with_bucket GCS.metadataPrefix].
    fold (GCS._getMetadataPath p1 pub). rewrite Hmp.
    apply try_unlink_absent, try_unlink_gone.
    by rewrite try_unlink_rejecting, Hrej.
Qed.

(** A failed upload keeps every write that preceded the failing one. *)
Lemma gcs_upload_failure p b src now buf name mime :
  GCS.bucket p = Some b →
  let pub := (_generateKeys src).1 in
  let priv := (_generateKeys src).2 in
  let path := GCS._getFilePath p pub in
  let m := Metadata pub priv name mime now None (length buf) (Some path) in
  let b1 := Disk (<[path := buf]> (entries b)) (rejecting b) in
  let b2 := Disk (<[GCS._getMetadataPath p pub := JSON_stringify m]> (entries b1))
                 (rejecting b) in
  (path ∈ rejecting b →
     GCS.uploadFile p src now buf name mime = (Err IOError, p)) ∧
  (path ∉ rejecting b →
   GCS._getMetadataPath p pub ∈ rejecting b →
     GCS.uploadFile p src now buf name mime = (Err IOError, GCS.with_bucket p b1)) ∧
  (path ∉ rejecting b →
   GCS._getMetadataPath p pub ∉ rejecting b →
   GCS._getMetadataPath p priv ∈ rejecting b →
     GCS.uploadFile p src now buf name mime = (Err IOError, GCS.with_bucket p b2)).
Proof.
  intros Hb pub priv path m b1 b2.
  unfold GCS.uploadFile. rewrite Hb.
  subst pub priv path m b1 b2.
  destruct (_generateKeys src) as [pub priv]. cbn [fst snd].
  unfold disk_write. cbn. split_and!; intros; repeat case_decide; done.
Qed.

Lemma gcs_delete_absent p b key :
  GCS.bucket p = Some b →
  disk_read b (GCS._getMetadataPath p key) ≫= JSON_parse = None →
  GCS.deleteFile p key = (Ok false, p).
Proof.
  intros Hb Hnone. unfold GCS.deleteFile. rewrite Hb, Hnone.
  by destruct (negb _).
Qed.

Lemma gcs_delete_twice p b key m :
  GCS.bucket p = Some b →
  disk_read b (GCS._getMetadataPath p key) ≫= JSON_parse = Some m →
  GCS._getMetadataPath p key ∉ rejecting b →
  ∃ p1, GCS.deleteFile p key = (Ok true, p1) ∧
        GCS.deleteFile p1 key = (Ok false, p1).
Proof.
  intros Hb Hm Hr. unfold GCS.deleteFile at 1. rewrite Hb, Hm.
  rewrite disk_exists_true with (data := default [] (disk_read b (GCS._getMetadataPath p key))).
  2:{ unfold disk_read in *. by destruct (entries b !! _). }
  cbn [negb]. eexists. split; [done|].
  eapply gcs_delete_absent; [done|].
  unfold disk_read. cbn.
  change (GCS.metadataPrefix p +:+ key +:+ ".json") with (GCS._getMetadataPath p key).
  rewrite try_unlink_gone; [done|]. by rewrite !try_unlink_rejecting.
Qed.

End CloudProvider.

Section CloudScan.
Context `{Json}.

Lemma gcs_scan_omap p b cutoff names acc :
  GCS.scan p b cutoff names acc = acc ++ omap (GCS.inspect p b cutoff) names.
Proof.
  revert acc. induction names as [|f names IH]; intros acc; cbn.
  - by rewrite app_nil_r.
  - rewrite IH. destruct (GCS.inspect p b cutoff f); [|done].
    by rewrite <- app_assoc.
Qed.

Lemma gcs_inspect_Some p b cutoff name k :
  GCS.inspect p b cutoff name = Some k ↔
  ∃ m, disk_read b name ≫= JSON_parse = Some m ∧
       privateKey m = Js.replace ".json" "" (Js.replace (GCS.metadataPrefix p) "" name) ∧
       referenceDate m < cutoff ∧ k = privateKey m.
Proof.
  unfold GCS.inspect.
  destruct (disk_read b name ≫= JSON_parse) as [m|];
    [|split; [done | by intros (? & ? & _)]].
  case_decide as Hk; [|split; [done | by intros (? & [= <-] & ? & _)]].
  case_bool_decide as Hlt.
  - split; [intros [= <-]; eauto 10 | by intros (? & [= <-] & _ & _ & ->)].
  - split; [done | by intros (? & [= <-] & _ & ? & _)].
Qed.

Lemma gcs_key_of_metadata_path p key :
  Js.all_chars is_hex_char key = true →
  Js.replace ".json" "" (Js.replace (GCS.metadataPrefix p) "" (GCS._getMetadataPath p key))
  = key.
Proof.
  intros Hhex. unfold GCS._getMetadataPath.
  by rewrite replace_prefix, replace_key_json.
Qed.

(** A record name that yields the key [key] is the name the provider
    gives to the record of [key]. *)
Lemma gcs_metadata_path_of_key p key' key :
  Js.all_chars is_hex_char key = true →
  Js.replace ".json" "" (Js.replace (GCS.metadataPrefix p) "" (GCS._getMetadataPath p key'))
  = key →
  GCS._getMetadataPath p key' = GCS._getMetadataPath p key.
Proof.
  intros Hhex. unfold GCS._getMetadataPath. rewrite replace_prefix.
  intros Hk%json_name_of_key; [by rewrite Hk | apply endsWith_app | done].
Qed.

Lemma gcs_listed p b key :
  is_Some (entries b !! GCS._getMetadataPath p key) →
  GCS._getMetadataPath p key ∈ GCS.getFiles b (GCS.metadataPrefix p).
Proof.
  intros Hin. unfold GCS.getFiles. apply list_elem_of_filter. split.
  - apply prefix_app.
  - by apply elem_of_readdir.
Qed.

Lemma gcs_scan_member p b cutoff key :
  GCS.only_records_below_prefix p b →
  is_key key →
  key ∈ GCS.scan p b cutoff (GCS.getFiles b (GCS.metadataPrefix p)) [] ↔
  ∃ m, disk_read b (GCS._getMetadataPath p key) ≫= JSON_parse = Some m ∧
       privateKey m = key ∧ referenceDate m < cutoff.
Proof.
  intros Hwf [Hhex _]. rewrite gcs_scan_omap, app_nil_l, list_elem_of_omap. split.
  - intros (f & Hf & (m & Hm & Hk & Hlt & ->)%gcs_inspect_Some).
    destruct (Hwf f Hf) as [key' ->]. symmetry in Hk.
    apply gcs_metadata_path_of_key in Hk; [|done]. rewrite Hk in Hm. eauto.
  - intros (m & Hm & Hk & Hlt). exists (GCS._getMetadataPath p key). split.
    + apply gcs_listed. unfold disk_read in Hm.
      destruct (entries _ !! _); [by eexists | done].
    + apply gcs_inspect_Some. exists m. by rewrite gcs_key_of_metadata_path.
Qed.

Lemma gcs_scan_at_most_once p b cutoff key :
  GCS.only_records_below_prefix p b →
  is_key key →
  (length (filter (λ k, k = key)
     (GCS.scan p b cutoff (GCS.getFiles b (GCS.metadataPrefix p)) [])) ≤ 1)%nat.
Proof.
  intros Hwf [Hhex _]. rewrite gcs_scan_omap, app_nil_l.
  apply (omap_at_most_once _ _ _ (GCS._getMetadataPath p key)).
  { apply NoDup_filter, NoDup_readdir. }
  intros f Hf (m & Hm & Hk & Hlt & ->)%gcs_inspect_Some.
  destruct (Hwf f Hf) as [key' ->]. symmetry in Hk.
  by apply gcs_metadata_path_of_key in Hk.
Qed.

Lemma gcs_scan_origin p b cutoff key :
  key ∈ GCS.scan p b cutoff (GCS.getFiles b (GCS.metadataPrefix p)) [] →
  ∃ name m, disk_read b name ≫= JSON_parse = Some m ∧
            Js.replace ".json" "" (Js.replace (GCS.metadataPrefix p) "" name) = key ∧
            privateKey m = key ∧
            referenceDate m < cutoff.
Proof.
  rewrite gcs_scan_omap, app_nil_l, list_elem_of_omap.
  intros (f & _ & (m & Hm & Hk & Hlt & ->)%gcs_inspect_Some).
  exists f, m. eauto 10.
Qed.

End CloudScan.

Section CloudNames.
Context `{Json}.

Lemma gcs_only_records_empty p rej : GCS.only_records_below_prefix p (Disk ∅ rej).
Proof.
  intros name [_ Hin%elem_of_readdir]%list_elem_of_filter.
  cbn in Hin. rewrite lookup_empty in Hin. by destruct Hin.
Qed.

Lemma gcs_only_records_insert p b name data :
  GCS.only_records_below_prefix p b →
  (String.prefix (GCS.metadataPrefix p) name = false ∨
   ∃ key, name = GCS._getMetadataPath p key) →
  GCS.only_records_below_prefix p
    (Disk (<[name := data]> (entries b)) (rejecting b)).
Proof.
  intros Hwf Hname name' [Hpre Hin%elem_of_readdir]%list_elem_of_filter.
  cbn in Hin. rewrite lookup_insert in Hin. case_decide as Heq.
  - subst name'. destruct Hname as [Hno|Hkey]; [congruence | done].
  - apply Hwf, list_elem_of_filter. split; [done|]. by apply elem_of_readdir.
Qed.

(** An upload keeps the bucket well named when content objects are not
    placed below the metadata prefix. *)
Lemma gcs_upload_keeps_names p b src now buf name mime pub priv p1 :
  GCS.bucket p = Some b →
  GCS.only_records_below_prefix p b →
  String.prefix (GCS.metadataPrefix p) (GCS._getFilePath p pub) = false →
  GCS.uploadFile p src now buf name mime = (Ok (pub, priv), p1) →
  ∃ b1, GCS.bucket p1 = Some b1 ∧ GCS.only_records_below_prefix p1 b1.
Proof.
  intros Hb Hwf Hpre Hup.
  apply (gcs_upload_ok _ _ _ _ _ _ _ _ _ _ Hb) in Hup as (_ & _ & _ & _ & ->).
  eexists. split; [done|].
  apply (gcs_only_records_insert p (Disk _ (rejecting b))); [|eauto].
  apply (gcs_only_records_insert p (Disk _ (rejecting b))); [|eauto].
  apply gcs_only_records_insert; [done | by left].
Qed.

(** A read writes nothing but records. *)
Lemma gcs_download_keeps_names p b now key r p2 :
  GCS.bucket p = Some b →
  GCS.only_records_below_prefix p b →
  GCS.downloadFile p now key = (r, p2) →
  ∃ b2, GCS.bucket p2 = Some b2 ∧ GCS.only_records_below_prefix p2 b2.
Proof.
  intros Hb Hwf. unfold GCS.downloadFile. rewrite Hb.
  destruct (negb _); [intros [= <- <-]; by eauto|].
  destruct (disk_read b _) as [content|]; [|intros [= <- <-]; by eauto].
  destruct (JSON_parse content) as [m|]; [|intros [= <- <-]; by eauto].
  destruct (disk_read b _) as [buf|]; [|intros [= <- <-]; by eauto].
  destruct (disk_write b _ _) as [b1|] eqn:H1; [|intros [= <- <-]; by eauto].
  apply disk_write_Some in H1 as [_ ->].
  assert (GCS.only_records_below_prefix p
            (Disk (<[GCS._getMetadataPath p key :=
                       JSON_stringify (touch m now)]> (entries b)) (rejecting b)))
    as Hwf1 by (apply gcs_only_records_insert; eauto).
  destruct (disk_write _ _ _) as [b2|] eqn:H2; intros [= <- <-].
  - apply disk_write_Some in H2 as [_ ->]. eexists. split; [done|].
    apply (gcs_only_records_insert p (Disk _ (rejecting b))); eauto.
  - eexists. split; [done|]. done.
Qed.

End CloudNames.

(** ** Stored objects and the scan *)

Section StoredObjects.
Context `{Json}.

Lemma upload_private_key_is_key src pub priv :
  (pub, priv) = _generateKeys src → is_key priv.
Proof.
  intros Hkeys. pose proof (generateKeys_is_key src) as [_ Hk].
  by rewrite <- Hkeys in Hk.
Qed.

(** A freshly stored object is listed exactly when it was created before
    the cutoff. *)
Lemma local_scan_after_upload p src now buf name mime pub priv p1 cutoff :
  Local.uploadFile p src now buf name mime = (Ok (pub, priv), p1) →
  priv ∈ Local.scan p1 cutoff (readdir (Local.metadataFolder p1)) [] ↔ now < cutoff.
Proof.
  intros Hup.
  destruct (local_upload_records _ _ _ _ _ _ _ _ _ Hup) as (_ & Hpriv & _).
  apply local_upload_ok in Hup as (Hkeys & _).
  rewrite local_scan_member by (by eapply upload_private_key_is_key).
  rewrite Hpriv. cbn. rewrite JSON_parse_stringify. split.
  - by intros (m & [= <-] & _ & Hlt).
  - intros Hlt. by eexists.
Qed.

(** Once read, it is listed exactly when the read was before the cutoff. *)
Lemma local_scan_after_download p src now buf name mime pub priv p1 now' r p2 cutoff :
  Local.uploadFile p src now buf name mime = (Ok (pub, priv), p1) →
  Local.downloadFile p1 now' pub = (Ok r, p2) →
  priv ∈ Local.scan p2 cutoff (readdir (Local.metadataFolder p2)) [] ↔ now' < cutoff.
Proof.
  intros Hup Hdown.
  destruct (local_download_touches _ _ _ _ _ _ _ _ _ now' Hup) as (p2' & Hdown' & Hpriv).
  rewrite Hdown in Hdown'. injection Hdown' as _ <-.
  apply local_upload_ok in Hup as (Hkeys & _).
  rewrite local_scan_member by (by eapply upload_private_key_is_key).
  rewrite Hpriv. cbn. rewrite JSON_parse_stringify. split.
  - by intros (m & [= <-] & _ & Hlt).
  - intros Hlt. by eexists.
Qed.

Lemma gcs_scan_after_upload p b src now buf name mime pub priv p1 b1 cutoff :
  GCS.bucket p = Some b →
  GCS.uploadFile p src now buf name mime = (Ok (pub, priv), p1) →
  GCS.bucket p1 = Some b1 →
  GCS.only_records_below_prefix p1 b1 →
  priv ∈ GCS.scan p1 b1 cutoff (GCS.getFiles b1 (GCS.metadataPrefix p1)) [] ↔ now < cutoff.
Proof.
  intros Hb Hup Hb1 Hwf.
  destruct (gcs_upload_records _ _ _ _ _ _ _ _ _ _ Hb Hup)
    as (b' & Hb' & _ & _ & _ & Hpriv & _).
  rewrite Hb1 in Hb'. injection Hb' as <-.
  apply (gcs_upload_ok _ _ _ _ _ _ _ _ _ _ Hb) in Hup as (Hkeys & _ & _ & _ & Hp1).
  assert (GCS._getMetadataPath p1 priv = GCS._getMetadataPath p priv) as Hmp
    by (by subst p1).
  rewrite gcs_scan_member by (done || by eapply upload_private_key_is_key).
  rewrite Hmp, Hpriv. cbn. rewrite JSON_parse_stringify. split.
  - by intros (m & [= <-] & _ & Hlt).
  - intros Hlt. by eexists.
Qed.

Lemma gcs_scan_after_download p b src now buf name mime pub priv p1 now' r p2 b2 cutoff :
  GCS.bucket p = Some b →
  GCS.uploadFile p src now buf name mime = (Ok (pub, priv), p1) →
  GCS.downloadFile p1 now' pub = (Ok r, p2) →
  GCS.bucket p2 = Some b2 →
  GCS.only_records_below_prefix p2 b2 →
  priv ∈ GCS.scan p2 b2 cutoff (GCS.getFiles b2 (GCS.metadataPrefix p2)) [] ↔ now' < cutoff.
Proof.
  intros Hb Hup Hdown Hb2 Hwf.
  destruct (gcs_download_touches _ _ _ _ _ _ _ _ _ _ now' Hb Hup)
    as (p2' & b2' & Hdown' & Hb2' & Hpriv).
  rewrite Hdown in Hdown'. injection Hdown' as _ <-.
  rewrite Hb2 in Hb2'. injection Hb2' as <-.
  assert (GCS.metadataPrefix p2 = GCS.metadataPrefix p) as Hpre.
  { unfold GCS.downloadFile in Hdown.
    apply (gcs_upload_ok _ _ _ _ _ _ _ _ _ _ Hb) in Hup as (_ & _ & _ & _ & ->).
    cbn in Hdown. repeat case_match; by simplify_eq. }
  apply (gcs_upload_ok _ _ _ _ _ _ _ _ _ _ Hb) in Hup as (Hkeys & _).
  assert (GCS._getMetadataPath p2 priv = GCS._getMetadataPath p priv) as Hmp
    by (unfold GCS._getMetadataPath; by rewrite Hpre).
  rewrite gcs_scan_member by (done || by eapply upload_private_key_is_key).
  rewrite Hmp, Hpriv. cbn. rewrite JSON_parse_stringify. split.
  - by intros (m & [= <-] & _ & Hlt).
  - intros Hlt. by eexists.
Qed.

Lemma upload_public_key_is_key src pub priv :
  (pub, priv) = _generateKeys src → is_key pub.
Proof.
  intros Hkeys. pose proof (generateKeys_is_key src) as [Hk _].
  by rewrite <- Hkeys in Hk.
Qed.

(** The public key of a freshly stored object is not listed, although the
    record is on disk under it. *)
Lemma local_scan_skips_public_key p src now buf name mime pub priv p1 cutoff :
  Local.uploadFile p src now buf name mime = (Ok (pub, priv), p1) →
  pub ≠ priv →
  pub ∉ Local.scan p1 cutoff (readdir (Local.metadataFolder p1)) [].
Proof.
  intros Hup Hne.
  destruct (local_upload_records _ _ _ _ _ _ _ _ _ Hup) as (Hpub & _ & _).
  apply local_upload_ok in Hup as (Hkeys & _).
  rewrite local_scan_member by (by eapply upload_public_key_is_key).
  rewrite Hpub. cbn. rewrite JSON_parse_stringify.
  by intros (m & [= <-] & Hpriv & _).
Qed.

Lemma gcs_scan_skips_public_key p b src now buf name mime pub priv p1 b1 cutoff :
  GCS.bucket p = Some b →
  GCS.uploadFile p src now buf name mime = (Ok (pub, priv), p1) →
  GCS.bucket p1 = Some b1 →
  GCS.only_records_below_prefix p1 b1 →
  pub ≠ priv →
  pub ∉ GCS.scan p1 b1 cutoff (GCS.getFiles b1 (GCS.metadataPrefix p1)) [].
Proof.
  intros Hb Hup Hb1 Hwf Hne.
  destruct (gcs_upload_records _ _ _ _ _ _ _ _ _ _ Hb Hup)
    as (b' & Hb' & _ & Hkey & Hpub & _ & _).
  rewrite Hb1 in Hb'. injection Hb' as <-.
  apply (gcs_upload_ok _ _ _ _ _ _ _ _ _ _ Hb) in Hup as (_ & _ & _ & _ & Hp1).
  assert (GCS._getMetadataPath p1 pub = GCS._getMetadataPath p pub) as Hmp
    by (by subst p1).
  rewrite gcs_scan_member by done.
  rewrite Hmp, Hpub. cbn. rewrite JSON_parse_stringify.
  by intros (m & [= <-] & Hpriv & _).
Qed.

End StoredObjects.

(** ** The cleanup cycle *)

Section Cleanup.
Context {St : Type}.
Implicit Types (sp : StorageProvider St) (s : St).

Lemma attempts_all sp files s : (attempts sp files s).1.*1 = files.
Proof.
  revert s. induction files as [|f files IH]; intros s; [done|]. cbn.
  destruct (deleteFile sp s f) as [r s'].
  specialize (IH s'). destruct (attempts sp files s') as [log s'']. cbn in *.
  by rewrite IH.
Qed.

Lemma delete_each_attempts sp files n s :
  CleanupJob.delete_each sp files n s =
    ((n + length (filter (λ e, deleted e = true) (attempts sp files s).1))%nat,
     (attempts sp files s).2).
Proof.
  revert n s. induction files as [|f files IH]; intros n s; cbn.
  - by rewrite Nat.add_0_r.
  - destruct (deleteFile sp s f) as [[[]|e] s'] eqn:Hdel;
      rewrite IH; destruct (attempts sp files s') as [log s'']; cbn;
      case_decide; try done; cbn; by rewrite Nat.add_succ_r.
Qed.

End Cleanup.

(** ** The traffic ledger *)

Section Ledger.
Import UsageLimiter.
Variables env_UPLOAD_LIMIT env_DOWNLOAD_LIMIT : option Z.
Implicit Types (store : gmap string usage) (req : request) (now : date).

Lemma getUsageRecord_key store ip now :
  (getUsageRecord store ip now).1 = getUsageKey ip now.
Proof. unfold getUsageRecord. by destruct (store !! _). Qed.

Lemma getUsageRecord_uploaded store ip now :
  default 0 (upload <$> (getUsageRecord store ip now).2 !! getUsageKey ip now)
  = bytes_uploaded store ip now.
Proof.
  unfold getUsageRecord, bytes_uploaded.
  destruct (store !! _) eqn:Hs; cbn; [by rewrite Hs|].
  by rewrite lookup_insert_eq.
Qed.

Lemma getUsageRecord_downloaded store ip now :
  default 0 (download <$> (getUsageRecord store ip now).2 !! getUsageKey ip now)
  = bytes_downloaded store ip now.
Proof.
  unfold getUsageRecord, bytes_downloaded.
  destruct (store !! _) eqn:Hs; cbn; [by rewrite Hs|].
  by rewrite lookup_insert_eq.
Qed.

Lemma getUsageRecord_present store ip now :
  is_Some ((getUsageRecord store ip now).2 !! getUsageKey ip now).
Proof.
  unfold getUsageRecord. destruct (store !! _) eqn:Hs; cbn.
  - by rewrite Hs.
  - by rewrite lookup_insert_eq.
Qed.

Lemma uploadLimiter_denies fw req res now store :
  (uploadLimiter env_UPLOAD_LIMIT fw req res now store).1 = TooManyRequests ↔
  UPLOAD_LIMIT env_UPLOAD_LIMIT ≤ bytes_uploaded store (client req) now.
Proof.
  unfold uploadLimiter.
  pose proof (getUsageRecord_key store (client req) now) as Hkey.
  pose proof (getUsageRecord_uploaded store (client req) now) as Hup.
  destruct (getUsageRecord store (client req) now) as [key store1].
  cbn in Hkey, Hup. subst key. rewrite Hup.
  case_bool_decide; cbn; split; (done || lia).
Qed.

Lemma downloadLimiter_denies fw req res now store :
  (downloadLimiter env_DOWNLOAD_LIMIT fw req res now store).1 = TooManyRequests ↔
  DOWNLOAD_LIMIT env_DOWNLOAD_LIMIT ≤ bytes_downloaded store (client req) now.
Proof.
  unfold downloadLimiter.
  pose proof (getUsageRecord_key store (client req) now) as Hkey.
  pose proof (getUsageRecord_downloaded store (client req) now) as Hup.
  destruct (getUsageRecord store (client req) now) as [key store1].
  cbn in Hkey, Hup. subst key. rewrite Hup.
  case_bool_decide; cbn; split; (done || lia).
Qed.

Lemma add_upload_uploaded store key n :
  is_Some (store !! key) →
  default 0 (upload <$> add_upload key n store !! key)
  = default 0 (upload <$> store !! key) + n.
Proof.
  intros [u Hu]. unfold add_upload. rewrite lookup_alter_eq, Hu. done.
Qed.

Lemma add_upload_present store key key' n :
  is_Some (store !! key) → is_Some (add_upload key' n store !! key).
Proof.
  intros [u Hu]. unfold add_upload. rewrite lookup_alter. case_decide.
  - subst. rewrite Hu. by eexists.
  - by eexists.
Qed.

(** What one completed upload adds to the uploader's record: the size of
    the file, once for the wrapper around [json] and once more for the
    wrapper around [send] when [json] hands over to [send]. *)
Lemma post_files_created {St} (sp : StorageProvider St) fw s src clock now req f
    store store' s' :
  post_files env_UPLOAD_LIMIT fw sp s src clock now req (Some f) store
    = (201%nat, store', s') →
  bytes_uploaded store' (client req) now =
    bytes_uploaded store (client req) now + size f + (if fw then size f else 0).
Proof.
  unfold post_files, uploadLimiter.
  pose proof (getUsageRecord_key store (client req) now) as Hkey.
  pose proof (getUsageRecord_uploaded store (client req) now) as Hup.
  pose proof (getUsageRecord_present store (client req) now) as Hin.
  destruct (getUsageRecord store (client req) now) as [key store1].
  cbn in Hkey, Hup, Hin. subst key.
  case_bool_decide; [done|]. cbn.
  destruct (uploadFile sp s src clock _ _ _) as [[keys|e] s1]; [|done].
  intros [= <- <-]. unfold bytes_uploaded, uploadSize. cbn.
  destruct fw; cbn.
  - rewrite !add_upload_uploaded by eauto using add_upload_present.
    rewrite Hup. unfold bytes_uploaded. lia.
  - rewrite !add_upload_uploaded by eauto using add_upload_present.
    rewrite Hup. unfold bytes_uploaded. lia.
Qed.

End Ledger.

(** * The claims *)

Lemma demo_keys_distinct : demo_pub ≠ demo_priv.
Proof. by vm_compute. Qed.

Lemma demo_keys_are_keys : is_key demo_pub ∧ is_key demo_priv.
Proof. apply generateKeys_is_key. Qed.

Lemma local_stored_eq :
  Local.uploadFile (H := Codec.codec) local_empty demo_entropy 1000
    demo_content "hi.txt" "text/plain" = (Ok (demo_pub, demo_priv), local_stored).
Proof. reflexivity. Qed.

Lemma gcs_stored_eq :
  GCS.uploadFile (H := Codec.codec) gcs_empty demo_entropy 1000
    demo_content "hi.txt" "text/plain" = (Ok (demo_pub, demo_priv), gcs_stored).
Proof. reflexivity. Qed.

(** ** Access by key *)

(** C1. The claim is that [delete] called with the public key of a stored
    object leaves the object in place. In both providers the metadata
    record is stored under the public key as well, [deleteFile] finds it
    there and goes on: it answers [true], the content is gone and [get]
    under the public key then fails with "File not found". *)
Theorem delete_with_public_key_removes_object `{Json} :
  (∀ p src now buf name mime pub priv p1 now',
     Local.uploadFile p src now buf name mime = (Ok (pub, priv), p1) →
     ∃ p2, Local.deleteFile p1 pub = (Ok true, p2) ∧
           disk_read (Local.filesFolder p2) pub = None ∧
           Local.downloadFile p2 now' pub = (Err FileNotFound, p2)) ∧
  (∀ p b src now buf name mime pub priv p1 now',
     GCS.bucket p = Some b →
     GCS.uploadFile p src now buf name mime = (Ok (pub, priv), p1) →
     ∃ p2 b2, GCS.deleteFile p1 pub = (Ok true, p2) ∧
              GCS.bucket p2 = Some b2 ∧
              disk_read b2 (GCS._getFilePath p pub) = None ∧
              GCS.downloadFile p2 now' pub = (Err FileNotFound, p2)).
Proof.
  split.
  - intros. by eapply local_delete_by_public_key.
  - intros. by eapply gcs_delete_by_public_key.
Qed.

Lemma delete_with_public_key_removes_object_witness :
  demo_pub ≠ demo_priv ∧
  (∃ p2, Local.deleteFile (H := Codec.codec) local_stored demo_pub = (Ok true, p2) ∧
         disk_read (Local.filesFolder p2) demo_pub = None ∧
         Local.downloadFile (H := Codec.codec) p2 2000 demo_pub = (Err FileNotFound, p2)) ∧
  (∃ p2 b2, GCS.deleteFile (H := Codec.codec) gcs_stored demo_pub = (Ok true, p2) ∧
            GCS.bucket p2 = Some b2 ∧
            disk_read b2 (GCS._getFilePath gcs_empty demo_pub) = None ∧
            GCS.downloadFile (H := Codec.codec) p2 2000 demo_pub = (Err FileNotFound, p2)).
Proof.
  split; [by vm_compute|]. split.
  - apply (proj1 (delete_with_public_key_removes_object (H := Codec.codec))
             local_empty demo_entropy 1000 demo_content "hi.txt" "text/plain"
             demo_pub demo_priv local_stored 2000).
    reflexivity.
  - apply (proj2 (delete_with_public_key_removes_object (H := Codec.codec))
             gcs_empty (Disk ∅ ∅) demo_entropy 1000 demo_content "hi.txt" "text/plain"
             demo_pub demo_priv gcs_stored 2000); reflexivity.
Defined.

(** The record under the private key survives the deletion under the
    public key. *)
Example record_left_behind_by_delete_with_public_key :
  let after := (Local.deleteFile (H := Codec.codec) local_stored demo_pub).2 in
  Local.getFileMetadata (H := Codec.codec) after demo_pub = Err MetadataNotFound ∧
  Local.getFileMetadata (H := Codec.codec) after demo_priv = Ok (None, 1000).
Proof. vm_compute. split; reflexivity. Qed.

(** C3. The claim is that [get] called with the private key of a stored
    object does not return the content. The cloud provider reads the
    content through the [filePath] field of the record it finds under the
    supplied key, and the record under the private key carries that field:
    the content, MIME type and name come back. *)
Theorem cloud_download_with_private_key_returns_content `{Json}
    p b src now buf name mime pub priv p1 now' :
  GCS.bucket p = Some b →
  GCS.uploadFile p src now buf name mime = (Ok (pub, priv), p1) →
  ∃ p2, GCS.downloadFile p1 now' priv = (Ok (buf, mime, name), p2).
Proof. apply gcs_download_by_private_key. Qed.

Lemma cloud_download_with_private_key_returns_content_witness :
  demo_pub ≠ demo_priv ∧
  ∃ p2, GCS.downloadFile (H := Codec.codec) gcs_stored 2000 demo_priv
        = (Ok (demo_content, "text/plain", "hi.txt"), p2).
Proof.
  split; [by vm_compute|].
  apply (cloud_download_with_private_key_returns_content (H := Codec.codec)
           gcs_empty (Disk ∅ ∅) demo_entropy 1000 demo_content "hi.txt" "text/plain"
           demo_pub demo_priv gcs_stored 2000); reflexivity.
Defined.

(** The local provider, on the same request, looks for the content under
    the supplied key and fails. *)
Lemma local_download_with_private_key_fails :
  Local.downloadFile (H := Codec.codec) local_stored 2000 demo_priv
  = (Err IOError, local_stored).
Proof.
  apply (local_download_by_private_key (H := Codec.codec)
           local_empty demo_entropy 1000 demo_content "hi.txt" "text/plain" demo_pub);
    [reflexivity | by vm_compute | reflexivity].
Qed.

(** ** Failed uploads *)

(** C2, as amended. When a write of [put] is rejected, [put] fails, and
    every write made before the rejected one stays: the content when the
    record under the public key is rejected, the content and that record
    when the record under the private key is rejected. *)
Theorem failed_upload_keeps_earlier_writes `{Json} :
  (∀ p src now buf name mime,
     let pub := (_generateKeys src).1 in
     let priv := (_generateKeys src).2 in
     let m := Metadata pub priv name mime now None (length buf) None in
     let files1 := Disk (<[pub := buf]> (entries (Local.filesFolder p)))
                        (rejecting (Local.filesFolder p)) in
     let meta1 := Disk (<[pub +:+ ".json" := JSON_stringify m]>
                          (entries (Local.metadataFolder p)))
                       (rejecting (Local.metadataFolder p)) in
     (pub ∈ rejecting (Local.filesFolder p) →
        Local.uploadFile p src now buf name mime = (Err IOError, p)) ∧
     (pub ∉ rejecting (Local.filesFolder p) →
      (pub +:+ ".json") ∈ rejecting (Local.metadataFolder p) →
        Local.uploadFile p src now buf name mime =
          (Err IOError, Local.Provider files1 (Local.metadataFolder p))) ∧
     (pub ∉ rejecting (Local.filesFolder p) →
      (pub +:+ ".json") ∉ rejecting (Local.metadataFolder p) →
      (priv +:+ ".json") ∈ rejecting (Local.metadataFolder p) →
        Local.uploadFile p src now buf name mime =
          (Err IOError, Local.Provider files1 meta1))) ∧
  (∀ p b src now buf name mime,
     GCS.bucket p = Some b →
     let pub := (_generateKeys src).1 in
     let priv := (_generateKeys src).2 in
     let path := GCS._getFilePath p pub in
     let m := Metadata pub priv name mime now None (length buf) (Some path) in
     let b1 := Disk (<[path := buf]> (entries b)) (rejecting b) in
     let b2 := Disk (<[GCS._getMetadataPath p pub := JSON_stringify m]> (entries b1))
                    (rejecting b) in
     (path ∈ rejecting b →
        GCS.uploadFile p src now buf name mime = (Err IOError, p)) ∧
     (path ∉ rejecting b →
      GCS._getMetadataPath p pub ∈ rejecting b →
        GCS.uploadFile p src now buf name mime = (Err IOError, GCS.with_bucket p b1)) ∧
     (path ∉ rejecting b →
      GCS._getMetadataPath p pub ∉ rejecting b →
      GCS._getMetadataPath p priv ∈ rejecting b →
        GCS.uploadFile p src now buf name mime = (Err IOError, GCS.with_bucket p b2))).
Proof.
  split.
  - intros. apply local_upload_failure.
  - intros. by apply gcs_upload_failure.
Qed.

Lemma failed_upload_keeps_earlier_writes_witness :
  Local.uploadFile (H := Codec.codec) local_rejecting demo_entropy 1000
    demo_content "hi.txt" "text/plain" = (Err IOError, local_half_stored) ∧
  GCS.uploadFile (H := Codec.codec) gcs_rejecting demo_entropy 1000
    demo_content "hi.txt" "text/plain" = (Err IOError, gcs_half_stored).
Proof.
  split.
  - apply (proj1 (failed_upload_keeps_earlier_writes (H := Codec.codec))
             local_rejecting demo_entropy 1000 demo_content "hi.txt" "text/plain").
    + by vm_compute.
    + by vm_compute.
    + by vm_compute.
  - apply (proj2 (failed_upload_keeps_earlier_writes (H := Codec.codec))
             gcs_rejecting _ demo_entropy 1000 demo_content "hi.txt" "text/plain"
             eq_refl).
    + by vm_compute.
    + by vm_compute.
    + by vm_compute.
Defined.

(** C2, as stated, fails: after the failed upload above the content is on
    disk under the public key and the provider answers a metadata query for
    it. *)
Lemma failed_upload_leaves_partial_state :
  Local.uploadFile (H := Codec.codec) local_rejecting demo_entropy 1000
    demo_content "hi.txt" "text/plain" = (Err IOError, local_half_stored) ∧
  disk_read (Local.filesFolder local_half_stored) demo_pub = Some demo_content ∧
  Local.getFileMetadata (H := Codec.codec) local_half_stored demo_pub
  = Ok (None, 1000).
Proof.
  split; [reflexivity|]. split; [reflexivity|].
  unfold Local.getFileMetadata, Local._getMetadataPath, disk_read. cbn.
  rewrite lookup_singleton_eq. cbn. by rewrite Codec.parse_stringify.
Qed.

(** ** Deleting twice *)

(** C5. After a completed [put], [delete] with the private key answers
    [true] and a second [delete] with the same key answers [false]. The
    same holds in any state of the store where a metadata record is found
    under the key and its removal is not rejected; where no record is
    found under the key, [delete] answers [false] and changes nothing. *)
Theorem delete_twice_true_then_false `{Json} :
  (∀ p src now buf name mime pub priv p1,
     Local.uploadFile p src now buf name mime = (Ok (pub, priv), p1) →
     ∃ p2, Local.deleteFile p1 priv = (Ok true, p2) ∧
           Local.deleteFile p2 priv = (Ok false, p2)) ∧
  (∀ p b src now buf name mime pub priv p1,
     GCS.bucket p = Some b →
     GCS.uploadFile p src now buf name mime = (Ok (pub, priv), p1) →
     ∃ p2, GCS.deleteFile p1 priv = (Ok true, p2) ∧
           GCS.deleteFile p2 priv = (Ok false, p2)) ∧
  (∀ p key m,
     disk_read (Local.metadataFolder p) (Local._getMetadataPath key) ≫= JSON_parse
       = Some m →
     Local._getMetadataPath key ∉ rejecting (Local.metadataFolder p) →
     ∃ p1, Local.deleteFile p key = (Ok true, p1) ∧
           Local.deleteFile p1 key = (Ok false, p1)) ∧
  (∀ p key,
     disk_read (Local.metadataFolder p) (Local._getMetadataPath key) ≫= JSON_parse
       = None →
     Local.deleteFile p key = (Ok false, p)) ∧
  (∀ p b key m,
     GCS.bucket p = Some b →
     disk_read b (GCS._getMetadataPath p key) ≫= JSON_parse = Some m →
     GCS._getMetadataPath p key ∉ rejecting b →
     ∃ p1, GCS.deleteFile p key = (Ok true, p1) ∧
           GCS.deleteFile p1 key = (Ok false, p1)) ∧
  (∀ p b key,
     GCS.bucket p = Some b →
     disk_read b (GCS._getMetadataPath p key) ≫= JSON_parse = None →
     GCS.deleteFile p key = (Ok false, p)).
Proof.
  split_and!.
  - intros p src now buf name mime pub priv p1 Hup.
    destruct (local_upload_records _ _ _ _ _ _ _ _ _ Hup) as (_ & Hpriv & _).
    apply local_upload_ok in Hup as (_ & _ & Hr & _ & Hp1).
    apply (local_delete_twice p1 priv
             (Metadata pub priv name mime now None (length buf) None)).
    + rewrite Hpriv. apply JSON_parse_stringify.
    + by subst p1.
  - intros p b src now buf name mime pub priv p1 Hb Hup.
    destruct (gcs_upload_records _ _ _ _ _ _ _ _ _ _ Hb Hup)
      as (b' & Hb' & Hrej & _ & _ & Hpriv & _).
    apply (gcs_upload_ok _ _ _ _ _ _ _ _ _ _ Hb) in Hup as (_ & _ & Hr & _ & Hp1).
    assert (∀ k, GCS._getMetadataPath p1 k = GCS._getMetadataPath p k) as Hmp
      by (by subst p1).
    apply (gcs_delete_twice p1 b' priv
             (Metadata pub priv name mime now None (length buf)
                (Some (GCS._getFilePath p pub))) Hb').
    + rewrite Hmp, Hpriv. apply JSON_parse_stringify.
    + by rewrite Hmp, Hrej.
  - apply local_delete_twice.
  - apply local_delete_absent.
  - apply gcs_delete_twice.
  - apply gcs_delete_absent.
Qed.

(** The records a completed upload leaves under the private key, read
    back through the concrete codec. *)
Lemma local_stored_record key :
  key = demo_pub ∨ key = demo_priv →
  disk_read (Local.metadataFolder local_stored) (key +:+ ".json")
    ≫= JSON_parse (Json := Codec.codec) = Some (demo_record None).
Proof.
  intros Hkey.
  destruct (local_upload_records (H := Codec.codec) _ _ _ _ _ _ _ _ _ local_stored_eq)
    as (Hpub & Hpriv & _).
  destruct Hkey as [-> | ->]; [rewrite Hpub | rewrite Hpriv]; cbn;
    apply Codec.parse_stringify.
Qed.

Lemma gcs_stored_bucket :
  ∃ b, GCS.bucket gcs_stored = Some b ∧ rejecting b = ∅ ∧
       GCS.only_records_below_prefix gcs_stored b ∧
       ∀ key, key = demo_pub ∨ key = demo_priv →
         disk_read b (GCS._getMetadataPath gcs_stored key)
           ≫= JSON_parse (Json := Codec.codec)
         = Some (demo_record (Some (GCS._getFilePath gcs_empty demo_pub))).
Proof.
  destruct (gcs_upload_records (H := Codec.codec) gcs_empty _ _ _ _ _ _ _ _ _
              eq_refl gcs_stored_eq) as (b & Hb & Hrej & _ & Hpub & Hpriv & _).
  destruct (gcs_upload_keeps_names (H := Codec.codec) gcs_empty _ _ _ _ _ _ _ _ _
              eq_refl (gcs_only_records_empty _ _) eq_refl gcs_stored_eq)
    as (b' & Hb' & Hwf).
  rewrite Hb in Hb'. injection Hb' as <-.
  exists b. split; [done|]. split; [done|]. split; [done|].
  intros key Hkey.
  change (GCS._getMetadataPath gcs_stored key) with (GCS._getMetadataPath gcs_empty key).
  destruct Hkey as [-> | ->]; [rewrite Hpub | rewrite Hpriv]; cbn;
    apply Codec.parse_stringify.
Qed.

Lemma delete_twice_true_then_false_witness :
  (∃ p2, Local.deleteFile (H := Codec.codec) local_stored demo_priv = (Ok true, p2) ∧
         Local.deleteFile (H := Codec.codec) p2 demo_priv = (Ok false, p2)) ∧
  (∃ p2, GCS.deleteFile (H := Codec.codec) gcs_stored demo_priv = (Ok true, p2) ∧
         GCS.deleteFile (H := Codec.codec) p2 demo_priv = (Ok false, p2)) ∧
  (∃ p1, Local.deleteFile (H := Codec.codec) local_half_stored demo_pub = (Ok true, p1) ∧
         Local.deleteFile (H := Codec.codec) p1 demo_pub = (Ok false, p1)) ∧
  Local.deleteFile (H := Codec.codec) local_empty demo_priv = (Ok false, local_empty) ∧
  (∃ p1, GCS.deleteFile (H := Codec.codec) gcs_half_stored demo_pub = (Ok true, p1) ∧
         GCS.deleteFile (H := Codec.codec) p1 demo_pub = (Ok false, p1)) ∧
  GCS.deleteFile (H := Codec.codec) gcs_empty demo_priv = (Ok false, gcs_empty).
Proof.
  pose proof (delete_twice_true_then_false (H := Codec.codec))
    as (Hlput & Hgput & Hl2 & Hl0 & Hg2 & Hg0).
  split_and!.
  - apply (Hlput local_empty demo_entropy 1000 demo_content "hi.txt" "text/plain"
             demo_pub demo_priv local_stored).
    reflexivity.
  - apply (Hgput gcs_empty (Disk ∅ ∅) demo_entropy 1000 demo_content "hi.txt"
             "text/plain" demo_pub demo_priv gcs_stored); reflexivity.
  - apply (Hl2 local_half_stored demo_pub (demo_record None)).
    + unfold disk_read, Local._getMetadataPath. cbn.
      rewrite lookup_singleton_eq. cbn. apply Codec.parse_stringify.
    + by vm_compute.
  - apply Hl0. reflexivity.
  - apply (Hg2 gcs_half_stored _ demo_pub
             (demo_record (Some (GCS._getFilePath gcs_empty demo_pub))) eq_refl).
    + unfold disk_read. cbn.
      change (GCS.metadataPrefix gcs_rejecting +:+ demo_pub +:+ ".json")
        with (GCS._getMetadataPath gcs_empty demo_pub).
      rewrite lookup_insert_eq. cbn. apply Codec.parse_stringify.
    + by vm_compute.
  - apply (Hg0 gcs_empty (Disk ∅ ∅)); reflexivity.
Defined.

(** ** Round trip *)

(** C6. The content handed to [put] comes back from [get] under the public
    key that [put] returned, with the stored MIME type and original name. *)
Theorem put_get_roundtrip `{Json} :
  (∀ p src now buf name mime pub priv p1 now',
     Local.uploadFile p src now buf name mime = (Ok (pub, priv), p1) →
     ∃ p2, Local.downloadFile p1 now' pub = (Ok (buf, mime, name), p2)) ∧
  (∀ p b src now buf name mime pub priv p1 now',
     GCS.bucket p = Some b →
     GCS.uploadFile p src now buf name mime = (Ok (pub, priv), p1) →
     ∃ p2, GCS.downloadFile p1 now' pub = (Ok (buf, mime, name), p2)).
Proof.
  split.
  - apply local_download_after_upload.
  - apply gcs_download_after_upload.
Qed.

Lemma put_get_roundtrip_witness :
  (∃ p2, Local.downloadFile (H := Codec.codec) local_stored 2000 demo_pub
         = (Ok (demo_content, "text/plain", "hi.txt"), p2)) ∧
  (∃ p2, GCS.downloadFile (H := Codec.codec) gcs_stored 2000 demo_pub
         = (Ok (demo_content, "text/plain", "hi.txt"), p2)).
Proof.
  split.
  - apply (proj1 (put_get_roundtrip (H := Codec.codec))
             local_empty demo_entropy 1000 demo_content "hi.txt" "text/plain"
             demo_pub demo_priv local_stored 2000).
    reflexivity.
  - apply (proj2 (put_get_roundtrip (H := Codec.codec))
             gcs_empty (Disk ∅ ∅) demo_entropy 1000 demo_content "hi.txt" "text/plain"
             demo_pub demo_priv gcs_stored 2000); reflexivity.
Defined.

(** ** Inactive objects *)

(** C7. A stored object is listed by the scan exactly when its reference
    timestamp ([lastAccessed] when set, otherwise [createdAt]) is strictly
    before the cutoff: after [put] at time [now] exactly when [now] is
    before the cutoff, after a [get] at time [now'] exactly when [now'] is,
    and in any state of the store, for the record found under its own
    private key, exactly when its reference timestamp is. In the bucket
    this needs the metadata prefix to hold nothing but the provider's
    records. *)
Theorem inactive_scan_exact `{Json} :
  (∀ p src now buf name mime pub priv p1 cutoff,
     Local.uploadFile p src now buf name mime = (Ok (pub, priv), p1) →
     ∃ l, Local.getInactiveFiles p1 cutoff = (Ok l, p1) ∧
          (priv ∈ l ↔ now < cutoff)) ∧
  (∀ p src now buf name mime pub priv p1 now' r p2 cutoff,
     Local.uploadFile p src now buf name mime = (Ok (pub, priv), p1) →
     Local.downloadFile p1 now' pub = (Ok r, p2) →
     ∃ l, Local.getInactiveFiles p2 cutoff = (Ok l, p2) ∧
          (priv ∈ l ↔ now' < cutoff)) ∧
  (∀ p cutoff m,
     is_key (privateKey m) →
     disk_read (Local.metadataFolder p) (Local._getMetadataPath (privateKey m))
       ≫= JSON_parse = Some m →
     ∃ l, Local.getInactiveFiles p cutoff = (Ok l, p) ∧
          (privateKey m ∈ l ↔ referenceDate m < cutoff)) ∧
  (∀ p b src now buf name mime pub priv p1 b1 cutoff,
     GCS.bucket p = Some b →
     GCS.uploadFile p src now buf name mime = (Ok (pub, priv), p1) →
     GCS.bucket p1 = Some b1 →
     GCS.only_records_below_prefix p1 b1 →
     ∃ l, GCS.getInactiveFiles p1 cutoff = (Ok l, p1) ∧
          (priv ∈ l ↔ now < cutoff)) ∧
  (∀ p b src now buf name mime pub priv p1 now' r p2 b2 cutoff,
     GCS.bucket p = Some b →
     GCS.uploadFile p src now buf name mime = (Ok (pub, priv), p1) →
     GCS.downloadFile p1 now' pub = (Ok r, p2) →
     GCS.bucket p2 = Some b2 →
     GCS.only_records_below_prefix p2 b2 →
     ∃ l, GCS.getInactiveFiles p2 cutoff = (Ok l, p2) ∧
          (priv ∈ l ↔ now' < cutoff)) ∧
  (∀ p b cutoff m,
     GCS.bucket p = Some b →
     GCS.only_records_below_prefix p b →
     is_key (privateKey m) →
     disk_read b (GCS._getMetadataPath p (privateKey m)) ≫= JSON_parse = Some m →
     ∃ l, GCS.getInactiveFiles p cutoff = (Ok l, p) ∧
          (privateKey m ∈ l ↔ referenceDate m < cutoff)).
Proof.
  split_and!.
  - intros. eexists. split; [done|]. by eapply local_scan_after_upload.
  - intros. eexists. split; [done|]. by eapply local_scan_after_download.
  - intros p cutoff m Hkey Hm. eexists. split; [done|].
    rewrite local_scan_member by done. split.
    + intros (m' & Hm' & _ & Hlt).
      unfold Local._getMetadataPath in Hm. congruence.
    + intros Hlt. by exists m.
  - intros p b src now buf name mime pub priv p1 b1 cutoff Hb Hup Hb1 Hwf.
    unfold GCS.getInactiveFiles. rewrite Hb1. eexists. split; [done|].
    exact (gcs_scan_after_upload p b src now buf name mime pub priv p1 b1 cutoff
             Hb Hup Hb1 Hwf).
  - intros p b src now buf name mime pub priv p1 now' r p2 b2 cutoff
      Hb Hup Hdown Hb2 Hwf.
    unfold GCS.getInactiveFiles. rewrite Hb2. eexists. split; [done|].
    exact (gcs_scan_after_download p b src now buf name mime pub priv p1 now' r p2 b2
             cutoff Hb Hup Hdown Hb2 Hwf).
  - intros p b cutoff m Hb Hwf Hkey Hm. unfold GCS.getInactiveFiles. rewrite Hb.
    eexists. split; [done|].
    rewrite gcs_scan_member by done. split.
    + intros (m' & Hm' & _ & Hlt). congruence.
    + intros Hlt. by exists m.
Qed.

Lemma local_read_eq :
  Local.downloadFile (H := Codec.codec) local_stored 3000 demo_pub
  = (Ok (demo_content, "text/plain", "hi.txt"), local_read).
Proof.
  destruct (local_download_after_upload (H := Codec.codec) _ _ _ _ _ _ _ _ _ 3000
              local_stored_eq) as [p2 Hdown].
  unfold local_read. rewrite Hdown. reflexivity.
Qed.

Lemma gcs_read_eq :
  GCS.downloadFile (H := Codec.codec) gcs_stored 3000 demo_pub
  = (Ok (demo_content, "text/plain", "hi.txt"), gcs_read).
Proof.
  destruct (gcs_download_after_upload (H := Codec.codec) gcs_empty _ _ _ _ _ _ _ _ _
              3000 eq_refl gcs_stored_eq) as [p2 Hdown].
  unfold gcs_read. rewrite Hdown. reflexivity.
Qed.

Lemma gcs_read_bucket :
  ∃ b, GCS.bucket gcs_read = Some b ∧ GCS.only_records_below_prefix gcs_read b.
Proof.
  destruct gcs_stored_bucket as (b & Hb & _ & Hwf & _).
  unfold gcs_read.
  destruct (GCS.downloadFile gcs_stored 3000 demo_pub) as [r p2] eqn:Hdown.
  by eapply gcs_download_keeps_names.
Qed.

Lemma inactive_scan_exact_witness :
  (∃ l, Local.getInactiveFiles (H := Codec.codec) local_stored 2000
          = (Ok l, local_stored) ∧ (demo_priv ∈ l ↔ 1000 < 2000)) ∧
  (∃ l, Local.getInactiveFiles (H := Codec.codec) local_read 2000
          = (Ok l, local_read) ∧ (demo_priv ∈ l ↔ 3000 < 2000)) ∧
  (∃ l, Local.getInactiveFiles (H := Codec.codec) local_stored 5000
          = (Ok l, local_stored) ∧ (demo_priv ∈ l ↔ 1000 < 5000)) ∧
  (∃ l, GCS.getInactiveFiles (H := Codec.codec) gcs_stored 2000
          = (Ok l, gcs_stored) ∧ (demo_priv ∈ l ↔ 1000 < 2000)) ∧
  (∃ l, GCS.getInactiveFiles (H := Codec.codec) gcs_read 2000
          = (Ok l, gcs_read) ∧ (demo_priv ∈ l ↔ 3000 < 2000)) ∧
  (∃ l, GCS.getInactiveFiles (H := Codec.codec) gcs_stored 1000
          = (Ok l, gcs_stored) ∧ (demo_priv ∈ l ↔ 1000 < 1000)).
Proof.
  pose proof (inactive_scan_exact (H := Codec.codec))
    as (Hlput & Hlget & Hlocal & Hgput & Hgget & Hcloud).
  split_and!.
  - apply (Hlput local_empty demo_entropy 1000 demo_content "hi.txt" "text/plain"
             demo_pub demo_priv local_stored 2000).
    reflexivity.
  - apply (Hlget local_empty demo_entropy 1000 demo_content "hi.txt" "text/plain"
             demo_pub demo_priv local_stored 3000
             (demo_content, "text/plain", "hi.txt") local_read 2000);
      [reflexivity | apply local_read_eq].
  - apply (Hlocal local_stored 5000 (demo_record None)).
    + apply demo_keys_are_keys.
    + apply local_stored_record. by right.
  - destruct gcs_stored_bucket as (b & Hb & _ & Hwf & _).
    apply (Hgput gcs_empty (Disk ∅ ∅) demo_entropy 1000 demo_content "hi.txt"
             "text/plain" demo_pub demo_priv gcs_stored b 2000);
      (reflexivity || done).
  - destruct gcs_read_bucket as (b & Hb & Hwf).
    apply (Hgget gcs_empty (Disk ∅ ∅) demo_entropy 1000 demo_content "hi.txt"
             "text/plain" demo_pub demo_priv gcs_stored 3000
             (demo_content, "text/plain", "hi.txt") gcs_read b 2000);
      [reflexivity | reflexivity | apply gcs_read_eq | done | done].
  - destruct gcs_stored_bucket as (b & Hb & _ & Hwf & Hrec).
    apply (Hcloud gcs_stored b 1000
             (demo_record (Some (GCS._getFilePath gcs_empty demo_pub))) Hb Hwf).
    + apply demo_keys_are_keys.
    + apply Hrec. by right.
Defined.

(** C10. After a [put] the record is on disk twice, under the public and
    under the private key; the scan returns the private key at most once
    and does not return the public key. In any state of the store, every
    key the scan returns is the [privateKey] field of a record whose file
    name, less the extension, is that same key; a key is returned at most
    once, and a copy of a record kept under another key than its
    [privateKey] never contributes. In the bucket the uniqueness needs the
    metadata prefix to hold nothing but the provider's records. *)
Theorem scan_returns_private_keys_once `{Json} :
  (∀ p src now buf name mime pub priv p1 cutoff,
     Local.uploadFile p src now buf name mime = (Ok (pub, priv), p1) →
     pub ≠ priv →
     disk_read (Local.metadataFolder p1) (Local._getMetadataPath pub)
       = disk_read (Local.metadataFolder p1) (Local._getMetadataPath priv) ∧
     is_Some (disk_read (Local.metadataFolder p1) (Local._getMetadataPath pub)) ∧
     ∃ l, Local.getInactiveFiles p1 cutoff = (Ok l, p1) ∧
          (length (filter (λ k, k = priv) l) ≤ 1)%nat ∧ pub ∉ l) ∧
  (∀ p cutoff,
     ∃ l, Local.getInactiveFiles p cutoff = (Ok l, p) ∧
       (∀ key, key ∈ l →
          ∃ f m, disk_read (Local.metadataFolder p) f ≫= JSON_parse = Some m ∧
                 Js.endsWith f ".json" = true ∧
                 Js.replace ".json" "" f = key ∧ privateKey m = key ∧
                 referenceDate m < cutoff) ∧
       (∀ key, is_key key → (length (filter (λ k, k = key) l) ≤ 1)%nat) ∧
       (∀ m, is_key (publicKey m) →
             publicKey m ≠ privateKey m →
             disk_read (Local.metadataFolder p) (Local._getMetadataPath (publicKey m))
               ≫= JSON_parse = Some m →
             publicKey m ∉ l)) ∧
  (∀ p b src now buf name mime pub priv p1 b1 cutoff,
     GCS.bucket p = Some b →
     GCS.uploadFile p src now buf name mime = (Ok (pub, priv), p1) →
     GCS.bucket p1 = Some b1 →
     GCS.only_records_below_prefix p1 b1 →
     pub ≠ priv →
     disk_read b1 (GCS._getMetadataPath p1 pub)
       = disk_read b1 (GCS._getMetadataPath p1 priv) ∧
     is_Some (disk_read b1 (GCS._getMetadataPath p1 pub)) ∧
     ∃ l, GCS.getInactiveFiles p1 cutoff = (Ok l, p1) ∧
          (length (filter (λ k, k = priv) l) ≤ 1)%nat ∧ pub ∉ l) ∧
  (∀ p b cutoff,
     GCS.bucket p = Some b →
     ∃ l, GCS.getInactiveFiles p cutoff = (Ok l, p) ∧
       (∀ key, key ∈ l →
          ∃ name m, disk_read b name ≫= JSON_parse = Some m ∧
                    Js.replace ".json" "" (Js.replace (GCS.metadataPrefix p) "" name)
                      = key ∧
                    privateKey m = key ∧
                    referenceDate m < cutoff) ∧
       (GCS.only_records_below_prefix p b →
        (∀ key, is_key key → (length (filter (λ k, k = key) l) ≤ 1)%nat) ∧
        (∀ m, is_key (publicKey m) →
              publicKey m ≠ privateKey m →
              disk_read b (GCS._getMetadataPath p (publicKey m)) ≫= JSON_parse = Some m →
              publicKey m ∉ l))).
Proof.
  split_and!.
  - intros p src now buf name mime pub priv p1 cutoff Hup Hne.
    destruct (local_upload_records _ _ _ _ _ _ _ _ _ Hup) as (Hpub & Hpriv & _).
    unfold Local._getMetadataPath. rewrite Hpub, Hpriv.
    split; [done|]. split; [by eexists|].
    eexists. split; [done|]. split.
    + apply local_scan_at_most_once.
      apply local_upload_ok in Hup as (Hkeys & _).
      by eapply upload_private_key_is_key.
    + by eapply local_scan_skips_public_key.
  - intros p cutoff. eexists. split; [done|]. split_and!.
    + apply local_scan_origin.
    + intros key Hkey. by apply local_scan_at_most_once.
    + intros m Hkey Hne Hm. rewrite local_scan_member by done.
      intros (m' & Hm' & Hpriv & _).
      unfold Local._getMetadataPath in Hm. congruence.
  - intros p b src now buf name mime pub priv p1 b1 cutoff Hb Hup Hb1 Hwf Hne.
    destruct (gcs_upload_records _ _ _ _ _ _ _ _ _ _ Hb Hup)
      as (b' & Hb' & _ & _ & Hpub & Hpriv & _).
    rewrite Hb1 in Hb'. injection Hb' as <-.
    pose proof Hup as Hok.
    apply (gcs_upload_ok _ _ _ _ _ _ _ _ _ _ Hb) in Hok as (Hkeys & _ & _ & _ & Hp1).
    assert (∀ k, GCS._getMetadataPath p1 k = GCS._getMetadataPath p k) as Hmp
      by (by subst p1).
    rewrite !Hmp, Hpub, Hpriv.
    split; [done|]. split; [by eexists|].
    unfold GCS.getInactiveFiles. rewrite Hb1.
    eexists. split; [done|]. split.
    + apply gcs_scan_at_most_once; [done|]. by eapply upload_private_key_is_key.
    + exact (gcs_scan_skips_public_key p b src now buf name mime pub priv p1 b1 cutoff
               Hb Hup Hb1 Hwf Hne).
  - intros p b cutoff Hb. unfold GCS.getInactiveFiles. rewrite Hb.
    eexists. split; [done|]. split.
    + apply gcs_scan_origin.
    + intros Hwf. split.
      * intros key Hkey. by apply gcs_scan_at_most_once.
      * intros m Hkey Hne Hm. rewrite gcs_scan_member by done.
        intros (m' & Hm' & Hpriv & _). congruence.
Qed.

(** After one upload the metadata folder holds two copies of the record;
    the scan returns the private key, once. *)
Example scan_after_one_upload :
  readdir (Local.metadataFolder local_stored) ≡ₚ
    [demo_pub +:+ ".json"; demo_priv +:+ ".json"] ∧
  (Local.getInactiveFiles (H := Codec.codec) local_stored 5000).1 = Ok [demo_priv] ∧
  (Local.getInactiveFiles (H := Codec.codec) local_stored 1000).1 = Ok [] ∧
  (GCS.getInactiveFiles (H := Codec.codec) gcs_stored 5000).1 = Ok [demo_priv].
Proof.
  split_and!.
  - vm_compute. apply Permutation_swap.
  - vm_compute. reflexivity.
  - vm_compute. reflexivity.
  - vm_compute. reflexivity.
Qed.

Lemma scan_returns_private_keys_once_witness :
  (∃ l, Local.getInactiveFiles (H := Codec.codec) local_stored 2000
          = (Ok l, local_stored) ∧
        (length (filter (λ k, k = demo_priv) l) ≤ 1)%nat ∧ demo_pub ∉ l) ∧
  (∃ l, Local.getInactiveFiles (H := Codec.codec) local_stored 5000
          = (Ok l, local_stored) ∧
        (length (filter (λ k, k = demo_priv) l) ≤ 1)%nat ∧ demo_pub ∉ l) ∧
  (∃ l, GCS.getInactiveFiles (H := Codec.codec) gcs_stored 2000
          = (Ok l, gcs_stored) ∧
        (length (filter (λ k, k = demo_priv) l) ≤ 1)%nat ∧ demo_pub ∉ l) ∧
  (∃ l, GCS.getInactiveFiles (H := Codec.codec) gcs_stored 5000
          = (Ok l, gcs_stored) ∧
        (length (filter (λ k, k = demo_priv) l) ≤ 1)%nat ∧ demo_pub ∉ l).
Proof.
  pose proof (scan_returns_private_keys_once (H := Codec.codec))
    as (Hlput & Hlocal & Hgput & Hcloud).
  split_and!.
  - apply (Hlput local_empty demo_entropy 1000 demo_content "hi.txt" "text/plain"
             demo_pub demo_priv local_stored 2000).
    + reflexivity.
    + by vm_compute.
  - destruct (Hlocal local_stored 5000) as (l & Hl & _ & Honce & Hpub).
    exists l. split; [done|]. split.
    + apply Honce, demo_keys_are_keys.
    + apply (Hpub (demo_record None)).
      * apply demo_keys_are_keys.
      * apply demo_keys_distinct.
      * apply local_stored_record. by left.
  - destruct gcs_stored_bucket as (b & Hb & _ & Hwf & _).
    apply (Hgput gcs_empty (Disk ∅ ∅) demo_entropy 1000 demo_content "hi.txt"
             "text/plain" demo_pub demo_priv gcs_stored b 2000).
    + reflexivity.
    + reflexivity.
    + done.
    + done.
    + by vm_compute.
  - destruct gcs_stored_bucket as (b & Hb & _ & Hwf & Hrec).
    destruct (Hcloud gcs_stored b 5000 Hb) as (l & Hl & _ & Hnames).
    destruct (Hnames Hwf) as [Honce Hpub].
    exists l. split; [done|]. split.
    + apply Honce, demo_keys_are_keys.
    + apply (Hpub (demo_record (Some (GCS._getFilePath gcs_empty demo_pub)))).
      * apply demo_keys_are_keys.
      * apply demo_keys_distinct.
      * apply Hrec. by left.
Defined.

(** ** The cleanup cycle *)

(** C8. A cycle whose cutoff is a date the provider can be asked about
    goes as follows. When the enumeration fails the cycle reports zero.
    Otherwise [deleteFile] is called on every candidate, whatever the calls
    before it answered or threw, and the cycle reports the number of calls
    that answered [true]. A cycle whose cutoff is not a valid date fails
    before the enumeration: it reports zero and has called nothing. *)
Theorem cleanup_cycle_counts_deletions {St} (sp : StorageProvider St) env now (s : St) :
  if Js.valid_date (now - CleanupJob.INACTIVITY_PERIOD_MS env) then
    match getInactiveFiles sp s (now - CleanupJob.INACTIVITY_PERIOD_MS env) with
    | (Err _, s') => CleanupJob.runCleanup (Some sp) env now s = (O, s')
    | (Ok files, s') =>
        let '(log, s'') := attempts sp files s' in
        log.*1 = files ∧
        CleanupJob.runCleanup (Some sp) env now s
          = (length (filter (λ e, deleted e = true) log), s'')
    end
  else CleanupJob.runCleanup (Some sp) env now s = (O, s).
Proof.
  unfold CleanupJob.runCleanup.
  destruct (Js.valid_date _); [|done].
  destruct (getInactiveFiles sp s _) as [[files|e] s']; [|done].
  pose proof (attempts_all sp files s') as Hall.
  rewrite delete_each_attempts.
  destruct (attempts sp files s') as [log s'']. done.
Qed.

Example cleanup_survives_a_failing_deletion :
  CleanupJob.runCleanup (Some flaky_provider) None 0 [] = (1%nat, ["key1"; "key2"]).
Proof. reflexivity. Qed.

(** An object created forty days ago, with the default threshold of thirty
    days: the cycle deletes it and [get] no longer finds it. *)
Example cleanup_evicts_an_old_object :
  let now := 1000 + 40 * 24 * 60 * 60 * 1000 in
  let local := CleanupJob.runCleanup (Some (localProvider (H := Codec.codec))) None
                 now local_stored in
  let cloud := CleanupJob.runCleanup (Some (googleProvider (H := Codec.codec))) None
                 now gcs_stored in
  local.1 = 1%nat ∧
  Local.downloadFile (H := Codec.codec) local.2 now demo_pub
    = (Err FileNotFound, local.2) ∧
  cloud.1 = 1%nat ∧
  GCS.downloadFile (H := Codec.codec) cloud.2 now demo_pub
    = (Err FileNotFound, cloud.2).
Proof. vm_compute. split_and!; reflexivity. Qed.

Example cleanup_without_provider :
  CleanupJob.runCleanup (St := list string) None None 0 [] = (O, []).
Proof. reflexivity. Qed.

(** With [INACTIVITY_PERIOD_DAYS=200000000] the cutoff lies some 547000
    years before the epoch, which no [Date] can hold: the cycle reports
    zero and the provider, which would have deleted one object, has not
    been called. *)
Example cleanup_with_an_invalid_cutoff :
  Js.valid_date (1700000000000 - CleanupJob.INACTIVITY_PERIOD_MS (Some 200000000))
    = false ∧
  CleanupJob.runCleanup (Some flaky_provider) (Some 200000000) 1700000000000 []
    = (O, []) ∧
  CleanupJob.runCleanup (Some flaky_provider) None 1700000000000 []
    = (1%nat, ["key1"; "key2"]).
Proof. split_and!; reflexivity. Qed.

(** ** Accounting of uploads *)

(** C4. The claim is that a completed upload of [n] bytes raises the
    uploader's counter for the day by [n]. [uploadLimiter] replaces both
    [res.send] and [res.json] by wrappers that add the file size; the route
    answers with [res.json], and under Express [json] passes the serialised
    body to [this.send], which by then is the wrapper: the size is added
    twice. *)
Theorem express_upload_is_counted_twice {St} (sp : StorageProvider St)
    env_up s src clock now req f store store' s' :
  UsageLimiter.post_files env_up true sp s src clock now req (Some f) store
    = (201%nat, store', s') →
  bytes_uploaded store' (UsageLimiter.client req) now
  = bytes_uploaded store (UsageLimiter.client req) now + 2 * UsageLimiter.size f.
Proof. intros Hpost%post_files_created. lia. Qed.

(** With a response object whose [json] does not call [send], as the mock
    of the unit tests, the size is added once. *)
Lemma mock_upload_is_counted_once {St} (sp : StorageProvider St)
    env_up s src clock now req f store store' s' :
  UsageLimiter.post_files env_up false sp s src clock now req (Some f) store
    = (201%nat, store', s') →
  bytes_uploaded store' (UsageLimiter.client req) now
  = bytes_uploaded store (UsageLimiter.client req) now + UsageLimiter.size f.
Proof. intros Hpost%post_files_created. lia. Qed.

Lemma express_upload_is_counted_twice_witness :
  bytes_uploaded demo_ledger (UsageLimiter.client demo_request) demo_day
  = bytes_uploaded ∅ (UsageLimiter.client demo_request) demo_day
    + 2 * UsageLimiter.size demo_file.
Proof.
  apply (express_upload_is_counted_twice accepting_provider None tt demo_entropy 0
           demo_day demo_request demo_file ∅ demo_ledger tt).
  reflexivity.
Defined.

(** The figures of the unit test "should allow file upload and track size":
    one upload of 1024 bytes; the test expects 1024 on a mocked response. *)
Example express_upload_of_1024_bytes :
  bytes_uploaded ∅ "192.168.1.1" demo_day = 0 ∧
  bytes_uploaded demo_ledger "192.168.1.1" demo_day = 2048.
Proof. split; reflexivity. Qed.

Example mock_upload_of_1024_bytes :
  bytes_uploaded
    (UsageLimiter.post_files None false accepting_provider tt demo_entropy 0 demo_day
       demo_request (Some demo_file) ∅).1.2
    "192.168.1.1" demo_day = 1024.
Proof. reflexivity. Qed.

(** * Further properties *)

(** ** Names *)

Lemma string_app_assoc (a b c : string) : (a +:+ b) +:+ c = a +:+ b +:+ c.
Proof. induction a as [|x a IH]; [done|]. rewrite !string_app_cons. by f_equal. Qed.

Lemma string_app_length (a b : string) :
  String.length (a +:+ b) = (String.length a + String.length b)%nat.
Proof.
  induction a as [|x a IH]; [done|]. rewrite string_app_cons.
  cbn [String.length]. by rewrite IH.
Qed.

Lemma string_app_inj_r (a b s : string) : a +:+ s = b +:+ s → a = b.
Proof.
  revert b. induction a as [|x a IH]; intros [|y b] Heq; [done| | |].
  - apply (f_equal String.length) in Heq.
    rewrite string_app_nil_l, string_app_length in Heq. cbn in Heq. lia.
  - apply (f_equal String.length) in Heq.
    rewrite string_app_nil_l, string_app_length in Heq. cbn in Heq. lia.
  - rewrite !string_app_cons in Heq. injection Heq as -> Heq. f_equal. by apply IH.
Qed.

Lemma local_metadata_path_inj k k' :
  Local._getMetadataPath k = Local._getMetadataPath k' → k = k'.
Proof. apply string_app_inj_r. Qed.

Lemma gcs_metadata_path_inj p k k' :
  GCS._getMetadataPath p k = GCS._getMetadataPath p k' → k = k'.
Proof.
  unfold GCS._getMetadataPath. intros Heq%String.app_inj.
  by apply string_app_inj_r in Heq.
Qed.

Lemma gcs_file_path_inj p k k' :
  GCS._getFilePath p k = GCS._getFilePath p k' → k = k'.
Proof. unfold GCS._getFilePath. by intros Heq%String.app_inj. Qed.

Section LocalMetadata.
Context `{Json}.

Lemma local_metadata_after_put p src now buf name mime pub priv p1 key :
  Local.uploadFile p src now buf name mime = (Ok (pub, priv), p1) →
  key = pub ∨ key = priv →
  Local.getFileMetadata p1 key = Ok (None, now).
Proof.
  intros Hup Hkey.
  destruct (local_upload_records _ _ _ _ _ _ _ _ _ Hup) as (Hpub & Hpriv & _).
  unfold Local.getFileMetadata, Local._getMetadataPath.
  destruct Hkey as [-> | ->]; [rewrite Hpub | rewrite Hpriv]; cbn;
    by rewrite JSON_parse_stringify.
Qed.

End LocalMetadata.

Lemma try_unlink_other d name other :
  name ≠ other → entries (try_unlink d other) !! name = entries d !! name.
Proof.
  intros Hne. unfold try_unlink, disk_unlink. case_decide; [done|].
  destruct (entries d !! other); cbn; [|done]. by rewrite lookup_delete_ne.
Qed.

(** A removal attempt only ever removes: what is found afterwards was
    there before. *)
Lemma try_unlink_lookup_Some d name other data :
  entries (try_unlink d other) !! name = Some data → entries d !! name = Some data.
Proof.
  unfold try_unlink, disk_unlink. case_decide; [done|].
  destruct (entries d !! other); cbn; [|done].
  rewrite lookup_delete. by case_decide.
Qed.

Lemma try_unlink_present d name data :
  name ∉ rejecting d → entries d !! name = Some data →
  try_unlink d name = Disk (delete name (entries d)) (rejecting d).
Proof.
  intros Hr Hd. unfold try_unlink, disk_unlink. case_decide; [done|]. by rewrite Hd.
Qed.

Lemma try_unlink_missing d name :
  entries d !! name = None → try_unlink d name = d.
Proof.
  intros Hd. unfold try_unlink, disk_unlink. case_decide; [done|]. by rewrite Hd.
Qed.

Lemma try_unlink_insert e r name data :
  name ∉ r → try_unlink (Disk (<[name := data]> e) r) name = Disk (delete name e) r.
Proof.
  intros Hr. unfold try_unlink, disk_unlink. cbn. case_decide; [done|].
  rewrite lookup_insert_eq. cbn. by rewrite delete_insert_eq.
Qed.

Section LocalTimeStamps.
Context `{Json}.

(** What a completed download has read and written. *)
Lemma local_download_ok p now key r p2 :
  Local.downloadFile p now key = (Ok r, p2) →
  ∃ m buf,
    disk_read (Local.metadataFolder p) (key +:+ ".json") ≫= JSON_parse = Some m ∧
    disk_read (Local.filesFolder p) key = Some buf ∧
    r = (buf, mimeType m, originalName m) ∧
    ((key +:+ ".json") ∉ rejecting (Local.metadataFolder p)) ∧
    ((privateKey m +:+ ".json") ∉ rejecting (Local.metadataFolder p)) ∧
    p2 = Local.Provider (Local.filesFolder p)
           (Disk (<[privateKey m +:+ ".json" := JSON_stringify (touch m now)]>
                    (<[key +:+ ".json" := JSON_stringify (touch m now)]>
                       (entries (Local.metadataFolder p))))
                 (rejecting (Local.metadataFolder p))).
Proof.
  unfold Local.downloadFile, Local._getMetadataPath, Local._getFilePath.
  destruct (disk_exists _ _); cbn [negb]; [|done].
  destruct (disk_read (Local.metadataFolder p) _) as [c|] eqn:Hc; [|done].
  destruct (JSON_parse c) as [m|] eqn:Hm; [|done].
  destruct (disk_read (Local.filesFolder p) key) as [buf|] eqn:Hbuf; [|done].
  destruct (disk_write _ (key +:+ _) _) as [m1|] eqn:Hw1; [|done].
  destruct (disk_write m1 _ _) as [m2|] eqn:Hw2; [|done].
  intros [= <- <-]. exists m, buf.
  apply disk_write_Some in Hw1 as [? ->].
  apply disk_write_Some in Hw2 as [? ->]. cbn in *.
  split; [by rewrite Hm|]. done.
Qed.

Lemma local_download_stamps p now key r p2 :
  Local.downloadFile p now key = (Ok r, p2) →
  ∃ m, disk_read (Local.metadataFolder p) (key +:+ ".json") ≫= JSON_parse = Some m ∧
       r.1.2 = mimeType m ∧ r.2 = originalName m ∧
       disk_read (Local.filesFolder p) key = Some r.1.1 ∧
       Local.filesFolder p2 = Local.filesFolder p ∧
       Local.getFileMetadata p2 key = Ok (Some now, createdAt m) ∧
       Local.getFileMetadata p2 (privateKey m) = Ok (Some now, createdAt m).
Proof.
  intros (m & buf & Hm & Hbuf & -> & _ & _ & ->)%local_download_ok.
  exists m. split; [done|]. split; [done|]. split; [done|]. split; [done|].
  split; [done|].
  unfold Local.getFileMetadata, Local._getMetadataPath, disk_read. cbn. split.
  - rewrite lookup_insert. case_decide.
    + cbn. by rewrite JSON_parse_stringify.
    + rewrite lookup_insert_eq. cbn. by rewrite JSON_parse_stringify.
  - rewrite lookup_insert_eq. cbn. by rewrite JSON_parse_stringify.
Qed.

Lemma local_update_matches_download p now key r p2 :
  Local.downloadFile p now key = (Ok r, p2) →
  Local.updateLastAccessed p now key = p2.
Proof.
  intros (m & buf & Hm & Hbuf & -> & Hr1 & Hr2 & ->)%local_download_ok.
  unfold Local.updateLastAccessed, Local._getMetadataPath. rewrite Hm.
  rewrite disk_write_accepted by done.
  by rewrite disk_write_accepted by done.
Qed.

Lemma local_update_absent p now key :
  disk_read (Local.metadataFolder p) (key +:+ ".json") ≫= JSON_parse = None →
  Local.updateLastAccessed p now key = p.
Proof.
  intros Hm. unfold Local.updateLastAccessed, Local._getMetadataPath. by rewrite Hm.
Qed.

Lemma local_update_keeps_content p now key :
  Local.filesFolder (Local.updateLastAccessed p now key) = Local.filesFolder p.
Proof.
  unfold Local.updateLastAccessed.
  destruct (_ ≫= _); [|done]. destruct (disk_write _ _ _); [|done].
  by destruct (disk_write _ _ _).
Qed.

Lemma local_update_after_put p src now buf name mime pub priv p1 now' key :
  Local.uploadFile p src now buf name mime = (Ok (pub, priv), p1) →
  key = pub ∨ key = priv →
  Local.getFileMetadata (Local.updateLastAccessed p1 now' pub) key
  = Ok (Some now', now).
Proof.
  intros Hup Hkey.
  destruct (local_download_after_upload _ _ _ _ _ _ _ _ _ now' Hup) as [p2 Hdown].
  rewrite (local_update_matches_download _ _ _ _ _ Hdown).
  destruct (local_download_stamps _ _ _ _ _ Hdown) as (m & Hm & _ & _ & _ & _ & H1 & H2).
  destruct (local_upload_records _ _ _ _ _ _ _ _ _ Hup) as (Hpub & _ & _).
  rewrite Hpub in Hm. cbn in Hm. rewrite JSON_parse_stringify in Hm.
  injection Hm as <-. by destruct Hkey as [-> | ->].
Qed.

Lemma local_delete_after_put p src now buf name mime pub priv p1 now' :
  Local.uploadFile p src now buf name mime = (Ok (pub, priv), p1) →
  ∃ p2, Local.deleteFile p1 priv = (Ok true, p2) ∧
        Local.downloadFile p2 now' pub = (Err FileNotFound, p2) ∧
        Local.getFileMetadata p2 pub = Err MetadataNotFound ∧
        Local.getFileMetadata p2 priv = Err MetadataNotFound ∧
        disk_read (Local.filesFolder p2) pub = None.
Proof.
  intros Hup.
  destruct (local_upload_records _ _ _ _ _ _ _ _ _ Hup) as (Hpub & Hpriv & Hbuf).
  apply local_upload_ok in Hup as (_ & Hr1 & Hr2 & Hr3 & Hp1).
  assert (rejecting (Local.metadataFolder p1) = rejecting (Local.metadataFolder p))
    as Hrej by (by subst p1).
  assert (rejecting (Local.filesFolder p1) = rejecting (Local.filesFolder p))
    as Hrejf by (by subst p1).
  unfold Local.deleteFile, Local._getMetadataPath, Local._getFilePath.
  rewrite Hpriv. cbn. rewrite JSON_parse_stringify. cbn.
  eexists. split; [done|].
  assert (entries (try_unlink (try_unlink (Local.metadataFolder p1) (pub +:+ ".json"))
                     (priv +:+ ".json")) !! (pub +:+ ".json") = None) as Hgone1.
  { apply try_unlink_absent, try_unlink_gone. by rewrite Hrej. }
  assert (entries (try_unlink (try_unlink (Local.metadataFolder p1) (pub +:+ ".json"))
                     (priv +:+ ".json")) !! (priv +:+ ".json") = None) as Hgone2.
  { apply try_unlink_gone. by rewrite try_unlink_rejecting, Hrej. }
  split_and!.
  - unfold Local.downloadFile, Local._getMetadataPath. cbn.
    by rewrite disk_exists_false.
  - unfold Local.getFileMetadata, Local._getMetadataPath, disk_read. cbn.
    by rewrite Hgone1.
  - unfold Local.getFileMetadata, Local._getMetadataPath, disk_read. cbn.
    by rewrite Hgone2.
  - unfold disk_read. cbn. apply try_unlink_gone. by rewrite Hrejf.
Qed.

Lemma local_delete_undoes_put p src now buf name mime pub priv p1 :
  Local.uploadFile p src now buf name mime = (Ok (pub, priv), p1) →
  disk_read (Local.filesFolder p) pub = None →
  disk_read (Local.metadataFolder p) (pub +:+ ".json") = None →
  disk_read (Local.metadataFolder p) (priv +:+ ".json") = None →
  Local.deleteFile p1 priv = (Ok true, p).
Proof.
  intros Hup Hf Hm1 Hm2.
  destruct (local_upload_records _ _ _ _ _ _ _ _ _ Hup) as (Hpub & Hpriv & Hbuf).
  apply local_upload_ok in Hup as (_ & Hr1 & Hr2 & Hr3 & ->).
  unfold Local.deleteFile, Local._getMetadataPath, Local._getFilePath.
  rewrite Hpriv. cbn [mbind option_bind]. rewrite JSON_parse_stringify.
  cbn [publicKey Local.filesFolder Local.metadataFolder].
  destruct p as [[fe fr] [me mr]]. unfold disk_read in *. cbn in *.
  do 2 f_equal.
  - rewrite try_unlink_insert by done. by rewrite delete_id.
  - destruct (decide (pub = priv)) as [<-|Hne].
    + rewrite try_unlink_insert by done. rewrite delete_insert_id by done.
      by apply try_unlink_missing.
    + assert (pub +:+ ".json" ≠ priv +:+ ".json") as Hne'.
      { by intros ?%string_app_inj_r. }
      rewrite insert_insert_ne by done.
      rewrite try_unlink_insert by done.
      rewrite delete_insert_ne, (delete_id me) by done.
      rewrite try_unlink_insert by done. by rewrite delete_id.
Qed.

(** The answer of a download: the stores may differ as long as the files
    it reads and the names it writes are treated alike. *)
Lemma local_download_result_ext p q now key :
  disk_read (Local.metadataFolder p) (key +:+ ".json")
  = disk_read (Local.metadataFolder q) (key +:+ ".json") →
  disk_read (Local.filesFolder p) key = disk_read (Local.filesFolder q) key →
  rejecting (Local.metadataFolder p) = rejecting (Local.metadataFolder q) →
  (Local.downloadFile p now key).1 = (Local.downloadFile q now key).1.
Proof.
  intros Hm Hf Hr.
  unfold Local.downloadFile, Local._getMetadataPath, Local._getFilePath, disk_exists.
  unfold disk_read in *. rewrite Hm, Hf.
  case_bool_decide; cbn [negb]; [|done].
  destruct (entries (Local.metadataFolder q) !! _) as [c|]; [|done].
  destruct (JSON_parse c) as [m|]; [|done].
  destruct (entries (Local.filesFolder q) !! key) as [buf|]; [|done].
  unfold disk_write. cbn. rewrite Hr.
  repeat case_decide; done.
Qed.

Lemma local_put_frame p src now buf name mime pub priv p1 now' key :
  Local.uploadFile p src now buf name mime = (Ok (pub, priv), p1) →
  key ≠ pub → key ≠ priv →
  Local.getFileMetadata p1 key = Local.getFileMetadata p key ∧
  (Local.downloadFile p1 now' key).1 = (Local.downloadFile p now' key).1.
Proof.
  intros Hup Hne1 Hne2.
  apply local_upload_ok in Hup as (_ & _ & _ & _ & ->).
  assert (key +:+ ".json" ≠ pub +:+ ".json") by (by intros ?%string_app_inj_r).
  assert (key +:+ ".json" ≠ priv +:+ ".json") by (by intros ?%string_app_inj_r).
  split.
  - unfold Local.getFileMetadata, Local._getMetadataPath, disk_read. cbn.
    by rewrite !lookup_insert_ne.
  - apply local_download_result_ext; unfold disk_read; cbn;
      by rewrite ?lookup_insert_ne.
Qed.

Lemma local_delete_frame p key0 m p2 now' key :
  disk_read (Local.metadataFolder p) (key0 +:+ ".json") ≫= JSON_parse = Some m →
  Local.deleteFile p key0 = (Ok true, p2) →
  key ≠ key0 → key ≠ publicKey m →
  Local.getFileMetadata p2 key = Local.getFileMetadata p key ∧
  (Local.downloadFile p2 now' key).1 = (Local.downloadFile p now' key).1.
Proof.
  intros Hm Hdel Hne1 Hne2.
  unfold Local.deleteFile, Local._getMetadataPath, Local._getFilePath in Hdel.
  rewrite Hm in Hdel. injection Hdel as <-.
  assert (key +:+ ".json" ≠ key0 +:+ ".json") by (by intros ?%string_app_inj_r).
  assert (key +:+ ".json" ≠ publicKey m +:+ ".json") by (by intros ?%string_app_inj_r).
  split.
  - unfold Local.getFileMetadata, Local._getMetadataPath, disk_read. cbn.
    by rewrite !try_unlink_other.
  - apply local_download_result_ext; unfold disk_read; cbn;
      by rewrite ?try_unlink_other, ?try_unlink_rejecting.
Qed.

End LocalTimeStamps.

Section CloudTimeStamps.
Context `{Json}.

Lemma gcs_metadata_after_put p b src now buf name mime pub priv p1 key :
  GCS.bucket p = Some b →
  GCS.uploadFile p src now buf name mime = (Ok (pub, priv), p1) →
  key = pub ∨ key = priv →
  GCS.getFileMetadata p1 key = Ok (None, now).
Proof.
  intros Hb Hup Hkey.
  destruct (gcs_upload_records _ _ _ _ _ _ _ _ _ _ Hb Hup)
    as (b' & Hb' & _ & _ & Hpub & Hpriv & _).
  apply (gcs_upload_ok _ _ _ _ _ _ _ _ _ _ Hb) in Hup as (_ & _ & _ & _ & Hp1).
  assert (∀ k, GCS._getMetadataPath p1 k = GCS._getMetadataPath p k) as Hmp
    by (by subst p1).
  unfold GCS.getFileMetadata. rewrite Hb', Hmp.
  destruct Hkey as [-> | ->]; [rewrite Hpub | rewrite Hpriv]; cbn;
    by rewrite JSON_parse_stringify.
Qed.

(** What a completed download has read and written. *)
Lemma gcs_download_ok p b now key r p2 :
  GCS.bucket p = Some b →
  GCS.downloadFile p now key = (Ok r, p2) →
  ∃ m buf,
    disk_read b (GCS._getMetadataPath p key) ≫= JSON_parse = Some m ∧
    disk_read b (Js.or_string (filePath m) (GCS._getFilePath p key)) = Some buf ∧
    r = (buf, mimeType m, originalName m) ∧
    (GCS._getMetadataPath p key ∉ rejecting b) ∧
    (GCS._getMetadataPath p (privateKey m) ∉ rejecting b) ∧
    p2 = GCS.with_bucket p
           (Disk (<[GCS._getMetadataPath p (privateKey m) := JSON_stringify (touch m now)]>
                    (<[GCS._getMetadataPath p key := JSON_stringify (touch m now)]>
                       (entries b)))
                 (rejecting b)).
Proof.
  intros Hb. unfold GCS.downloadFile. rewrite Hb.
  destruct (disk_exists _ _); cbn [negb]; [|done].
  destruct (disk_read b _) as [c|] eqn:Hc; [|done].
  destruct (JSON_parse c) as [m|] eqn:Hm; [|done].
  destruct (disk_read b (Js.or_string _ _)) as [buf|] eqn:Hbuf; [|done].
  destruct (disk_write _ (GCS._getMetadataPath p key) _) as [b1|] eqn:Hw1; [|done].
  destruct (disk_write b1 _ _) as [b2|] eqn:Hw2; [|done].
  intros [= <- <-]. exists m, buf.
  apply disk_write_Some in Hw1 as [? ->].
  apply disk_write_Some in Hw2 as [? ->]. cbn in *.
  split; [by rewrite Hm|]. done.
Qed.

Lemma gcs_download_stamps p b now key r p2 :
  GCS.bucket p = Some b →
  GCS.downloadFile p now key = (Ok r, p2) →
  ∃ m, disk_read b (GCS._getMetadataPath p key) ≫= JSON_parse = Some m ∧
       r.1.2 = mimeType m ∧ r.2 = originalName m ∧
       disk_read b (Js.or_string (filePath m) (GCS._getFilePath p key)) = Some r.1.1 ∧
       GCS.getFileMetadata p2 key = Ok (Some now, createdAt m) ∧
       GCS.getFileMetadata p2 (privateKey m) = Ok (Some now, createdAt m).
Proof.
  intros Hb (m & buf & Hm & Hbuf & -> & _ & _ & ->)%(gcs_download_ok _ _ _ _ _ _ Hb).
  exists m. split; [done|]. split; [done|]. split; [done|]. split; [done|].
  unfold GCS.getFileMetadata. cbn [GCS.bucket GCS.with_bucket].
  change (GCS._getMetadataPath (GCS.with_bucket p ?d) ?k)
    with (GCS._getMetadataPath p k).
  unfold disk_read. cbn [entries]. split.
  - rewrite lookup_insert. case_decide.
    + cbn. by rewrite JSON_parse_stringify.
    + rewrite lookup_insert_eq. cbn. by rewrite JSON_parse_stringify.
  - rewrite lookup_insert_eq. cbn. by rewrite JSON_parse_stringify.
Qed.

Lemma gcs_update_matches_download p b now key r p2 :
  GCS.bucket p = Some b →
  GCS.downloadFile p now key = (Ok r, p2) →
  GCS.updateLastAccessed p now key = (Ok tt, p2).
Proof.
  intros Hb (m & buf & Hm & Hbuf & -> & Hr1 & Hr2 & ->)%(gcs_download_ok _ _ _ _ _ _ Hb).
  unfold GCS.updateLastAccessed. rewrite Hb, Hm.
  rewrite disk_write_accepted by done.
  by rewrite disk_write_accepted by done.
Qed.

Lemma gcs_update_absent p b now key :
  GCS.bucket p = Some b →
  disk_read b (GCS._getMetadataPath p key) ≫= JSON_parse = None →
  GCS.updateLastAccessed p now key = (Ok tt, p).
Proof. intros Hb Hm. unfold GCS.updateLastAccessed. by rewrite Hb, Hm. Qed.

Lemma gcs_update_after_put p b src now buf name mime pub priv p1 now' key :
  GCS.bucket p = Some b →
  GCS.uploadFile p src now buf name mime = (Ok (pub, priv), p1) →
  key = pub ∨ key = priv →
  ∃ p2, GCS.updateLastAccessed p1 now' pub = (Ok tt, p2) ∧
        GCS.getFileMetadata p2 key = Ok (Some now', now).
Proof.
  intros Hb Hup Hkey.
  destruct (gcs_download_after_upload _ _ _ _ _ _ _ _ _ _ now' Hb Hup) as [p2 Hdown].
  destruct (gcs_upload_records _ _ _ _ _ _ _ _ _ _ Hb Hup)
    as (b' & Hb' & _ & _ & Hpub & _ & _).
  apply (gcs_upload_ok _ _ _ _ _ _ _ _ _ _ Hb) in Hup as (_ & _ & _ & _ & Hp1).
  assert (∀ k, GCS._getMetadataPath p1 k = GCS._getMetadataPath p k) as Hmp
    by (by subst p1).
  exists p2. split; [by eapply gcs_update_matches_download|].
  destruct (gcs_download_stamps _ _ _ _ _ _ Hb' Hdown) as (m & Hm & _ & _ & _ & H1 & H2).
  rewrite Hmp, Hpub in Hm. cbn in Hm. rewrite JSON_parse_stringify in Hm.
  injection Hm as <-. by destruct Hkey as [-> | ->].
Qed.

Lemma gcs_delete_after_put p b src now buf name mime pub priv p1 now' :
  GCS.bucket p = Some b →
  GCS.uploadFile p src now buf name mime = (Ok (pub, priv), p1) →
  ∃ p2 b2, GCS.deleteFile p1 priv = (Ok true, p2) ∧
           GCS.bucket p2 = Some b2 ∧
           GCS.downloadFile p2 now' pub = (Err FileNotFound, p2) ∧
           GCS.getFileMetadata p2 pub = Err MetadataNotFound ∧
           GCS.getFileMetadata p2 priv = Err MetadataNotFound ∧
           disk_read b2 (GCS._getFilePath p pub) = None.
Proof.
  intros Hb Hup.
  destruct (gcs_upload_records _ _ _ _ _ _ _ _ _ _ Hb Hup)
    as (b' & Hb' & Hrej & Hkey & Hpub & Hpriv & Hbuf).
  apply (gcs_upload_ok _ _ _ _ _ _ _ _ _ _ Hb) in Hup as (_ & Hr1 & Hr2 & Hr3 & Hp1).
  unfold GCS.deleteFile. rewrite Hb'.
  assert (∀ k, GCS._getMetadataPath p1 k = GCS._getMetadataPath p k) as Hmp
    by (by subst p1).
  assert (∀ k, GCS._getFilePath p1 k = GCS._getFilePath p k) as Hfp
    by (by subst p1).
  rewrite !Hmp. rewrite (disk_exists_true _ _ _ Hpriv). cbn [negb].
  rewrite Hpriv. cbn. rewrite JSON_parse_stringify. cbn [filePath publicKey].
  rewrite gcs_file_path_truthy by done. rewrite Hmp.
  set (b2 := try_unlink (try_unlink (try_unlink b' _) _) _).
  assert (entries b2 !! GCS._getMetadataPath p pub = None) as Hgone1.
  { apply try_unlink_absent, try_unlink_gone. by rewrite try_unlink_rejecting, Hrej. }
  assert (entries b2 !! GCS._getMetadataPath p priv = None) as Hgone2.
  { apply try_unlink_gone. by rewrite !try_unlink_rejecting, Hrej. }
  assert (∀ k, GCS._getMetadataPath (GCS.with_bucket p1 b2) k = GCS._getMetadataPath p k)
    as Hmp2 by (by subst p1).
  exists (GCS.with_bucket p1 b2), b2. split; [done|]. split; [done|]. split_and!.
  - eapply gcs_download_not_found; [done|]. by rewrite Hmp2.
  - unfold GCS.getFileMetadata. cbn [GCS.bucket GCS.with_bucket].
    fold (GCS.with_bucket p1 b2). rewrite Hmp2. unfold disk_read. by rewrite Hgone1.
  - unfold GCS.getFileMetadata. cbn [GCS.bucket GCS.with_bucket].
    fold (GCS.with_bucket p1 b2). rewrite Hmp2. unfold disk_read. by rewrite Hgone2.
  - unfold disk_read. do 2 apply try_unlink_absent.
    apply try_unlink_gone. by rewrite Hrej.
Qed.

Lemma gcs_delete_undoes_put p b src now buf name mime pub priv p1 :
  GCS.bucket p = Some b →
  GCS.uploadFile p src now buf name mime = (Ok (pub, priv), p1) →
  disk_read b (GCS._getFilePath p pub) = None →
  disk_read b (GCS._getMetadataPath p pub) = None →
  disk_read b (GCS._getMetadataPath p priv) = None →
  GCS.deleteFile p1 priv = (Ok true, p).
Proof.
  intros Hb Hup Hf Hm1 Hm2.
  destruct (gcs_upload_records _ _ _ _ _ _ _ _ _ _ Hb Hup)
    as (b' & Hb' & Hrej & Hkey & Hpub & Hpriv & Hbuf).
  apply (gcs_upload_ok _ _ _ _ _ _ _ _ _ _ Hb) in Hup as (_ & Hr1 & Hr2 & Hr3 & Hp1).
  unfold GCS.deleteFile. rewrite Hb'.
  assert (∀ k, GCS._getMetadataPath p1 k = GCS._getMetadataPath p k) as Hmp
    by (by subst p1).
  rewrite !Hmp. rewrite (disk_exists_true _ _ _ Hpriv). cbn [negb].
  rewrite Hpriv. cbn. rewrite JSON_parse_stringify. cbn [filePath publicKey].
  rewrite gcs_file_path_truthy by done. rewrite Hmp.
  pose proof (gcs_file_path_ne_metadata_path p pub pub Hkey) as Hne1.
  pose proof (gcs_file_path_ne_metadata_path p pub priv Hkey) as Hne2.
  subst p1. cbn in Hb'. injection Hb' as <-.
  destruct p as [cfg pre [b0|]]; [|done]. cbn in Hb. injection Hb as ->.
  destruct b as [e r]. unfold disk_read in *. cbn [entries rejecting] in *.
  unfold GCS.with_bucket. cbn [GCS.config_ GCS.metadataPrefix].
  do 3 f_equal.
  set (mp := GCS._getMetadataPath _ pub) in *.
  set (mq := GCS._getMetadataPath _ priv) in *.
  set (fp := GCS._getFilePath _ pub) in *.
  rewrite (insert_insert_ne _ mp fp), (insert_insert_ne _ mq fp) by done.
  rewrite try_unlink_insert by done.
  rewrite !delete_insert_ne, (delete_id e) by done.
  destruct (decide (mp = mq)) as [<-|Hne].
  - rewrite try_unlink_insert by done. rewrite delete_insert_id by done.
    by apply try_unlink_missing.
  - rewrite (insert_insert_ne _ mq mp) by done.
    rewrite try_unlink_insert by done.
    rewrite delete_insert_ne, (delete_id e) by done.
    rewrite try_unlink_insert by done. by rewrite delete_id.
Qed.

Lemma gcs_put_frame p b src now buf name mime pub priv p1 key :
  GCS.bucket p = Some b →
  GCS.uploadFile p src now buf name mime = (Ok (pub, priv), p1) →
  is_key key → key ≠ pub → key ≠ priv →
  ∃ b1, GCS.bucket p1 = Some b1 ∧
        GCS.getFileMetadata p1 key = GCS.getFileMetadata p key ∧
        disk_read b1 (GCS._getFilePath p key) = disk_read b (GCS._getFilePath p key).
Proof.
  intros Hb Hup Hk Hne1 Hne2.
  assert (is_key pub) as Hpub.
  { by destruct (gcs_upload_records _ _ _ _ _ _ _ _ _ _ Hb Hup) as (? & _ & _ & ? & _). }
  apply (gcs_upload_ok _ _ _ _ _ _ _ _ _ _ Hb) in Hup as (_ & _ & _ & _ & ->).
  eexists. split; [done|].
  assert (GCS._getMetadataPath p key ≠ GCS._getMetadataPath p pub)
    by (by intros ?%gcs_metadata_path_inj).
  assert (GCS._getMetadataPath p key ≠ GCS._getMetadataPath p priv)
    by (by intros ?%gcs_metadata_path_inj).
  assert (GCS._getFilePath p key ≠ GCS._getFilePath p pub)
    by (by intros ?%gcs_file_path_inj).
  split.
  - unfold GCS.getFileMetadata. cbn [GCS.bucket GCS.with_bucket]. rewrite Hb.
    change (GCS._getMetadataPath (GCS.with_bucket p ?d) ?k)
      with (GCS._getMetadataPath p k).
    unfold disk_read. cbn [entries].
    by rewrite !lookup_insert_ne
      by first [by apply not_eq_sym | by apply gcs_file_path_ne_metadata_path].
  - unfold disk_read. cbn [entries].
    by rewrite !lookup_insert_ne
      by first [by apply not_eq_sym
               | by apply not_eq_sym, gcs_file_path_ne_metadata_path].
Qed.

End CloudTimeStamps.

(** ** Storage: metadata, time stamps and removal *)

(** X1. After a completed [uploadFile], [getFileMetadata] answers under the
    private key and under the public key alike: the object has never been
    read ([lastAccessed] is [null]) and was created at the time of the
    upload. *)
Theorem metadata_after_put `{Json} :
  (∀ p src now buf name mime pub priv p1 key,
     Local.uploadFile p src now buf name mime = (Ok (pub, priv), p1) →
     key = pub ∨ key = priv →
     Local.getFileMetadata p1 key = Ok (None, now)) ∧
  (∀ p b src now buf name mime pub priv p1 key,
     GCS.bucket p = Some b →
     GCS.uploadFile p src now buf name mime = (Ok (pub, priv), p1) →
     key = pub ∨ key = priv →
     GCS.getFileMetadata p1 key = Ok (None, now)).
Proof.
  split.
  - apply local_metadata_after_put.
  - apply gcs_metadata_after_put.
Qed.

Lemma metadata_after_put_witness :
  Local.getFileMetadata (H := Codec.codec) local_stored demo_priv = Ok (None, 1000) ∧
  GCS.getFileMetadata (H := Codec.codec) gcs_stored demo_pub = Ok (None, 1000).
Proof.
  split.
  - apply (proj1 (metadata_after_put (H := Codec.codec))
             local_empty demo_entropy 1000 demo_content "hi.txt" "text/plain"
             demo_pub demo_priv local_stored demo_priv).
    + reflexivity.
    + by right.
  - apply (proj2 (metadata_after_put (H := Codec.codec))
             gcs_empty (Disk ∅ ∅) demo_entropy 1000 demo_content "hi.txt" "text/plain"
             demo_pub demo_priv gcs_stored demo_pub).
    + reflexivity.
    + reflexivity.
    + by left.
Defined.

(** X2. Whenever [downloadFile] returns, in any state of the store: there
    was a metadata record under the key, the MIME type and the original
    name returned are the record's, the buffer is the content object that
    was read, and afterwards [getFileMetadata] reports the time of the
    download as [lastAccessed], with [createdAt] unchanged, both under the
    key that was used and under the private key named in the record. *)
Theorem get_stamps_both_records `{Json} :
  (∀ p now key r p2,
     Local.downloadFile p now key = (Ok r, p2) →
     ∃ m, disk_read (Local.metadataFolder p) (Local._getMetadataPath key)
            ≫= JSON_parse = Some m ∧
          r.1.2 = mimeType m ∧ r.2 = originalName m ∧
          disk_read (Local.filesFolder p) (Local._getFilePath key) = Some r.1.1 ∧
          Local.filesFolder p2 = Local.filesFolder p ∧
          Local.getFileMetadata p2 key = Ok (Some now, createdAt m) ∧
          Local.getFileMetadata p2 (privateKey m) = Ok (Some now, createdAt m)) ∧
  (∀ p b now key r p2,
     GCS.bucket p = Some b →
     GCS.downloadFile p now key = (Ok r, p2) →
     ∃ m, disk_read b (GCS._getMetadataPath p key) ≫= JSON_parse = Some m ∧
          r.1.2 = mimeType m ∧ r.2 = originalName m ∧
          disk_read b (Js.or_string (filePath m) (GCS._getFilePath p key))
            = Some r.1.1 ∧
          GCS.getFileMetadata p2 key = Ok (Some now, createdAt m) ∧
          GCS.getFileMetadata p2 (privateKey m) = Ok (Some now, createdAt m)).
Proof.
  split.
  - apply local_download_stamps.
  - apply gcs_download_stamps.
Qed.

Lemma get_stamps_both_records_witness :
  Local.getFileMetadata (H := Codec.codec) local_read demo_pub = Ok (Some 3000, 1000) ∧
  GCS.getFileMetadata (H := Codec.codec) gcs_read demo_pub = Ok (Some 3000, 1000).
Proof.
  split.
  - destruct (proj1 (get_stamps_both_records (H := Codec.codec))
                local_stored 3000 demo_pub _ local_read local_read_eq)
      as (m & Hm & _ & _ & _ & _ & Hpub & _).
    unfold Local._getMetadataPath in Hm.
    rewrite (local_stored_record demo_pub (or_introl eq_refl)) in Hm.
    injection Hm as <-. exact Hpub.
  - destruct gcs_stored_bucket as (b & Hb & _ & _ & Hrec).
    destruct (proj2 (get_stamps_both_records (H := Codec.codec))
                gcs_stored b 3000 demo_pub _ gcs_read Hb gcs_read_eq)
      as (m & Hm & _ & _ & _ & Hpub & _).
    rewrite (Hrec demo_pub (or_introl eq_refl)) in Hm.
    injection Hm as <-. exact Hpub.
Defined.

(** X3. [updateLastAccessed] does to the store what a completed
    [downloadFile] with the same key and time does to it; it leaves the
    store alone, and raises nothing, when no readable record is found under
    the key; it never touches the content folder of the local provider; and
    after a completed upload it sets [lastAccessed] in the records of both
    keys. *)
Theorem update_last_accessed_stamps_like_get `{Json} :
  (∀ p now key r p2,
     Local.downloadFile p now key = (Ok r, p2) →
     Local.updateLastAccessed p now key = p2) ∧
  (∀ p now key,
     disk_read (Local.metadataFolder p) (Local._getMetadataPath key)
       ≫= JSON_parse = None →
     Local.updateLastAccessed p now key = p) ∧
  (∀ p now key,
     Local.filesFolder (Local.updateLastAccessed p now key) = Local.filesFolder p) ∧
  (∀ p src now buf name mime pub priv p1 now' key,
     Local.uploadFile p src now buf name mime = (Ok (pub, priv), p1) →
     key = pub ∨ key = priv →
     Local.getFileMetadata (Local.updateLastAccessed p1 now' pub) key
     = Ok (Some now', now)) ∧
  (∀ p b now key r p2,
     GCS.bucket p = Some b →
     GCS.downloadFile p now key = (Ok r, p2) →
     GCS.updateLastAccessed p now key = (Ok tt, p2)) ∧
  (∀ p b now key,
     GCS.bucket p = Some b →
     disk_read b (GCS._getMetadataPath p key) ≫= JSON_parse = None →
     GCS.updateLastAccessed p now key = (Ok tt, p)) ∧
  (∀ p b src now buf name mime pub priv p1 now' key,
     GCS.bucket p = Some b →
     GCS.uploadFile p src now buf name mime = (Ok (pub, priv), p1) →
     key = pub ∨ key = priv →
     ∃ p2, GCS.updateLastAccessed p1 now' pub = (Ok tt, p2) ∧
           GCS.getFileMetadata p2 key = Ok (Some now', now)).
Proof.
  split_and!.
  - apply local_update_matches_download.
  - apply local_update_absent.
  - apply local_update_keeps_content.
  - apply local_update_after_put.
  - apply gcs_update_matches_download.
  - apply gcs_update_absent.
  - apply gcs_update_after_put.
Qed.

Lemma update_last_accessed_stamps_like_get_witness :
  Local.updateLastAccessed (H := Codec.codec) local_stored 3000 demo_pub = local_read ∧
  Local.updateLastAccessed (H := Codec.codec) local_empty 3000 demo_pub = local_empty ∧
  Local.getFileMetadata (H := Codec.codec)
    (Local.updateLastAccessed (H := Codec.codec) local_stored 3000 demo_pub) demo_priv
  = Ok (Some 3000, 1000) ∧
  GCS.updateLastAccessed (H := Codec.codec) gcs_stored 3000 demo_pub
  = (Ok tt, gcs_read) ∧
  GCS.updateLastAccessed (H := Codec.codec) gcs_empty 3000 demo_pub
  = (Ok tt, gcs_empty) ∧
  (∃ p2, GCS.updateLastAccessed (H := Codec.codec) gcs_stored 3000 demo_pub
         = (Ok tt, p2) ∧
         GCS.getFileMetadata (H := Codec.codec) p2 demo_priv = Ok (Some 3000, 1000)).
Proof.
  pose proof (update_last_accessed_stamps_like_get (H := Codec.codec))
    as (Hl1 & Hl2 & _ & Hl4 & Hg1 & Hg2 & Hg3).
  destruct gcs_stored_bucket as (b & Hb & _).
  split_and!.
  - apply (Hl1 local_stored 3000 demo_pub _ local_read local_read_eq).
  - apply Hl2. reflexivity.
  - apply (Hl4 local_empty demo_entropy 1000 demo_content "hi.txt" "text/plain"
             demo_pub demo_priv local_stored 3000 demo_priv).
    + reflexivity.
    + by right.
  - apply (Hg1 gcs_stored b 3000 demo_pub _ gcs_read Hb gcs_read_eq).
  - apply (Hg2 gcs_empty (Disk ∅ ∅)); reflexivity.
  - apply (Hg3 gcs_empty (Disk ∅ ∅) demo_entropy 1000 demo_content "hi.txt"
             "text/plain" demo_pub demo_priv gcs_stored 3000 demo_priv).
    + reflexivity.
    + reflexivity.
    + by right.
Defined.

(** X4. [deleteFile] with the private key of an uploaded object removes all
    three artifacts: it answers [true], the content is gone, a download
    under the public key fails with "File not found", and
    [getFileMetadata] fails with "File metadata not found" under either
    key. *)
Theorem delete_with_private_key_removes_everything `{Json} :
  (∀ p src now buf name mime pub priv p1 now',
     Local.uploadFile p src now buf name mime = (Ok (pub, priv), p1) →
     ∃ p2, Local.deleteFile p1 priv = (Ok true, p2) ∧
           Local.downloadFile p2 now' pub = (Err FileNotFound, p2) ∧
           Local.getFileMetadata p2 pub = Err MetadataNotFound ∧
           Local.getFileMetadata p2 priv = Err MetadataNotFound ∧
           disk_read (Local.filesFolder p2) (Local._getFilePath pub) = None) ∧
  (∀ p b src now buf name mime pub priv p1 now',
     GCS.bucket p = Some b →
     GCS.uploadFile p src now buf name mime = (Ok (pub, priv), p1) →
     ∃ p2 b2, GCS.deleteFile p1 priv = (Ok true, p2) ∧
              GCS.bucket p2 = Some b2 ∧
              GCS.downloadFile p2 now' pub = (Err FileNotFound, p2) ∧
              GCS.getFileMetadata p2 pub = Err MetadataNotFound ∧
              GCS.getFileMetadata p2 priv = Err MetadataNotFound ∧
              disk_read b2 (GCS._getFilePath p pub) = None).
Proof.
  split.
  - apply local_delete_after_put.
  - apply gcs_delete_after_put.
Qed.

Lemma delete_with_private_key_removes_everything_witness :
  (∃ p2, Local.deleteFile (H := Codec.codec) local_stored demo_priv = (Ok true, p2) ∧
         Local.downloadFile (H := Codec.codec) p2 2000 demo_pub
         = (Err FileNotFound, p2)) ∧
  (∃ p2, GCS.deleteFile (H := Codec.codec) gcs_stored demo_priv = (Ok true, p2) ∧
         GCS.downloadFile (H := Codec.codec) p2 2000 demo_pub
         = (Err FileNotFound, p2)).
Proof.
  split.
  - destruct (proj1 (delete_with_private_key_removes_everything (H := Codec.codec))
                local_empty demo_entropy 1000 demo_content "hi.txt" "text/plain"
                demo_pub demo_priv local_stored 2000 eq_refl)
      as (p2 & Hdel & Hget & _).
    exists p2. split; [exact Hdel | exact Hget].
  - destruct (proj2 (delete_with_private_key_removes_everything (H := Codec.codec))
                gcs_empty (Disk ∅ ∅) demo_entropy 1000 demo_content "hi.txt"
                "text/plain" demo_pub demo_priv gcs_stored 2000 eq_refl eq_refl)
      as (p2 & b2 & Hdel & _ & Hget & _).
    exists p2. split; [exact Hdel | exact Hget].
Defined.

(** X5. Deleting an object with its private key undoes the upload: when
    the three names the upload wrote were free before, the store after
    [uploadFile] and [deleteFile] is the store before the upload. *)
Theorem delete_undoes_put `{Json} :
  (∀ p src now buf name mime pub priv p1,
     Local.uploadFile p src now buf name mime = (Ok (pub, priv), p1) →
     disk_read (Local.filesFolder p) (Local._getFilePath pub) = None →
     disk_read (Local.metadataFolder p) (Local._getMetadataPath pub) = None →
     disk_read (Local.metadataFolder p) (Local._getMetadataPath priv) = None →
     Local.deleteFile p1 priv = (Ok true, p)) ∧
  (∀ p b src now buf name mime pub priv p1,
     GCS.bucket p = Some b →
     GCS.uploadFile p src now buf name mime = (Ok (pub, priv), p1) →
     disk_read b (GCS._getFilePath p pub) = None →
     disk_read b (GCS._getMetadataPath p pub) = None →
     disk_read b (GCS._getMetadataPath p priv) = None →
     GCS.deleteFile p1 priv = (Ok true, p)).
Proof.
  split.
  - apply local_delete_undoes_put.
  - apply gcs_delete_undoes_put.
Qed.

Lemma delete_undoes_put_witness :
  Local.deleteFile (H := Codec.codec) local_stored demo_priv = (Ok true, local_empty) ∧
  GCS.deleteFile (H := Codec.codec) gcs_stored demo_priv = (Ok true, gcs_empty).
Proof.
  split.
  - apply (proj1 (delete_undoes_put (H := Codec.codec))
             local_empty demo_entropy 1000 demo_content "hi.txt" "text/plain"
             demo_pub demo_priv local_stored); reflexivity.
  - apply (proj2 (delete_undoes_put (H := Codec.codec))
             gcs_empty (Disk ∅ ∅) demo_entropy 1000 demo_content "hi.txt" "text/plain"
             demo_pub demo_priv gcs_stored); reflexivity.
Defined.

(** X6. Objects do not interfere. The keys are those the service hands
    out, strings of hex digits, which name a file or an object as they
    stand. An upload changes nothing for such a key other than the two it
    returns: [getFileMetadata] answers as before and, on the local
    provider, [downloadFile] returns what it returned before (in the
    bucket: the content object of the key is as before). On the local
    provider a deletion by such a key, of a record whose public key is such
    a key, changes nothing for a third one. *)
Theorem other_objects_are_untouched `{Json} :
  (∀ p src now buf name mime pub priv p1 now' key,
     Local.uploadFile p src now buf name mime = (Ok (pub, priv), p1) →
     is_key key → key ≠ pub → key ≠ priv →
     Local.getFileMetadata p1 key = Local.getFileMetadata p key ∧
     (Local.downloadFile p1 now' key).1 = (Local.downloadFile p now' key).1) ∧
  (∀ p key0 m p2 now' key,
     disk_read (Local.metadataFolder p) (Local._getMetadataPath key0)
       ≫= JSON_parse = Some m →
     Local.deleteFile p key0 = (Ok true, p2) →
     is_key key0 → is_key (publicKey m) →
     is_key key → key ≠ key0 → key ≠ publicKey m →
     Local.getFileMetadata p2 key = Local.getFileMetadata p key ∧
     (Local.downloadFile p2 now' key).1 = (Local.downloadFile p now' key).1) ∧
  (∀ p b src now buf name mime pub priv p1 key,
     GCS.bucket p = Some b →
     GCS.uploadFile p src now buf name mime = (Ok (pub, priv), p1) →
     is_key key → key ≠ pub → key ≠ priv →
     ∃ b1, GCS.bucket p1 = Some b1 ∧
           GCS.getFileMetadata p1 key = GCS.getFileMetadata p key ∧
           disk_read b1 (GCS._getFilePath p key) = disk_read b (GCS._getFilePath p key)).
Proof.
  split_and!.
  - intros p src now buf name mime pub priv p1 now' key Hup _.
    by eapply local_put_frame.
  - intros p key0 m p2 now' key Hm Hdel _ _ _.
    by apply local_delete_frame.
  - apply gcs_put_frame.
Qed.

Lemma local_stored_deleted :
  Local.deleteFile (H := Codec.codec) local_stored demo_priv = (Ok true, local_empty).
Proof.
  apply (local_delete_undoes_put (H := Codec.codec)
           local_empty demo_entropy 1000 demo_content "hi.txt" "text/plain"
           demo_pub demo_priv local_stored); reflexivity.
Qed.

Lemma local_two_stored_eq :
  Local.uploadFile (H := Codec.codec) local_stored demo_entropy2 3000000000
    [x6f; x6b] "ok.txt" "text/plain"
  = (Ok (demo_pub2, demo_priv2), local_two_stored).
Proof. reflexivity. Qed.

Lemma demo_keys2_are_keys : is_key demo_pub2 ∧ is_key demo_priv2.
Proof. apply generateKeys_is_key. Qed.

(** Two objects in the local store. The second upload leaves the first
    object as it was, and so does the deletion of the second; in the
    bucket the upload leaves the content object of an unused key absent. *)
Lemma other_objects_are_untouched_witness :
  (Local.getFileMetadata (H := Codec.codec) local_two_stored demo_pub
   = Local.getFileMetadata (H := Codec.codec) local_stored demo_pub ∧
   (Local.downloadFile (H := Codec.codec) local_two_stored 2000 demo_pub).1
   = (Local.downloadFile (H := Codec.codec) local_stored 2000 demo_pub).1) ∧
  (∃ p2,
     Local.deleteFile (H := Codec.codec) local_two_stored demo_priv2 = (Ok true, p2) ∧
     Local.getFileMetadata (H := Codec.codec) p2 demo_pub
     = Local.getFileMetadata (H := Codec.codec) local_two_stored demo_pub ∧
     (Local.downloadFile (H := Codec.codec) p2 2000 demo_pub).1
     = (Local.downloadFile (H := Codec.codec) local_two_stored 2000 demo_pub).1) ∧
  (∃ b1, GCS.bucket gcs_stored = Some b1 ∧
         GCS.getFileMetadata (H := Codec.codec) gcs_stored "00"
         = GCS.getFileMetadata (H := Codec.codec) gcs_empty "00" ∧
         disk_read b1 (GCS._getFilePath gcs_empty "00")
         = disk_read (Disk ∅ ∅) (GCS._getFilePath gcs_empty "00")).
Proof.
  pose proof (other_objects_are_untouched (H := Codec.codec)) as (Hput & Hdel & Hgcs).
  pose proof demo_keys_are_keys as Hk1.
  destruct demo_keys2_are_keys as [Hkpub2 Hkpriv2].
  split; [|split].
  - apply (Hput local_stored demo_entropy2 3000000000 [x6f; x6b] "ok.txt" "text/plain"
             demo_pub2 demo_priv2 local_two_stored 2000 demo_pub).
    + exact local_two_stored_eq.
    + exact (proj1 Hk1).
    + by vm_compute.
    + by vm_compute.
  - set (m2 := Metadata demo_pub2 demo_priv2 "ok.txt" "text/plain" 3000000000 None
                 2%nat None).
    destruct (local_upload_records (H := Codec.codec) _ _ _ _ _ _ _ _ _
                local_two_stored_eq) as (_ & Hpriv & _).
    assert (disk_read (Local.metadataFolder local_two_stored)
              (Local._getMetadataPath demo_priv2)
              ≫= JSON_parse (Json := Codec.codec) = Some m2) as Hm.
    { unfold Local._getMetadataPath. rewrite Hpriv. cbn [mbind option_bind].
      apply Codec.parse_stringify. }
    assert (Local.deleteFile (H := Codec.codec) local_two_stored demo_priv2
            = (Ok true, local_stored)) as Hdeleted.
    { apply (local_delete_undoes_put (H := Codec.codec) local_stored demo_entropy2
               3000000000 [x6f; x6b] "ok.txt" "text/plain" demo_pub2 demo_priv2
               local_two_stored local_two_stored_eq); by vm_compute. }
    exists local_stored. split; [exact Hdeleted|].
    apply (Hdel local_two_stored demo_priv2 m2 local_stored 2000 demo_pub Hm Hdeleted).
    + exact Hkpriv2.
    + exact Hkpub2.
    + exact (proj1 Hk1).
    + by vm_compute.
    + by vm_compute.
  - apply (Hgcs gcs_empty (Disk ∅ ∅) demo_entropy 1000 demo_content "hi.txt"
             "text/plain" demo_pub demo_priv gcs_stored "00").
    + reflexivity.
    + reflexivity.
    + split; [reflexivity | discriminate].
    + by vm_compute.
    + by vm_compute.
Defined.

(** ** Usage keys *)

Lemma all_chars_app P a b :
  Js.all_chars P (a +:+ b) = Js.all_chars P a && Js.all_chars P b.
Proof.
  induction a as [|x a IH]; [done|].
  rewrite string_app_cons. cbn [Js.all_chars]. by rewrite IH, andb_assoc.
Qed.

Lemma lacks_app_sep c a b : lacks c (a +:+ String c b) = false.
Proof.
  unfold lacks. rewrite all_chars_app. cbn [Js.all_chars].
  rewrite Ascii.eqb_refl. cbn. apply andb_false_r.
Qed.

(** A string is cut in one way only at its last separator. *)
Lemma split_at_last c a a' b b' :
  lacks c b = true → lacks c b' = true →
  a +:+ String c b = a' +:+ String c b' → a = a' ∧ b = b'.
Proof.
  intros Hb Hb'. revert a'. induction a as [|x a IH]; intros [|x' a'] Heq.
  - rewrite !string_app_nil_l in Heq. by injection Heq as ->.
  - rewrite string_app_nil_l, string_app_cons in Heq. injection Heq as <- ->.
    by rewrite lacks_app_sep in Hb.
  - rewrite string_app_nil_l, string_app_cons in Heq. injection Heq as -> <-.
    by rewrite lacks_app_sep in Hb'.
  - rewrite !string_app_cons in Heq. injection Heq as -> Heq.
    destruct (IH _ Heq) as [-> ->]. done.
Qed.

Lemma pretty_N_go_all P x s :
  (∀ n, P (pretty_N_char n) = true) →
  Js.all_chars P s = true → Js.all_chars P (pretty_N_go x s) = true.
Proof.
  intros HP. revert s. induction (N.lt_wf_0 x) as [x _ IH]; intros s Hs.
  assert (x = 0 ∨ 0 < x)%N as [->|?] by lia.
  - by rewrite pretty_N_go_0.
  - rewrite pretty_N_go_step by done. apply IH.
    { by apply N.div_lt. }
    cbn [Js.all_chars]. by rewrite HP, Hs.
Qed.

Lemma pretty_N_all P (x : N) :
  (∀ n, P (pretty_N_char n) = true) → Js.all_chars P (pretty x) = true.
Proof.
  intros HP. unfold pretty, pretty_N. case_decide.
  - cbn. rewrite andb_true_r. exact (HP 0%N).
  - by apply pretty_N_go_all.
Qed.

Lemma pretty_Z_nonneg_all P (z : Z) :
  (∀ n, P (pretty_N_char n) = true) → 0 ≤ z → Js.all_chars P (pretty z) = true.
Proof.
  intros HP Hz. destruct z as [|q|q]; [|by apply (pretty_N_all P (Npos q))|lia].
  cbn. rewrite andb_true_r. exact (HP 0%N).
Qed.

Lemma pretty_Z_all P (z : Z) :
  (∀ n, P (pretty_N_char n) = true) → P "-"%char = true →
  Js.all_chars P (pretty z) = true.
Proof.
  intros HP Hd. destruct z as [|q|q].
  - cbn. rewrite andb_true_r. exact (HP 0%N).
  - by apply (pretty_N_all P (Npos q)).
  - change (pretty (Z.neg q)) with ("-" +:+ pretty (Npos q)).
    rewrite all_chars_app. cbn [Js.all_chars]. rewrite Hd. cbn.
    by apply pretty_N_all.
Qed.

Lemma digit_lacks c :
  (∀ n, pretty_N_char n ≠ c) →
  ∀ n, negb (Ascii.eqb (pretty_N_char n) c) = true.
Proof. intros Hc n. apply negb_true_iff, Ascii.eqb_neq, Hc. Qed.

Lemma digit_ne_colon n : pretty_N_char n ≠ ":"%char.
Proof. unfold pretty_N_char. by repeat case_match. Qed.

Lemma digit_ne_dash n : pretty_N_char n ≠ "-"%char.
Proof. unfold pretty_N_char. by repeat case_match. Qed.

Lemma getTodayKey_lacks_colon d : lacks ":" (UsageLimiter.getTodayKey d) = true.
Proof.
  unfold UsageLimiter.getTodayKey, lacks.
  rewrite !all_chars_app.
  rewrite !pretty_Z_all by (done || apply digit_lacks, digit_ne_colon). done.
Qed.

Lemma getUsageKey_inj ip d ip' d' :
  UsageLimiter.getUsageKey ip d = UsageLimiter.getUsageKey ip' d' →
  ip = ip' ∧ UsageLimiter.getTodayKey d = UsageLimiter.getTodayKey d'.
Proof.
  unfold UsageLimiter.getUsageKey. intros Heq.
  apply (split_at_last ":"%char) in Heq; [done|apply getTodayKey_lacks_colon..].
Qed.

Lemma getTodayKey_inj d d' :
  0 ≤ UsageLimiter.getMonth d → 0 ≤ UsageLimiter.getDate d →
  0 ≤ UsageLimiter.getMonth d' → 0 ≤ UsageLimiter.getDate d' →
  UsageLimiter.getTodayKey d = UsageLimiter.getTodayKey d' → d = d'.
Proof.
  destruct d as [y m dd], d' as [y' m' dd']. cbn. intros Hm Hd Hm' Hd'.
  unfold UsageLimiter.getTodayKey. cbn.
  change (?a +:+ "-" +:+ ?b +:+ "-" +:+ ?c)
    with (a +:+ String "-" b +:+ String "-" c).
  rewrite <- !string_app_assoc.
  intros [Heq Hdd]%(split_at_last "-"%char);
    [|by apply pretty_Z_nonneg_all; [apply digit_lacks, digit_ne_dash|]..].
  apply (split_at_last "-"%char) in Heq as [Hy Hmm];
    [|by apply pretty_Z_nonneg_all; [apply digit_lacks, digit_ne_dash|]..].
  apply (inj pretty) in Hy, Hmm, Hdd. by subst.
Qed.

(** ** The usage store *)

Section LedgerCounters.
Import UsageLimiter.
Implicit Types (store : gmap string usage) (req : request) (now : date).

Lemma getUsageRecord_counters store ip now k :
  default 0 (upload <$> (getUsageRecord store ip now).2 !! k)
    = default 0 (upload <$> store !! k) ∧
  default 0 (download <$> (getUsageRecord store ip now).2 !! k)
    = default 0 (download <$> store !! k).
Proof.
  unfold getUsageRecord. destruct (store !! getUsageKey ip now) eqn:Hs; [done|].
  cbn. rewrite lookup_insert. case_decide; [|done]. subst k. by rewrite Hs.
Qed.

Lemma add_upload_counters store key n k :
  default 0 (upload <$> add_upload key n store !! k)
    = default 0 (upload <$> store !! k)
      + (if decide (key = k) then match store !! k with Some _ => n | None => 0 end else 0) ∧
  default 0 (download <$> add_upload key n store !! k)
    = default 0 (download <$> store !! k).
Proof.
  unfold add_upload. rewrite lookup_alter. case_decide.
  - subst k. destruct (store !! key); cbn; split; lia.
  - split; lia.
Qed.

Lemma add_download_counters store key n k :
  default 0 (upload <$> add_download key n store !! k)
    = default 0 (upload <$> store !! k) ∧
  default 0 (download <$> add_download key n store !! k)
    = default 0 (download <$> store !! k)
      + (if decide (key = k) then match store !! k with Some _ => n | None => 0 end else 0).
Proof.
  unfold add_download. rewrite lookup_alter. case_decide.
  - subst k. destruct (store !! key); cbn; split; lia.
  - split; lia.
Qed.

Lemma trackDownload_counters ip n now store k :
  default 0 (upload <$> trackDownload ip n now store !! k)
    = default 0 (upload <$> store !! k) ∧
  default 0 (download <$> trackDownload ip n now store !! k)
    = default 0 (download <$> store !! k)
      + (if decide (getUsageKey ip now = k) then n else 0).
Proof.
  unfold trackDownload.
  pose proof (getUsageRecord_key store ip now) as Hkey.
  pose proof (getUsageRecord_present store ip now) as Hin.
  pose proof (getUsageRecord_counters store ip now k) as [Hu Hd].
  destruct (getUsageRecord store ip now) as [key store1].
  cbn in Hkey, Hin, Hu, Hd. subst key.
  destruct (add_download_counters store1 (getUsageKey ip now) n k) as [Hu' Hd'].
  rewrite Hu', Hd', Hu, Hd. split; [done|].
  case_decide; [|done]. subst k. by destruct Hin as [u ->].
Qed.

(** The original response methods count nothing. *)
Lemma call_json_original fw req store :
  call_json fw (Response OriginalSend OriginalJson) OriginalJson req store = store.
Proof. cbn. by destruct fw. Qed.

End LedgerCounters.

(** X7. The key of a usage record identifies the client and the day:
    different client addresses never share a record, also when addresses
    contain colons as IPv6 addresses do, and neither do different calendar
    days, although the day string is not zero-padded. *)
Theorem usage_keys_identify_client_and_day :
  (∀ ip d ip' d',
     ip ≠ ip' → UsageLimiter.getUsageKey ip d ≠ UsageLimiter.getUsageKey ip' d') ∧
  (∀ ip d ip' d',
     0 ≤ UsageLimiter.getMonth d → 0 ≤ UsageLimiter.getDate d →
     0 ≤ UsageLimiter.getMonth d' → 0 ≤ UsageLimiter.getDate d' →
     d ≠ d' → UsageLimiter.getUsageKey ip d ≠ UsageLimiter.getUsageKey ip' d').
Proof.
  split.
  - intros ip d ip' d' Hne [? _]%getUsageKey_inj. done.
  - intros ip d ip' d' Hm Hd Hm' Hd' Hne [_ Heq]%getUsageKey_inj.
    by apply getTodayKey_inj in Heq.
Qed.

Lemma usage_keys_identify_client_and_day_witness :
  UsageLimiter.getUsageKey "::1" demo_day
    ≠ UsageLimiter.getUsageKey "::ffff:10.0.0.1" demo_day ∧
  UsageLimiter.getUsageKey "10.0.0.1" (UsageLimiter.Date 2024 1 11)
    ≠ UsageLimiter.getUsageKey "10.0.0.1" (UsageLimiter.Date 2024 11 1).
Proof.
  split.
  - apply (proj1 usage_keys_identify_client_and_day). discriminate.
  - apply (proj2 usage_keys_identify_client_and_day); cbn; (lia || discriminate).
Defined.

(** X8. [trackDownload] adds the size to the download counter of the
    client for the day, creating the record when there is none; it changes
    no upload counter and no download counter of another client or another
    day. The sum is that of the source as long as the size, the counter and
    their sum are non-negative safe integers, where the addition of two
    doubles is exact. *)
Theorem track_download_accumulates ip n now store :
  (0 ≤ n → 0 ≤ bytes_downloaded store ip now →
   bytes_downloaded store ip now + n ≤ Js.MAX_SAFE_INTEGER →
   bytes_downloaded (UsageLimiter.trackDownload ip n now store) ip now
     = bytes_downloaded store ip now + n) ∧
  (∀ ip' d',
     bytes_uploaded (UsageLimiter.trackDownload ip n now store) ip' d'
     = bytes_uploaded store ip' d') ∧
  (∀ ip' d',
     ip' ≠ ip ∨ UsageLimiter.getTodayKey d' ≠ UsageLimiter.getTodayKey now →
     bytes_downloaded (UsageLimiter.trackDownload ip n now store) ip' d'
     = bytes_downloaded store ip' d').
Proof.
  unfold bytes_downloaded, bytes_uploaded. split_and!.
  - intros _ _ _.
    destruct (trackDownload_counters ip n now store (UsageLimiter.getUsageKey ip now))
      as [_ ->]. by case_decide.
  - intros ip' d'.
    by destruct (trackDownload_counters ip n now store (UsageLimiter.getUsageKey ip' d'))
      as [-> _].
  - intros ip' d' Hne.
    destruct (trackDownload_counters ip n now store (UsageLimiter.getUsageKey ip' d'))
      as [_ ->].
    case_decide as Heq; [|lia].
    apply getUsageKey_inj in Heq as [-> Hday]. destruct Hne as [?|Hne]; [done|].
    by rewrite Hday in Hne.
Qed.

(** Two downloads of 1024 and 512 bytes by one client on one day add up to
    1536 bytes for that client and to nothing for another. *)
Lemma track_download_accumulates_witness :
  let store1 := UsageLimiter.trackDownload "192.168.1.1" 1024 demo_day ∅ in
  let store2 := UsageLimiter.trackDownload "192.168.1.1" 512 demo_day store1 in
  bytes_downloaded store2 "192.168.1.1" demo_day
    = bytes_downloaded store1 "192.168.1.1" demo_day + 512 ∧
  bytes_downloaded store2 "192.168.1.1" demo_day = 1536 ∧
  bytes_downloaded store2 "192.168.1.2" demo_day
    = bytes_downloaded store1 "192.168.1.2" demo_day.
Proof.
  intros store1 store2.
  destruct (track_download_accumulates "192.168.1.1" 512 demo_day store1)
    as (Hown & _ & Hother).
  split_and!.
  - apply Hown; by vm_compute.
  - reflexivity.
  - apply Hother. left. discriminate.
Defined.

(** ** The shape of the usage store *)

Section LedgerShape.
Import UsageLimiter.
Implicit Types (store : gmap string usage) (req : request) (now : date).

Lemma ledger_wf_empty : ledger_wf ∅.
Proof. intros key r Hr. by rewrite lookup_empty in Hr. Qed.

Lemma ledger_wf_getUsageRecord store ip now :
  ledger_wf store → ledger_wf (getUsageRecord store ip now).2.
Proof.
  intros Hwf. unfold getUsageRecord.
  destruct (store !! getUsageKey ip now) eqn:Hs; [done|]. cbn.
  intros key r. rewrite lookup_insert. case_decide as Hk.
  - intros [= <-]. subst key. by exists ip, now.
  - apply Hwf.
Qed.

Lemma ledger_wf_alter store key f :
  (∀ u, lastReset (f u) = lastReset u) →
  ledger_wf store → ledger_wf (alter f key store).
Proof.
  intros Hf Hwf k r. rewrite lookup_alter. case_decide as Hk; [|apply Hwf].
  subst k. destruct (store !! key) as [u|] eqn:Hu; [|done]. cbn.
  intros [= <-]. rewrite Hf. by apply (Hwf key).
Qed.

Lemma ledger_wf_add_upload store key n :
  ledger_wf store → ledger_wf (add_upload key n store).
Proof. by apply ledger_wf_alter. Qed.

Lemma ledger_wf_add_download store key n :
  ledger_wf store → ledger_wf (add_download key n store).
Proof. by apply ledger_wf_alter. Qed.

Lemma ledger_wf_call_send h req store :
  ledger_wf store → ledger_wf (call_send h req store).
Proof.
  revert store. induction h as [|h IH key]; intros store Hwf; [done|].
  cbn. by apply IH, ledger_wf_add_upload.
Qed.

Lemma ledger_wf_call_json fw res h req store :
  ledger_wf store → ledger_wf (call_json fw res h req store).
Proof.
  revert store. induction h as [|h IH key]; intros store Hwf; cbn.
  - destruct fw; [by apply ledger_wf_call_send | done].
  - by apply IH, ledger_wf_add_upload.
Qed.

Lemma ledger_wf_trackDownload ip n now store :
  ledger_wf store → ledger_wf (trackDownload ip n now store).
Proof.
  intros Hwf. unfold trackDownload.
  pose proof (ledger_wf_getUsageRecord store ip now Hwf) as Hwf1.
  destruct (getUsageRecord store ip now) as [key store1].
  by apply ledger_wf_add_download.
Qed.

Lemma ledger_wf_uploadLimiter env fw req res now store :
  ledger_wf store → ledger_wf (uploadLimiter env fw req res now store).2.
Proof.
  intros Hwf. unfold uploadLimiter.
  pose proof (ledger_wf_getUsageRecord store (client req) now Hwf) as Hwf1.
  destruct (getUsageRecord store (client req) now) as [key store1].
  case_bool_decide; cbn; [by apply ledger_wf_call_json | done].
Qed.

Lemma ledger_wf_downloadLimiter env fw req res now store :
  ledger_wf store → ledger_wf (downloadLimiter env fw req res now store).2.
Proof.
  intros Hwf. unfold downloadLimiter.
  pose proof (ledger_wf_getUsageRecord store (client req) now Hwf) as Hwf1.
  destruct (getUsageRecord store (client req) now) as [key store1].
  case_bool_decide; cbn; [by apply ledger_wf_call_json | done].
Qed.

Lemma ledger_wf_getUsage env_up env_down ip now store :
  ledger_wf store → ledger_wf (getUsage env_up env_down ip now store).2.
Proof.
  intros Hwf. unfold getUsage.
  pose proof (ledger_wf_getUsageRecord store ip now Hwf) as Hwf1.
  by destruct (getUsageRecord store ip now) as [key store1].
Qed.

Lemma ledger_wf_cleanupOldRecords store now :
  ledger_wf store → ledger_wf (cleanupOldRecords store now).
Proof.
  intros Hwf key r [Hr _]%map_lookup_filter_Some. by apply (Hwf key).
Qed.

Lemma ledger_wf_post_files {St} env fw (sp : StorageProvider St) s src clock now
    req body store :
  ledger_wf store →
  ledger_wf (post_files env fw sp s src clock now req body store).1.2.
Proof.
  intros Hwf. unfold post_files.
  pose proof (ledger_wf_uploadLimiter env fw req
                (Response OriginalSend OriginalJson) now store Hwf) as Hwf1.
  destruct (uploadLimiter _ _ _ _ _ _) as [[res|] store1]; cbn in Hwf1; [|done].
  cbn [file]. destruct body as [f|]; cbn; [|by apply ledger_wf_call_json].
  destruct (uploadFile sp s src clock _ _ _) as [[keys|e] s1]; cbn;
    by apply ledger_wf_call_json.
Qed.

Lemma ledger_wf_get_files {St} env fw valid (sp : StorageProvider St) s clock now
    req key store :
  ledger_wf store →
  ledger_wf (Routes.get_files env fw valid sp s clock now req key store).1.2.
Proof.
  intros Hwf. unfold Routes.get_files.
  pose proof (ledger_wf_downloadLimiter env fw req
                (Response OriginalSend OriginalJson) now store Hwf) as Hwf1.
  destruct (downloadLimiter _ _ _ _ _ _) as [[res|] store1]; cbn in Hwf1; [|done].
  destruct (Js.blank key); cbn; [by apply ledger_wf_call_json|].
  destruct (downloadFile sp s clock key) as [[[[buf mime] name]|e] s1].
  - destruct (_ && _); cbn.
    + by apply ledger_wf_call_send, ledger_wf_trackDownload.
    + by apply ledger_wf_call_json, ledger_wf_trackDownload.
  - destruct e; cbn; by apply ledger_wf_call_json.
Qed.

(** What the sweep leaves of the counters of a client and a day. *)
Lemma cleanupOldRecords_counters store now ip d :
  ledger_wf store →
  default 0 (upload <$> cleanupOldRecords store now !! getUsageKey ip d)
    = (if decide (getTodayKey d = getTodayKey now)
       then default 0 (upload <$> store !! getUsageKey ip d) else 0) ∧
  default 0 (download <$> cleanupOldRecords store now !! getUsageKey ip d)
    = (if decide (getTodayKey d = getTodayKey now)
       then default 0 (download <$> store !! getUsageKey ip d) else 0).
Proof.
  intros Hwf. unfold cleanupOldRecords.
  destruct (store !! getUsageKey ip d) as [r|] eqn:Hr.
  - destruct (Hwf _ _ Hr) as (ip0 & d0 & [_ Hday]%getUsageKey_inj & Hreset).
    rewrite <- Hday in Hreset.
    case_decide as Htoday.
    + erewrite map_lookup_filter_Some_2; [done|done|]. cbn. congruence.
    + rewrite map_lookup_filter_None_2; [done|]. right. intros r' Hr'.
      rewrite Hr in Hr'. injection Hr' as <-. cbn. congruence.
  - rewrite map_lookup_filter_None_2 by (by left). cbn. by case_decide.
Qed.

End LedgerShape.

(** X10. The hourly sweep [cleanupOldRecords] keeps the counters of the
    current day as they are and erases those of every other day, in a
    store whose every record lies under the key of a client and a day and
    carries that day in [lastReset]. *)
Theorem sweep_keeps_today_only store now :
  ledger_wf store →
  ∀ ip d,
    bytes_uploaded (UsageLimiter.cleanupOldRecords store now) ip d
      = (if decide (UsageLimiter.getTodayKey d = UsageLimiter.getTodayKey now)
         then bytes_uploaded store ip d else 0) ∧
    bytes_downloaded (UsageLimiter.cleanupOldRecords store now) ip d
      = (if decide (UsageLimiter.getTodayKey d = UsageLimiter.getTodayKey now)
         then bytes_downloaded store ip d else 0).
Proof. intros Hwf ip d. by apply cleanupOldRecords_counters. Qed.

Lemma sweep_keeps_today_only_witness :
  bytes_uploaded (UsageLimiter.cleanupOldRecords demo_ledger demo_day)
    "192.168.1.1" demo_day = 2048 ∧
  bytes_uploaded
    (UsageLimiter.cleanupOldRecords demo_ledger (UsageLimiter.Date 2024 0 18))
    "192.168.1.1" demo_day = 0.
Proof.
  assert (ledger_wf demo_ledger) as Hwf.
  { apply (ledger_wf_post_files None true accepting_provider tt demo_entropy 0
             demo_day demo_request (Some demo_file) ∅), ledger_wf_empty. }
  split.
  - destruct (sweep_keeps_today_only demo_ledger demo_day Hwf "192.168.1.1" demo_day)
      as [-> _]. reflexivity.
  - destruct (sweep_keeps_today_only demo_ledger (UsageLimiter.Date 2024 0 18) Hwf
                "192.168.1.1" demo_day) as [-> _]. reflexivity.
Defined.

(** X11. [getUsage] reports the two counters of the client for the day
    together with the two configured ceilings, and changes no counter of
    any client or day, although it creates the record when there is
    none. *)
Theorem usage_snapshot_reads_only env_up env_down ip now store :
  (UsageLimiter.getUsage env_up env_down ip now store).1
    = (bytes_uploaded store ip now, bytes_downloaded store ip now,
       UsageLimiter.UPLOAD_LIMIT env_up, UsageLimiter.DOWNLOAD_LIMIT env_down) ∧
  is_Some ((UsageLimiter.getUsage env_up env_down ip now store).2
             !! UsageLimiter.getUsageKey ip now) ∧
  ∀ ip' d',
    bytes_uploaded (UsageLimiter.getUsage env_up env_down ip now store).2 ip' d'
      = bytes_uploaded store ip' d' ∧
    bytes_downloaded (UsageLimiter.getUsage env_up env_down ip now store).2 ip' d'
      = bytes_downloaded store ip' d'.
Proof.
  unfold UsageLimiter.getUsage.
  pose proof (getUsageRecord_key store ip now) as Hkey.
  pose proof (getUsageRecord_uploaded store ip now) as Hup.
  pose proof (getUsageRecord_downloaded store ip now) as Hdown.
  pose proof (getUsageRecord_present store ip now) as Hin.
  pose proof (getUsageRecord_counters store ip now) as Hall.
  destruct (UsageLimiter.getUsageRecord store ip now) as [key store1].
  cbn in *. subst key. rewrite Hup, Hdown. split; [done|]. split; [done|].
  intros ip' d'. apply Hall.
Qed.

(** X12. The ceilings are never zero: an unset, unreadable or zero
    [UPLOAD_LIMIT] or [DOWNLOAD_LIMIT] stands for the default of 100 MB or
    500 MB, any other number is taken as it is. A client with nothing on
    record is therefore refused exactly when the configured ceiling is
    negative. *)
Theorem ceilings_from_environment :
  (∀ env, UsageLimiter.UPLOAD_LIMIT env ≠ 0 ∧ UsageLimiter.DOWNLOAD_LIMIT env ≠ 0) ∧
  (∀ env, env = None ∨ env = Some 0 →
     UsageLimiter.UPLOAD_LIMIT env = 104857600 ∧
     UsageLimiter.DOWNLOAD_LIMIT env = 524288000) ∧
  (∀ n, n ≠ 0 →
     UsageLimiter.UPLOAD_LIMIT (Some n) = n ∧ UsageLimiter.DOWNLOAD_LIMIT (Some n) = n) ∧
  (∀ env fw req res now,
     (UsageLimiter.uploadLimiter env fw req res now ∅).1 = UsageLimiter.TooManyRequests
     ↔ ∃ n, env = Some n ∧ n < 0) ∧
  (∀ env fw req res now,
     (UsageLimiter.downloadLimiter env fw req res now ∅).1 = UsageLimiter.TooManyRequests
     ↔ ∃ n, env = Some n ∧ n < 0).
Proof.
  unfold UsageLimiter.UPLOAD_LIMIT, UsageLimiter.DOWNLOAD_LIMIT, Js.or_number.
  split_and!.
  - intros [n|]; [|done]. by case_decide.
  - by intros env [-> | ->].
  - intros n Hn. by case_decide.
  - intros env fw req res now. rewrite uploadLimiter_denies.
    unfold UsageLimiter.UPLOAD_LIMIT, Js.or_number, bytes_uploaded.
    rewrite lookup_empty. cbn. destruct env as [n|].
    + case_decide.
      * subst n. split; [done|]. intros (n & [= <-] & ?). lia.
      * split; [intros; exists n; split; [done|lia] | intros (n' & [= <-] & ?); lia].
    + split; [done|]. by intros (n & ? & _).
  - intros env fw req res now. rewrite downloadLimiter_denies.
    unfold UsageLimiter.DOWNLOAD_LIMIT, Js.or_number, bytes_downloaded.
    rewrite lookup_empty. cbn. destruct env as [n|].
    + case_decide.
      * subst n. split; [done|]. intros (n & [= <-] & ?). lia.
      * split; [intros; exists n; split; [done|lia] | intros (n' & [= <-] & ?); lia].
    + split; [done|]. by intros (n & ? & _).
Qed.

Lemma ceilings_from_environment_witness :
  UsageLimiter.UPLOAD_LIMIT (Some 0) = 104857600 ∧
  UsageLimiter.DOWNLOAD_LIMIT (Some (-1)) = -1 ∧
  (UsageLimiter.uploadLimiter (Some (-1)) true demo_request
     (UsageLimiter.Response UsageLimiter.OriginalSend UsageLimiter.OriginalJson)
     demo_day ∅).1 = UsageLimiter.TooManyRequests.
Proof.
  destruct ceilings_from_environment as (_ & Hdefault & Hgiven & Hup & _).
  split_and!.
  - apply (Hdefault (Some 0)). by right.
  - apply (Hgiven (-1)). lia.
  - apply Hup. exists (-1). split; [done|lia].
Defined.

(** ** The routes *)

Section RouteLemmas.
Import UsageLimiter.
Implicit Types (store : gmap string usage) (req : request) (now : date).

Lemma same_usage_getUsageRecord store ip now :
  same_usage store (getUsageRecord store ip now).2.
Proof. intros ip' d'. apply getUsageRecord_counters. Qed.

Lemma same_usage_trans s1 s2 s3 : same_usage s1 s2 → same_usage s2 s3 → same_usage s1 s3.
Proof.
  intros H12 H23 ip d. destruct (H12 ip d) as [? ?], (H23 ip d) as [? ?].
  split; congruence.
Qed.

Lemma same_usage_add_upload_0 store key : same_usage store (add_upload key 0 store).
Proof.
  intros ip d. unfold bytes_uploaded, bytes_downloaded.
  destruct (add_upload_counters store key 0 (getUsageKey ip d)) as [-> ->].
  split; [|done]. case_decide; [|lia]. destruct (store !! _); lia.
Qed.

(** The upload route splits on the admission check, on the presence of a
    file part and on the outcome of the provider. *)
Lemma post_files_refused {St} env fw (sp : StorageProvider St) s src clock now
    req body store :
  UPLOAD_LIMIT env ≤ bytes_uploaded store (client req) now →
  post_files env fw sp s src clock now req body store
  = (429%nat, (getUsageRecord store (client req) now).2, s).
Proof.
  intros Hfull. unfold post_files, uploadLimiter.
  pose proof (getUsageRecord_key store (client req) now) as Hkey.
  pose proof (getUsageRecord_uploaded store (client req) now) as Hup.
  destruct (getUsageRecord store (client req) now) as [key store1].
  cbn in Hkey, Hup. subst key. rewrite Hup.
  rewrite bool_decide_eq_true_2 by done. cbn. by destruct fw.
Qed.

Lemma post_files_admitted {St} env (fw : bool) (sp : StorageProvider St) s src clock now
    req body store :
  bytes_uploaded store (client req) now < UPLOAD_LIMIT env →
  let key := getUsageKey (client req) now in
  let store1 := (getUsageRecord store (client req) now).2 in
  let charged (n : Z) :=
    let store2 := add_upload key n store1 in
    if fw then add_upload key n store2 else store2 in
  post_files env fw sp s src clock now req body store
  = match body with
    | None => (400%nat, charged 0, s)
    | Some f =>
        match uploadFile sp s src clock (buffer f) (originalname f) (mimetype f) with
        | (Ok _, s') => (201%nat, charged (size f), s')
        | (Err _, s') => (500%nat, charged (size f), s')
        end
    end.
Proof.
  intros Hbelow. unfold post_files, uploadLimiter.
  pose proof (getUsageRecord_key store (client req) now) as Hkey.
  pose proof (getUsageRecord_uploaded store (client req) now) as Hup.
  destruct (getUsageRecord store (client req) now) as [key store1].
  cbn in Hkey, Hup. subst key. rewrite Hup.
  rewrite bool_decide_eq_false_2 by lia. cbn.
  destruct body as [f|]; cbn.
  - destruct (uploadFile sp s src clock _ _ _) as [[keys|e] s1]; by destruct fw.
  - by destruct fw.
Qed.


End RouteLemmas.

(** X13. An upload request that is refused changes nothing. [POST /files]
    answers 429 exactly when the client's upload counter for the day has
    reached the ceiling, and 400 exactly when it is below the ceiling and
    the request carries no file; in both cases the provider state is the
    one before the request and no counter of any client or day has
    changed. *)
Theorem refused_upload_changes_nothing {St} (sp : StorageProvider St)
    env fw s src clock now req body store :
  let out := UsageLimiter.post_files env fw sp s src clock now req body store in
  (out.1.1 = 429%nat ↔
   UsageLimiter.UPLOAD_LIMIT env ≤ bytes_uploaded store (UsageLimiter.client req) now) ∧
  (out.1.1 = 400%nat ↔
   bytes_uploaded store (UsageLimiter.client req) now < UsageLimiter.UPLOAD_LIMIT env ∧
   body = None) ∧
  (out.1.1 = 429%nat ∨ out.1.1 = 400%nat → out.2 = s ∧ same_usage store out.1.2).
Proof.
  intros out. subst out.
  destruct (decide (UsageLimiter.UPLOAD_LIMIT env
                    ≤ bytes_uploaded store (UsageLimiter.client req) now)) as [Hfull|Hbelow].
  - rewrite post_files_refused by done. cbn. split_and!.
    + done.
    + split; [done|]. lia.
    + intros _. split; [done|]. apply same_usage_getUsageRecord.
  - rewrite post_files_admitted by lia. destruct body as [f|].
    + destruct (uploadFile sp s src clock _ _ _) as [[keys|e] s1]; cbn;
        (split_and!; [split; [done|lia] | split; [done|by intros [_ ?]] | by intros [?|?]]).
    + cbn. split_and!.
      * split; [done|lia].
      * split; [|done]. intros _. split; [lia|done].
      * intros _. split; [done|].
        eapply same_usage_trans; [apply same_usage_getUsageRecord|].
        destruct fw.
        -- eapply same_usage_trans; apply same_usage_add_upload_0.
        -- apply same_usage_add_upload_0.
Qed.


Lemma refused_upload_changes_nothing_witness :
  (UsageLimiter.post_files None true accepting_provider tt demo_entropy 0 demo_day
     demo_request None ∅).2 = tt ∧
  same_usage ∅
    (UsageLimiter.post_files None true accepting_provider tt demo_entropy 0 demo_day
       demo_request None ∅).1.2.
Proof.
  apply (proj2 (proj2 (refused_upload_changes_nothing accepting_provider None true tt
                         demo_entropy 0 demo_day demo_request None ∅))).
  right. reflexivity.
Defined.


Section DownloadRoute.
Import UsageLimiter.
Implicit Types (store : gmap string usage) (req : request) (now : date).
Context {St : Type}.
Variables (env : option Z) (fw : bool) (valid : string → bool).
Variable sp : StorageProvider St.

Lemma get_files_refused s clock now req key store :
  DOWNLOAD_LIMIT env ≤ bytes_downloaded store (client req) now →
  Routes.get_files env fw valid sp s clock now req key store
  = (Routes.Status 429, (getUsageRecord store (client req) now).2, s).
Proof.
  intros Hfull. unfold Routes.get_files, downloadLimiter.
  pose proof (getUsageRecord_key store (client req) now) as Hkey.
  pose proof (getUsageRecord_downloaded store (client req) now) as Hup.
  destruct (getUsageRecord store (client req) now) as [k store1].
  cbn in Hkey, Hup. subst k. rewrite Hup.
  rewrite bool_decide_eq_true_2 by done. cbn. by destruct fw.
Qed.

Lemma get_files_admitted s clock now req key store :
  bytes_downloaded store (client req) now < DOWNLOAD_LIMIT env →
  let store1 := (getUsageRecord store (client req) now).2 in
  Routes.get_files env fw valid sp s clock now req key store
  = if Js.blank key then (Routes.Status 400, store1, s)
    else
      match downloadFile sp s clock key with
      | (Ok (buffer, mimeType, originalName), s') =>
          let store2 :=
            trackDownload (client req) (Z.of_nat (length buffer)) now store1 in
          let disposition :=
            "attachment; filename=" +:+ Routes.dquote +:+ originalName
              +:+ Routes.dquote in
          if valid mimeType && valid disposition
          then (Routes.File buffer mimeType disposition, store2, s')
          else (Routes.Status 500, store2, s')
      | (Err FileNotFound, s') => (Routes.Status 404, store1, s')
      | (Err _, s') => (Routes.Status 500, store1, s')
      end.
Proof.
  intros Hbelow. unfold Routes.get_files, downloadLimiter.
  pose proof (getUsageRecord_key store (client req) now) as Hkey.
  pose proof (getUsageRecord_downloaded store (client req) now) as Hup.
  destruct (getUsageRecord store (client req) now) as [k store1].
  cbn in Hkey, Hup. subst k. rewrite Hup.
  rewrite bool_decide_eq_false_2 by lia. cbn.
  destruct (Js.blank key); [by destruct fw|].
  destruct (downloadFile sp s clock key) as [[[[buf mime] name]|e] s1].
  - destruct (valid mime && valid _); [done|by destruct fw].
  - destruct e; by destruct fw.
Qed.

(** The counters after [trackDownload] on the store the limiter left. *)
Lemma tracked_download store ip now n :
  let store2 := trackDownload ip n now (getUsageRecord store ip now).2 in
  bytes_downloaded store2 ip now = bytes_downloaded store ip now + n ∧
  (∀ ip' d', bytes_uploaded store2 ip' d' = bytes_uploaded store ip' d') ∧
  (∀ ip' d', ip' ≠ ip ∨ getTodayKey d' ≠ getTodayKey now →
     bytes_downloaded store2 ip' d' = bytes_downloaded store ip' d').
Proof.
  intros store2. subst store2. set (store1 := (getUsageRecord store ip now).2).
  pose proof (getUsageRecord_counters store ip now) as Hall. fold store1 in Hall.
  unfold bytes_downloaded, bytes_uploaded. split_and!.
  - destruct (trackDownload_counters ip n now store1 (getUsageKey ip now)) as [_ ->].
    destruct (Hall (getUsageKey ip now)) as [_ ->]. by case_decide.
  - intros ip' d'.
    destruct (trackDownload_counters ip n now store1 (getUsageKey ip' d')) as [-> _].
    by destruct (Hall (getUsageKey ip' d')) as [-> _].
  - intros ip' d' Hne.
    destruct (trackDownload_counters ip n now store1 (getUsageKey ip' d')) as [_ ->].
    destruct (Hall (getUsageKey ip' d')) as [_ ->].
    case_decide as Heq; [|lia].
    apply getUsageKey_inj in Heq as [-> Hday]. destruct Hne as [?|Hne]; [done|].
    by rewrite Hday in Hne.
Qed.

End DownloadRoute.

(** X15. A download is counted once, with the length of the buffer. When
    [GET /files/:publicKey] sends a file, the client was below the download
    ceiling, the buffer, the MIME type and the name in the
    [Content-Disposition] header are those [downloadFile] returned, the
    provider state is the one [downloadFile] left, the client's download
    counter for the day has grown by the length of the buffer, and no
    upload counter and no download counter of another client or day has
    changed. *)
Theorem download_is_counted_once {St} (sp : StorageProvider St)
    env fw valid s clock now req key store buf ctype cdisp store' s' :
  Routes.get_files env fw valid sp s clock now req key store
    = (Routes.File buf ctype cdisp, store', s') →
  bytes_downloaded store (UsageLimiter.client req) now < UsageLimiter.DOWNLOAD_LIMIT env ∧
  (∃ name, downloadFile sp s clock key = (Ok (buf, ctype, name), s') ∧
           cdisp = "attachment; filename=" +:+ Routes.dquote +:+ name +:+ Routes.dquote) ∧
  bytes_downloaded store' (UsageLimiter.client req) now
    = bytes_downloaded store (UsageLimiter.client req) now + Z.of_nat (length buf) ∧
  (∀ ip' d', bytes_uploaded store' ip' d' = bytes_uploaded store ip' d') ∧
  (∀ ip' d',
     ip' ≠ UsageLimiter.client req
     ∨ UsageLimiter.getTodayKey d' ≠ UsageLimiter.getTodayKey now →
     bytes_downloaded store' ip' d' = bytes_downloaded store ip' d').
Proof.
  destruct (decide (UsageLimiter.DOWNLOAD_LIMIT env
                    ≤ bytes_downloaded store (UsageLimiter.client req) now))
    as [Hfull|Hbelow].
  { by rewrite get_files_refused by done. }
  rewrite get_files_admitted by lia.
  destruct (Js.blank key); [done|].
  destruct (downloadFile sp s clock key) as [[[[buf0 mime] name]|e] s1];
    [|by destruct e].
  cbv beta iota zeta.
  destruct (valid mime && valid _); [|done]. intros [= <- <- <- <- <-].
  split; [lia|]. split; [by exists name|]. apply tracked_download.
Qed.

(** X16. A download that is not served changes no counter, with one
    exception. [GET /files/:publicKey] answers 429 exactly when the
    client's download counter for the day has reached the ceiling; with
    429 and with 400 (blank key) the provider state is untouched; 404 means
    that [downloadFile] failed with "File not found"; and with 429, 400 and
    404 no counter of any client or day has changed. The exception is a
    file that the provider returned but whose headers the platform
    rejects: the answer is 500 and the download is counted all the
    same. *)
Theorem unserved_download_accounting {St} (sp : StorageProvider St)
    env fw valid s clock now req key store :
  let out := Routes.get_files env fw valid sp s clock now req key store in
  (out.1.1 = Routes.Status 429 ↔
   UsageLimiter.DOWNLOAD_LIMIT env
     ≤ bytes_downloaded store (UsageLimiter.client req) now) ∧
  (out.1.1 = Routes.Status 429 ∨ out.1.1 = Routes.Status 400 → out.2 = s) ∧
  (out.1.1 = Routes.Status 404 → downloadFile sp s clock key = (Err FileNotFound, out.2)) ∧
  (out.1.1 = Routes.Status 429 ∨ out.1.1 = Routes.Status 400
   ∨ out.1.1 = Routes.Status 404 → same_usage store out.1.2) ∧
  (∀ buf mime name s',
     bytes_downloaded store (UsageLimiter.client req) now
       < UsageLimiter.DOWNLOAD_LIMIT env →
     Js.blank key = false →
     downloadFile sp s clock key = (Ok (buf, mime, name), s') →
     valid mime
     && valid ("attachment; filename=" +:+ Routes.dquote +:+ name +:+ Routes.dquote)
     = false →
     out.1.1 = Routes.Status 500 ∧ out.2 = s' ∧
     bytes_downloaded out.1.2 (UsageLimiter.client req) now
     = bytes_downloaded store (UsageLimiter.client req) now + Z.of_nat (length buf)).
Proof.
  intros out. subst out.
  pose proof (same_usage_getUsageRecord store (UsageLimiter.client req) now) as Hsame.
  destruct (decide (UsageLimiter.DOWNLOAD_LIMIT env
                    ≤ bytes_downloaded store (UsageLimiter.client req) now))
    as [Hfull|Hbelow].
  { rewrite get_files_refused by done. cbn. split_and!; try done. intros; lia. }
  rewrite get_files_admitted by lia.
  destruct (Js.blank key) eqn:Hblank.
  { cbn. split_and!; done. }
  destruct (downloadFile sp s clock key) as [[[[buf0 mime0] name0]|e] s1] eqn:Hdown.
  - cbv beta iota zeta. destruct (valid mime0 && valid _) eqn:Hvalid; cbn.
    + split_and!;
        first [done | by split; [|lia] | by intros [?|?] | by intros [?|[?|?]] | idtac].
      intros buf mime name s' _ _ [= <- <- <- <-] Hv. congruence.
    + split_and!;
        first [done | by split; [|lia] | by intros [?|?] | by intros [?|[?|?]] | idtac].
      intros buf mime name s' _ _ [= <- <- <- <-] _.
      split; [done|]. split; [done|]. apply tracked_download.
  - destruct e; cbn;
      (split_and!;
       first [done | by split; [|lia] | by intros [?|?] | by intros [?|[?|?]]]).
Qed.

Lemma blank_key k : is_key k → Js.blank k = false.
Proof.
  intros [Hhex Hne]. destruct k as [|c k]; [done|].
  cbn in Hhex. apply andb_prop in Hhex as [Hc _].
  unfold Js.blank. cbn [Js.all_chars].
  assert (Js.is_whitespace c = false) as ->; [|done].
  destruct c as [[] [] [] [] [] [] [] []]; try done.
Qed.

Section LocalWorkflow.
Context `{Json}.

Lemma local_delete_found p key m :
  disk_read (Local.metadataFolder p) (key +:+ ".json") ≫= JSON_parse = Some m →
  (key +:+ ".json") ∉ rejecting (Local.metadataFolder p) →
  (publicKey m +:+ ".json") ∉ rejecting (Local.metadataFolder p) →
  ∃ p2, Local.deleteFile p key = (Ok true, p2) ∧
        entries (Local.metadataFolder p2) !! (publicKey m +:+ ".json") = None ∧
        entries (Local.metadataFolder p2) !! (key +:+ ".json") = None.
Proof.
  intros Hm Hr1 Hr2. unfold Local.deleteFile, Local._getMetadataPath. rewrite Hm.
  eexists. split; [done|]. cbn. split.
  - by apply try_unlink_absent, try_unlink_gone.
  - apply try_unlink_gone. by rewrite try_unlink_rejecting.
Qed.

Lemma local_session p src now buf name mime pub priv p1 t1 t2 :
  Local.uploadFile p src now buf name mime = (Ok (pub, priv), p1) →
  ∃ p2 p3,
    Local.downloadFile p1 t1 pub = (Ok (buf, mime, name), p2) ∧
    Local.deleteFile p2 priv = (Ok true, p3) ∧
    Local.downloadFile p3 t2 pub = (Err FileNotFound, p3) ∧
    Local.deleteFile p3 priv = (Ok false, p3).
Proof.
  intros Hup.
  destruct (local_download_after_upload _ _ _ _ _ _ _ _ _ t1 Hup) as [p2 Hdown].
  destruct (local_upload_records _ _ _ _ _ _ _ _ _ Hup) as (Hpub & _ & _).
  pose proof (local_upload_ok _ _ _ _ _ _ _ _ _ Hup) as (_ & Hr1 & Hr2 & _ & Hp1).
  assert (rejecting (Local.metadataFolder p1) = rejecting (Local.metadataFolder p))
    as Hrej by (by subst p1).
  destruct (local_download_ok _ _ _ _ _ Hdown) as (m & b & Hm & _ & _ & _ & _ & Hp2).
  rewrite Hpub in Hm. cbn in Hm. rewrite JSON_parse_stringify in Hm.
  injection Hm as <-. cbn [privateKey] in Hp2.
  destruct (local_delete_found p2 priv
              (touch (Metadata pub priv name mime now None (length buf) None) t1))
    as (p3 & Hdel & Hgone1 & Hgone2).
  { rewrite Hp2. unfold disk_read. cbn. rewrite lookup_insert_eq. cbn.
    by rewrite JSON_parse_stringify. }
  { rewrite Hp2. cbn. by rewrite Hrej. }
  { rewrite Hp2. cbn. by rewrite Hrej. }
  cbn [publicKey touch] in Hgone1.
  exists p2, p3. split; [done|]. split; [done|]. split.
  - unfold Local.downloadFile, Local._getMetadataPath.
    by rewrite disk_exists_false.
  - apply local_delete_absent. unfold disk_read. by rewrite Hgone2.
Qed.

Lemma post_files_created_object {St} (sp : StorageProvider St) env fw s src clock now
    req f store store' s' :
  UsageLimiter.post_files env fw sp s src clock now req (Some f) store
    = (201%nat, store', s') →
  ∃ keys, uploadFile sp s src clock (UsageLimiter.buffer f)
            (UsageLimiter.originalname f) (UsageLimiter.mimetype f) = (Ok keys, s').
Proof.
  destruct (decide (UsageLimiter.UPLOAD_LIMIT env
                    ≤ bytes_uploaded store (UsageLimiter.client req) now)) as [Hfull|Hbelow].
  - by rewrite post_files_refused by done.
  - rewrite post_files_admitted by lia.
    destruct (uploadFile sp s src clock _ _ _) as [[keys|e] s1]; [|done].
    intros [= <- <-]. by exists keys.
Qed.

End LocalWorkflow.

(** X17. The whole session on the local provider, as in the integration
    test "Full workflow": after [POST /files] has answered 201, a client
    below its download ceiling gets the uploaded bytes back from
    [GET /files/<publicKey>] with the MIME type and the file name of the
    upload, and [DELETE /files/<privateKey>] answers 200. After that the
    same [GET] answers 404 when the download has left the client below the
    ceiling and 429 when it has taken the client to the ceiling or beyond;
    the same [DELETE] answers 404. The counter and the length of the file
    are safe integers, so that their sum is exact. *)
Theorem upload_download_delete_session `{Json}
    env_up env_down fw valid p src clock now req f store store1 p1 t1 t2 :
  let pub := (_generateKeys src).1 in
  let priv := (_generateKeys src).2 in
  let disposition :=
    "attachment; filename=" +:+ Routes.dquote +:+ UsageLimiter.originalname f
      +:+ Routes.dquote in
  let downloaded :=
    bytes_downloaded store1 (UsageLimiter.client req) now
    + Z.of_nat (length (UsageLimiter.buffer f)) in
  UsageLimiter.post_files env_up fw localProvider p src clock now req (Some f) store
    = (201%nat, store1, p1) →
  valid (UsageLimiter.mimetype f) = true →
  valid disposition = true →
  bytes_downloaded store1 (UsageLimiter.client req) now
    < UsageLimiter.DOWNLOAD_LIMIT env_down →
  0 ≤ bytes_downloaded store1 (UsageLimiter.client req) now →
  downloaded ≤ Js.MAX_SAFE_INTEGER →
  ∃ store2 p2 p3 store3,
    Routes.get_files env_down fw valid localProvider p1 t1 now req pub store1
      = (Routes.File (UsageLimiter.buffer f) (UsageLimiter.mimetype f) disposition,
         store2, p2) ∧
    Routes.delete_files localProvider p2 priv = (Routes.Status 200, p3) ∧
    Routes.get_files env_down fw valid localProvider p3 t2 now req pub store2
      = (Routes.Status
           (if bool_decide (UsageLimiter.DOWNLOAD_LIMIT env_down ≤ downloaded)
            then 429 else 404),
         store3, p3) ∧
    Routes.delete_files localProvider p3 priv = (Routes.Status 404, p3).
Proof.
  intros pub priv disposition downloaded Hpost Hv1 Hv2 Hbelow _ _.
  apply post_files_created_object in Hpost as [[pub0 priv0] Hup].
  cbn [uploadFile localProvider] in Hup.
  pose proof (local_upload_ok _ _ _ _ _ _ _ _ _ Hup) as (Hkeys & _).
  assert (pub0 = pub ∧ priv0 = priv) as [-> ->].
  { subst pub priv. by rewrite <- Hkeys. }
  destruct (generateKeys_is_key src) as [Hkpub Hkpriv].
  fold pub in Hkpub. fold priv in Hkpriv.
  destruct (local_session _ _ _ _ _ _ _ _ _ t1 t2 Hup)
    as (p2 & p3 & Hget & Hdel & Hget' & Hdel').
  pose proof (tracked_download store1 (UsageLimiter.client req) now
                (Z.of_nat (length (UsageLimiter.buffer f)))) as [Hcount _].
  cbv zeta in Hcount. fold downloaded in Hcount.
  eexists _, p2, p3, _.
  split_and!.
  - rewrite get_files_admitted by lia.
    rewrite blank_key by done. cbn [downloadFile localProvider].
    rewrite Hget. cbv beta iota zeta. fold disposition. by rewrite Hv1, Hv2.
  - unfold Routes.delete_files. rewrite blank_key by done.
    cbn [deleteFile localProvider]. by rewrite Hdel.
  - case_bool_decide as Hfull.
    + rewrite get_files_refused by (by rewrite Hcount). done.
    + rewrite get_files_admitted by (rewrite Hcount; lia).
      rewrite blank_key by done. cbn [downloadFile localProvider].
      by rewrite Hget'.
  - unfold Routes.delete_files. rewrite blank_key by done.
    cbn [deleteFile localProvider]. by rewrite Hdel'.
Qed.

Lemma demo_upload_eq :
  UsageLimiter.post_files None true (localProvider (H := Codec.codec)) local_empty
    demo_entropy 1000 demo_day demo_request (Some demo_upload) ∅
  = (201%nat, demo_upload_ledger, local_stored).
Proof. reflexivity. Qed.

Lemma demo_upload_ledger_downloaded :
  bytes_downloaded demo_upload_ledger (UsageLimiter.client demo_request) demo_day = 0.
Proof. reflexivity. Qed.

(** The two-byte file of the test with the default ceiling of 500 MB: the
    second [GET] answers 404. With a ceiling of two bytes the download
    takes the client to the ceiling and the second [GET] answers 429. *)
Lemma upload_download_delete_session_witness :
  (∃ store2 p2 p3 store3,
     Routes.get_files None true any_header (localProvider (H := Codec.codec))
       local_stored 2000 demo_day demo_request demo_pub demo_upload_ledger
       = (Routes.File demo_content "text/plain"
            ("attachment; filename=" +:+ Routes.dquote +:+ "hi.txt" +:+ Routes.dquote),
          store2, p2) ∧
     Routes.delete_files (localProvider (H := Codec.codec)) p2 demo_priv
       = (Routes.Status 200, p3) ∧
     Routes.get_files None true any_header (localProvider (H := Codec.codec))
       p3 3000 demo_day demo_request demo_pub store2
       = (Routes.Status 404, store3, p3) ∧
     Routes.delete_files (localProvider (H := Codec.codec)) p3 demo_priv
       = (Routes.Status 404, p3)) ∧
  (∃ store2 p2 p3 store3,
     Routes.get_files (Some 2) true any_header (localProvider (H := Codec.codec))
       local_stored 2000 demo_day demo_request demo_pub demo_upload_ledger
       = (Routes.File demo_content "text/plain"
            ("attachment; filename=" +:+ Routes.dquote +:+ "hi.txt" +:+ Routes.dquote),
          store2, p2) ∧
     Routes.delete_files (localProvider (H := Codec.codec)) p2 demo_priv
       = (Routes.Status 200, p3) ∧
     Routes.get_files (Some 2) true any_header (localProvider (H := Codec.codec))
       p3 3000 demo_day demo_request demo_pub store2
       = (Routes.Status 429, store3, p3) ∧
     Routes.delete_files (localProvider (H := Codec.codec)) p3 demo_priv
       = (Routes.Status 404, p3)).
Proof.
  split.
  - apply (upload_download_delete_session (H := Codec.codec) None None true any_header
             local_empty demo_entropy 1000 demo_day demo_request demo_upload ∅
             demo_upload_ledger local_stored 2000 3000).
    + exact demo_upload_eq.
    + reflexivity.
    + reflexivity.
    + rewrite demo_upload_ledger_downloaded. reflexivity.
    + rewrite demo_upload_ledger_downloaded. discriminate.
    + rewrite demo_upload_ledger_downloaded. discriminate.
  - apply (upload_download_delete_session (H := Codec.codec) None (Some 2) true
             any_header local_empty demo_entropy 1000 demo_day demo_request
             demo_upload ∅ demo_upload_ledger local_stored 2000 3000).
    + exact demo_upload_eq.
    + reflexivity.
    + reflexivity.
    + rewrite demo_upload_ledger_downloaded. reflexivity.
    + rewrite demo_upload_ledger_downloaded. discriminate.
    + rewrite demo_upload_ledger_downloaded. discriminate.
Defined.

Lemma demo_download_eq :
  Routes.get_files None true any_header (localProvider (H := Codec.codec))
    local_stored 3000 demo_day demo_request demo_pub ∅
  = (Routes.File demo_content "text/plain"
       ("attachment; filename=" +:+ Routes.dquote +:+ "hi.txt" +:+ Routes.dquote),
     demo_download_ledger, local_read).
Proof.
  rewrite get_files_admitted by reflexivity.
  rewrite blank_key by apply demo_keys_are_keys.
  cbn [downloadFile localProvider]. rewrite local_read_eq. reflexivity.
Qed.

Lemma download_is_counted_once_witness :
  bytes_downloaded demo_download_ledger (UsageLimiter.client demo_request) demo_day
  = bytes_downloaded ∅ (UsageLimiter.client demo_request) demo_day
    + Z.of_nat (length demo_content).
Proof.
  apply (download_is_counted_once (localProvider (H := Codec.codec)) None true
           any_header local_stored 3000 demo_day demo_request demo_pub ∅
           demo_content "text/plain"
           ("attachment; filename=" +:+ Routes.dquote +:+ "hi.txt" +:+ Routes.dquote)
           demo_download_ledger local_read demo_download_eq).
Defined.

Lemma unserved_download_accounting_witness :
  downloadFile (localProvider (H := Codec.codec)) local_empty 3000 demo_pub
  = (Err FileNotFound,
     (Routes.get_files None true any_header (localProvider (H := Codec.codec))
        local_empty 3000 demo_day demo_request demo_pub ∅).2) ∧
  same_usage ∅
    (Routes.get_files None true any_header (localProvider (H := Codec.codec))
       local_empty 3000 demo_day demo_request demo_pub ∅).1.2.
Proof.
  pose proof (unserved_download_accounting (localProvider (H := Codec.codec)) None true
                any_header local_empty 3000 demo_day demo_request demo_pub ∅)
    as (_ & _ & H404 & Hsame & _).
  split.
  - apply H404. reflexivity.
  - apply Hsame. right. right. reflexivity.
Defined.

(** X18. The answers of [DELETE /files/:privateKey]. On either provider
    the route answers 400 exactly for a blank key, and then leaves the
    provider as it was. For a key as the service hands it out: the answer
    is 200 when a readable metadata record lies under the key, and 404,
    with the provider left as it was, when nothing is stored under the
    key. On the cloud provider both hold of a bucket that has been
    initialised; until then every key that is not blank is answered 500 and
    nothing changes. *)
Theorem delete_route_answers `{Json} :
  (∀ p key,
     ((Routes.delete_files localProvider p key).1 = Routes.Status 400
      ↔ Js.blank key = true) ∧
     (Js.blank key = true →
      Routes.delete_files localProvider p key = (Routes.Status 400, p))) ∧
  (∀ p key m,
     is_key key →
     disk_read (Local.metadataFolder p) (Local._getMetadataPath key)
       ≫= JSON_parse = Some m →
     (Routes.delete_files localProvider p key).1 = Routes.Status 200) ∧
  (∀ p key,
     is_key key →
     entries (Local.metadataFolder p) !! Local._getMetadataPath key = None →
     Routes.delete_files localProvider p key = (Routes.Status 404, p)) ∧
  (∀ p key,
     ((Routes.delete_files googleProvider p key).1 = Routes.Status 400
      ↔ Js.blank key = true) ∧
     (Js.blank key = true →
      Routes.delete_files googleProvider p key = (Routes.Status 400, p)) ∧
     (Js.blank key = false → GCS.bucket p = None →
      Routes.delete_files googleProvider p key = (Routes.Status 500, p))) ∧
  (∀ p b key m,
     GCS.bucket p = Some b →
     is_key key →
     disk_read b (GCS._getMetadataPath p key) ≫= JSON_parse = Some m →
     (Routes.delete_files googleProvider p key).1 = Routes.Status 200) ∧
  (∀ p b key,
     GCS.bucket p = Some b →
     is_key key →
     entries b !! GCS._getMetadataPath p key = None →
     Routes.delete_files googleProvider p key = (Routes.Status 404, p)).
Proof.
  split_and!.
  - intros p key. unfold Routes.delete_files.
    destruct (Js.blank key) eqn:Hblank; [done|].
    split; [|done]. split; [|done].
    cbn [deleteFile localProvider]. unfold Local.deleteFile.
    by destruct (disk_read _ _ ≫= JSON_parse).
  - intros p key m Hkey Hm. unfold Routes.delete_files.
    rewrite blank_key by done.
    cbn [deleteFile localProvider]. unfold Local.deleteFile. by rewrite Hm.
  - intros p key Hkey Hnone. unfold Routes.delete_files.
    rewrite blank_key by done.
    cbn [deleteFile localProvider]. unfold Local.deleteFile, disk_read.
    by rewrite Hnone.
  - intros p key. unfold Routes.delete_files.
    destruct (Js.blank key) eqn:Hblank; [done|].
    split_and!; [split; [|done] | done |].
    + cbn [deleteFile googleProvider]. unfold GCS.deleteFile.
      destruct (GCS.bucket p) as [b|]; [|done].
      destruct (negb (disk_exists b _)); [done|].
      by destruct (disk_read b _ ≫= JSON_parse).
    + intros _ Hb. cbn [deleteFile googleProvider]. unfold GCS.deleteFile.
      by rewrite Hb.
  - intros p b key m Hb Hkey Hm. unfold Routes.delete_files.
    rewrite blank_key by done.
    cbn [deleteFile googleProvider]. unfold GCS.deleteFile. rewrite Hb.
    assert (disk_exists b (GCS._getMetadataPath p key) = true) as ->.
    { unfold disk_exists, disk_read in *. apply bool_decide_eq_true.
      by destruct (entries b !! _); [eexists|]. }
    cbn [negb]. by rewrite Hm.
  - intros p b key Hb Hkey Hnone. unfold Routes.delete_files.
    rewrite blank_key by done.
    cbn [deleteFile googleProvider]. unfold GCS.deleteFile. rewrite Hb.
    assert (disk_exists b (GCS._getMetadataPath p key) = false) as ->; [|done].
    unfold disk_exists. apply bool_decide_eq_false. rewrite Hnone. by intros [? ?].
Qed.

(** The stored object is deleted with its private key; a key of one space
    is refused; a key nobody was given is not found. *)
Lemma delete_route_answers_witness :
  (Routes.delete_files (localProvider (H := Codec.codec)) local_stored demo_priv).1
    = Routes.Status 200 ∧
  Routes.delete_files (localProvider (H := Codec.codec)) local_stored " "
    = (Routes.Status 400, local_stored) ∧
  Routes.delete_files (localProvider (H := Codec.codec)) local_stored demo_priv2
    = (Routes.Status 404, local_stored).
Proof.
  pose proof (delete_route_answers (H := Codec.codec))
    as (Hblank & Hfound & Hmissing & _).
  split_and!.
  - apply (Hfound local_stored demo_priv (demo_record None)).
    + apply demo_keys_are_keys.
    + unfold Local._getMetadataPath.
      apply (local_stored_record demo_priv). by right.
  - apply (Hblank local_stored " "). reflexivity.
  - apply (Hmissing local_stored demo_priv2).
    + apply demo_keys2_are_keys.
    + by vm_compute.
Defined.

(** ** Admission *)

Section AdmissionLemmas.
Import UsageLimiter.
Implicit Types (store : gmap string usage) (req : request) (now : date).

Lemma client_ip a remote body : a ≠ "" → client (Request (Some a) remote body) = a.
Proof. intros Ha. unfold client, Js.or_string. cbn. by case_decide. Qed.

Lemma client_remoteAddress i a body :
  i = None ∨ i = Some "" → a ≠ "" → client (Request i (Some a) body) = a.
Proof.
  intros [-> | ->] Ha; unfold client, Js.or_string; cbn; repeat case_decide; done.
Qed.

Lemma client_unknown i r body :
  i = None ∨ i = Some "" → r = None ∨ r = Some "" →
  client (Request i r body) = "unknown".
Proof. by intros [-> | ->] [-> | ->]. Qed.

(** The two checks read one number each: the counter of the client of the
    request for the day. *)
Lemma uploadLimiter_decision env fw req res now store :
  (uploadLimiter env fw req res now store).1
  = if bool_decide (UPLOAD_LIMIT env ≤ bytes_uploaded store (client req) now)
    then TooManyRequests
    else Next (Response (TrackingSend (send res) (getUsageKey (client req) now))
                        (TrackingJson (json res) (getUsageKey (client req) now))).
Proof.
  unfold uploadLimiter.
  pose proof (getUsageRecord_key store (client req) now) as Hkey.
  pose proof (getUsageRecord_uploaded store (client req) now) as Hup.
  destruct (getUsageRecord store (client req) now) as [key store1].
  cbn in Hkey, Hup. subst key. rewrite Hup. by case_bool_decide.
Qed.

Lemma downloadLimiter_decision env fw req res now store :
  (downloadLimiter env fw req res now store).1
  = if bool_decide (DOWNLOAD_LIMIT env ≤ bytes_downloaded store (client req) now)
    then TooManyRequests else Next res.
Proof.
  unfold downloadLimiter.
  pose proof (getUsageRecord_key store (client req) now) as Hkey.
  pose proof (getUsageRecord_downloaded store (client req) now) as Hup.
  destruct (getUsageRecord store (client req) now) as [key store1].
  cbn in Hkey, Hup. subst key. rewrite Hup. by case_bool_decide.
Qed.

(** An upload request touches no download counter, and no upload counter
    but that of its client for the day. *)
Lemma post_files_frame {St} env fw (sp : StorageProvider St) s src clock now
    req body store :
  let store' := (post_files env fw sp s src clock now req body store).1.2 in
  (∀ ip' d', bytes_downloaded store' ip' d' = bytes_downloaded store ip' d') ∧
  (∀ ip' d', ip' ≠ client req ∨ getTodayKey d' ≠ getTodayKey now →
     bytes_uploaded store' ip' d' = bytes_uploaded store ip' d').
Proof.
  intros store'. subst store'.
  pose proof (same_usage_getUsageRecord store (client req) now) as Hsame.
  destruct (decide (UPLOAD_LIMIT env ≤ bytes_uploaded store (client req) now))
    as [Hfull|Hbelow].
  { rewrite post_files_refused by done. cbn.
    split; intros ip' d'; [|intros _]; by destruct (Hsame ip' d'). }
  rewrite post_files_admitted by lia.
  assert (∀ n,
    let store2 := add_upload (getUsageKey (client req) now) n
                    (getUsageRecord store (client req) now).2 in
    let store3 := if fw then add_upload (getUsageKey (client req) now) n store2
                  else store2 in
    (∀ ip' d', bytes_downloaded store3 ip' d' = bytes_downloaded store ip' d') ∧
    (∀ ip' d', ip' ≠ client req ∨ getTodayKey d' ≠ getTodayKey now →
       bytes_uploaded store3 ip' d' = bytes_uploaded store ip' d')) as Hcharged.
  { intros n store2 store3. subst store2 store3.
    split.
    - intros ip' d'. destruct (Hsame ip' d') as [_ Hd].
      unfold bytes_downloaded in *. rewrite <- Hd.
      destruct fw.
      + by rewrite !(proj2 (add_upload_counters _ _ _ _)).
      + by rewrite !(proj2 (add_upload_counters _ _ _ _)).
    - intros ip' d' Hne. destruct (Hsame ip' d') as [Hu _].
      unfold bytes_uploaded in *. rewrite <- Hu.
      assert (getUsageKey (client req) now ≠ getUsageKey ip' d') as Hk.
      { intros [Hip Hday]%getUsageKey_inj. destruct Hne as [Hne|Hne]; congruence. }
      destruct fw.
      + rewrite !(proj1 (add_upload_counters _ _ _ _)).
        rewrite !decide_False by done. lia.
      + rewrite !(proj1 (add_upload_counters _ _ _ _)).
        rewrite !decide_False by done. lia. }
  destruct body as [f|]; [|apply Hcharged].
  destruct (uploadFile sp s src clock _ _ _) as [[keys|e] s1]; apply Hcharged.
Qed.

(** A download request touches no upload counter, and no download counter
    but that of its client for the day. *)
Lemma get_files_frame {St} env fw valid (sp : StorageProvider St) s clock now
    req key store :
  let store' := (Routes.get_files env fw valid sp s clock now req key store).1.2 in
  (∀ ip' d', bytes_uploaded store' ip' d' = bytes_uploaded store ip' d') ∧
  (∀ ip' d', ip' ≠ client req ∨ getTodayKey d' ≠ getTodayKey now →
     bytes_downloaded store' ip' d' = bytes_downloaded store ip' d').
Proof.
  intros store'. subst store'.
  pose proof (same_usage_getUsageRecord store (client req) now) as Hsame.
  assert ((∀ ip' d', bytes_uploaded (getUsageRecord store (client req) now).2 ip' d'
                     = bytes_uploaded store ip' d') ∧
          (∀ ip' d', ip' ≠ client req ∨ getTodayKey d' ≠ getTodayKey now →
             bytes_downloaded (getUsageRecord store (client req) now).2 ip' d'
             = bytes_downloaded store ip' d')) as Hrecord.
  { split; intros ip' d'; [|intros _]; by destruct (Hsame ip' d'). }
  destruct (decide (DOWNLOAD_LIMIT env ≤ bytes_downloaded store (client req) now))
    as [Hfull|Hbelow].
  { by rewrite get_files_refused by done. }
  rewrite get_files_admitted by lia.
  destruct (Js.blank key); [done|].
  destruct (downloadFile sp s clock key) as [[[[buf mime] name]|e] s1];
    [|by destruct e].
  cbv beta iota zeta.
  destruct (tracked_download store (client req) now (Z.of_nat (length buf)))
    as (_ & Hup & Hother).
  by destruct (valid mime && valid _).
Qed.

End AdmissionLemmas.

(** C9. The claim is that a check denies exactly when the bytes the
    origin has transferred on the day have reached the ceiling. Each check
    reads the one counter of the origin of the request for the day: the
    origin is [req.ip], else the remote address, else ['unknown']; transfers
    of another origin or of another day change no decision, and below the
    ceiling the request is passed on whatever file it carries. For
    downloads the counter is the sum of the lengths served. For uploads it
    is not the sum of the sizes: under Express every completed upload is
    counted twice, so that the check denies an origin from half the
    ceiling on. *)
Theorem admission_counts_express_uploads_twice env_up env_down (fw : bool) :
  (∀ a remote body res now store,
     a ≠ "" →
     let req := UsageLimiter.Request (Some a) remote body in
     ((UsageLimiter.uploadLimiter env_up fw req res now store).1
        = UsageLimiter.TooManyRequests ↔
      UsageLimiter.UPLOAD_LIMIT env_up ≤ bytes_uploaded store a now) ∧
     ((UsageLimiter.downloadLimiter env_down fw req res now store).1
        = UsageLimiter.TooManyRequests ↔
      UsageLimiter.DOWNLOAD_LIMIT env_down ≤ bytes_downloaded store a now) ∧
     (bytes_uploaded store a now < UsageLimiter.UPLOAD_LIMIT env_up →
      ∃ res', (UsageLimiter.uploadLimiter env_up fw req res now store).1
              = UsageLimiter.Next res') ∧
     (bytes_downloaded store a now < UsageLimiter.DOWNLOAD_LIMIT env_down →
      (UsageLimiter.downloadLimiter env_down fw req res now store).1
      = UsageLimiter.Next res)) ∧
  (∀ i r a body,
     i = None ∨ i = Some "" → r = None ∨ r = Some "" → a ≠ "" →
     UsageLimiter.client (UsageLimiter.Request i (Some a) body) = a ∧
     UsageLimiter.client (UsageLimiter.Request i r body) = "unknown") ∧
  (∀ St (sp : StorageProvider St) valid s clock now req key store buf ctype cdisp
     store' s' res,
     Routes.get_files env_down fw valid sp s clock now req key store
       = (Routes.File buf ctype cdisp, store', s') →
     0 ≤ bytes_downloaded store (UsageLimiter.client req) now →
     bytes_downloaded store (UsageLimiter.client req) now + Z.of_nat (length buf)
       ≤ Js.MAX_SAFE_INTEGER →
     ((UsageLimiter.downloadLimiter env_down fw req res now store').1
        = UsageLimiter.TooManyRequests ↔
      UsageLimiter.DOWNLOAD_LIMIT env_down
        ≤ bytes_downloaded store (UsageLimiter.client req) now
          + Z.of_nat (length buf))) ∧
  (∀ St (sp : StorageProvider St) s src clock now req f store store' s' res,
     UsageLimiter.post_files env_up fw sp s src clock now req (Some f) store
       = (201%nat, store', s') →
     0 ≤ bytes_uploaded store (UsageLimiter.client req) now →
     0 ≤ UsageLimiter.size f →
     bytes_uploaded store (UsageLimiter.client req) now + 2 * UsageLimiter.size f
       ≤ Js.MAX_SAFE_INTEGER →
     ((UsageLimiter.uploadLimiter env_up fw req res now store').1
        = UsageLimiter.TooManyRequests ↔
      UsageLimiter.UPLOAD_LIMIT env_up
        ≤ bytes_uploaded store (UsageLimiter.client req) now
          + (if fw then 2 * UsageLimiter.size f else UsageLimiter.size f))) ∧
  (∀ St (sp : StorageProvider St) valid s src clock day other body key store
     req res now,
     UsageLimiter.client other ≠ UsageLimiter.client req
     ∨ UsageLimiter.getTodayKey day ≠ UsageLimiter.getTodayKey now →
     let uploaded :=
       (UsageLimiter.post_files env_up fw sp s src clock day other body store).1.2 in
     let downloaded :=
       (Routes.get_files env_down fw valid sp s clock day other key store).1.2 in
     (UsageLimiter.uploadLimiter env_up fw req res now uploaded).1
     = (UsageLimiter.uploadLimiter env_up fw req res now store).1 ∧
     (UsageLimiter.downloadLimiter env_down fw req res now uploaded).1
     = (UsageLimiter.downloadLimiter env_down fw req res now store).1 ∧
     (UsageLimiter.uploadLimiter env_up fw req res now downloaded).1
     = (UsageLimiter.uploadLimiter env_up fw req res now store).1 ∧
     (UsageLimiter.downloadLimiter env_down fw req res now downloaded).1
     = (UsageLimiter.downloadLimiter env_down fw req res now store).1).
Proof.
  split_and!.
  - intros a remote body res now store Ha req.
    pose proof (client_ip a remote body Ha) as Hclient. fold req in Hclient.
    pose proof (uploadLimiter_denies env_up fw req res now store) as Hup.
    pose proof (downloadLimiter_denies env_down fw req res now store) as Hdown.
    rewrite Hclient in Hup, Hdown.
    split; [exact Hup|]. split; [exact Hdown|]. split.
    + intros Hbelow. rewrite uploadLimiter_decision, Hclient.
      rewrite bool_decide_eq_false_2 by lia. by eexists.
    + intros Hbelow. rewrite downloadLimiter_decision, Hclient.
      by rewrite bool_decide_eq_false_2 by lia.
  - intros i r a body Hi Hr Ha. split.
    + by apply client_remoteAddress.
    + by apply client_unknown.
  - intros St sp valid s clock now req key store buf ctype cdisp store' s' res
      Hget _ _.
    rewrite downloadLimiter_denies.
    destruct (decide (UsageLimiter.DOWNLOAD_LIMIT env_down
                      ≤ bytes_downloaded store (UsageLimiter.client req) now))
      as [Hfull|Hbelow].
    { by rewrite get_files_refused in Hget by done. }
    rewrite get_files_admitted in Hget by lia.
    destruct (Js.blank key); [done|].
    destruct (downloadFile sp s clock key) as [[[[buf0 mime] name]|e] s1];
      [|by destruct e].
    cbv beta iota zeta in Hget.
    destruct (valid mime && valid _); [|done].
    injection Hget as <- _ _ <- _.
    by destruct (tracked_download store (UsageLimiter.client req) now
                   (Z.of_nat (length buf0))) as [-> _].
  - intros St sp s src clock now req f store store' s' res Hpost _ _ _.
    rewrite uploadLimiter_denies.
    rewrite (post_files_created env_up sp fw s src clock now req f store store' s' Hpost).
    by destruct fw; split; lia.
  - intros St sp valid s src clock day other body key store req res now Hne
      uploaded downloaded.
    destruct (post_files_frame env_up fw sp s src clock day other body store)
      as [Hpd Hpu].
    destruct (get_files_frame env_down fw valid sp s clock day other key store)
      as [Hgu Hgd].
    fold uploaded in Hpd, Hpu. fold downloaded in Hgu, Hgd.
    assert (UsageLimiter.client req ≠ UsageLimiter.client other
            ∨ UsageLimiter.getTodayKey now ≠ UsageLimiter.getTodayKey day) as Hne'.
    { destruct Hne; [left|right]; congruence. }
    rewrite !uploadLimiter_decision, !downloadLimiter_decision.
    by rewrite Hpd, Hgu, (Hpu _ _ Hne'), (Hgd _ _ Hne').
Qed.

(** An upload ceiling of 2000 bytes. The origin 192.168.1.1 uploads one
    file of 1024 bytes through Express and is denied its next upload,
    although it has uploaded less than the ceiling; the origin 192.168.1.2
    is admitted on the same store, and so is 192.168.1.1 on the next day.
    With a download ceiling of two bytes, the download of a two-byte file
    takes the origin to the ceiling. *)
Lemma demo_download_small_ceiling_eq :
  Routes.get_files (Some 2) true any_header (localProvider (H := Codec.codec))
    local_stored 3000 demo_day demo_request demo_pub ∅
  = (Routes.File demo_content "text/plain"
       ("attachment; filename=" +:+ Routes.dquote +:+ "hi.txt" +:+ Routes.dquote),
     demo_download_ledger, local_read).
Proof.
  rewrite get_files_admitted by reflexivity.
  rewrite blank_key by apply demo_keys_are_keys.
  cbn [downloadFile localProvider]. rewrite local_read_eq. reflexivity.
Qed.

Lemma admission_counts_express_uploads_twice_witness :
  let res := UsageLimiter.Response UsageLimiter.OriginalSend UsageLimiter.OriginalJson in
  UsageLimiter.size demo_file < UsageLimiter.UPLOAD_LIMIT (Some 2000) ∧
  (UsageLimiter.uploadLimiter (Some 2000) true demo_request res demo_day demo_ledger).1
    = UsageLimiter.TooManyRequests ∧
  (∃ res',
     (UsageLimiter.uploadLimiter (Some 2000) true
        (UsageLimiter.Request (Some "192.168.1.2") None (Some demo_file))
        res demo_day demo_ledger).1 = UsageLimiter.Next res') ∧
  (UsageLimiter.uploadLimiter (Some 2000) true demo_request res
     (UsageLimiter.Date 2024 0 18) demo_ledger).1
    = (UsageLimiter.uploadLimiter (Some 2000) true demo_request res
         (UsageLimiter.Date 2024 0 18) ∅).1 ∧
  (UsageLimiter.downloadLimiter (Some 2) true demo_request res demo_day
     demo_download_ledger).1 = UsageLimiter.TooManyRequests.
Proof.
  intros res.
  destruct (admission_counts_express_uploads_twice (Some 2000) (Some 2) true)
    as (Horigin & _ & Hdown & Hup & Hother).
  split_and!.
  - reflexivity.
  - apply (Hup unit accepting_provider tt demo_entropy 0 demo_day demo_request
             demo_file ∅ demo_ledger tt res).
    + reflexivity.
    + by vm_compute.
    + by vm_compute.
    + by vm_compute.
    + by vm_compute.
  - destruct (Horigin "192.168.1.2" None (Some demo_file) res demo_day demo_ledger)
      as (_ & _ & Hadmitted & _).
    + discriminate.
    + apply Hadmitted. by vm_compute.
  - destruct (Hother unit accepting_provider any_header tt demo_entropy 0 demo_day
                demo_request (Some demo_file) "" ∅ demo_request res
                (UsageLimiter.Date 2024 0 18)) as (Hsame & _).
    + right. discriminate.
    + exact Hsame.
  - apply (Hdown _ (localProvider (H := Codec.codec)) any_header local_stored 3000
             demo_day demo_request demo_pub ∅ demo_content "text/plain"
             ("attachment; filename=" +:+ Routes.dquote +:+ "hi.txt" +:+ Routes.dquote)
             demo_download_ledger local_read res).
    + exact demo_download_small_ceiling_eq.
    + by vm_compute.
    + by vm_compute.
    + by vm_compute.
Defined.

Example admission_at_the_ceiling :
  let full := {[UsageLimiter.getUsageKey "192.168.1.1" demo_day :=
                  UsageLimiter.Usage (100 * 1024 * 1024) 0
                    (UsageLimiter.getTodayKey demo_day)]} in
  (UsageLimiter.uploadLimiter None true demo_request
     (UsageLimiter.Response UsageLimiter.OriginalSend UsageLimiter.OriginalJson)
     demo_day full).1 = UsageLimiter.TooManyRequests.
Proof. reflexivity. Qed.

(** ** Generated keys *)

Lemma fromHex_byte b :
  (hi ← hex_value (hex_digit (Byte.to_N b / 16));
   lo ← hex_value (hex_digit (Byte.to_N b mod 16));
   Byte.of_N (16 * hi + lo)) = Some b.
Proof. destruct b; reflexivity. Qed.

Lemma fromHex_toHex bs : fromHex (toHex bs) = Some bs.
Proof.
  induction bs as [|b bs IH]; [done|].
  cbn [toHex fromHex]. pose proof (fromHex_byte b) as Hb.
  destruct (hex_value (hex_digit (Byte.to_N b / 16))) as [hi|]; [|done].
  destruct (hex_value (hex_digit (Byte.to_N b mod 16))) as [lo|]; [|done].
  cbn in *. rewrite Hb. cbn. by rewrite IH.
Qed.

Lemma toHex_inj bs bs' : toHex bs = toHex bs' → bs = bs'.
Proof.
  intros Heq. apply (f_equal fromHex) in Heq.
  rewrite !fromHex_toHex in Heq. by injection Heq.
Qed.

Lemma toHex_length bs : String.length (toHex bs) = (2 * length bs)%nat.
Proof. induction bs as [|b bs IH]; [done|]. cbn [toHex String.length length]. lia. Qed.

Lemma fmap_seq_ext {A} (f g : nat → A) start n :
  f <$> seq start n = g <$> seq start n ↔
  ∀ i, (i < n)%nat → f (start + i)%nat = g (start + i)%nat.
Proof.
  split.
  - intros Heq i Hi. apply (f_equal (λ l, l !! i)) in Heq.
    rewrite !list_lookup_fmap, lookup_seq_lt in Heq by done.
    by injection Heq.
  - intros Hext. apply list_eq. intros i. rewrite !list_lookup_fmap.
    destruct (seq start n !! i) as [j|] eqn:Hj; [|done].
    apply lookup_seq in Hj as [-> Hi]. cbn. f_equal. by apply Hext.
Qed.

(** X19. The keys [_generateKeys] returns are two strings of 64
    lower-case hex digits that spell out the 64 random bytes drawn: the
    two keys of a pair coincide only when the second 32 bytes repeat the
    first 32, and two calls return the same pair only when the generator
    delivered the same 64 bytes. *)
Theorem generated_keys_spell_the_random_bytes :
  (∀ src,
     String.length (_generateKeys src).1 = 64%nat ∧
     String.length (_generateKeys src).2 = 64%nat ∧
     is_key (_generateKeys src).1 ∧ is_key (_generateKeys src).2) ∧
  (∀ src,
     (_generateKeys src).1 = (_generateKeys src).2 ↔
     ∀ i, (i < 32)%nat → src i = src (32 + i)%nat) ∧
  (∀ src src',
     _generateKeys src = _generateKeys src' ↔
     ∀ i, (i < 64)%nat → src i = src' i).
Proof.
  split_and!.
  - intros src. pose proof (generateKeys_is_key src) as [? ?].
    unfold _generateKeys, randomBytes. cbn [fst snd].
    rewrite !toHex_length, !length_fmap, !length_seq. done.
  - intros src. unfold _generateKeys, randomBytes. cbn [fst snd]. split.
    + intros Heq%toHex_inj. by apply (fmap_seq_ext src (λ i, src (32 + i)%nat) 0 32).
    + intros Hext. f_equal. by apply (fmap_seq_ext src (λ i, src (32 + i)%nat) 0 32).
  - intros src src'. unfold _generateKeys, randomBytes. cbn [fst snd]. split.
    + intros Heq i Hi.
      pose proof (f_equal fst Heq) as H1. pose proof (f_equal snd Heq) as H2.
      cbn [fst snd] in H1, H2. apply toHex_inj in H1, H2.
      destruct (decide (i < 32)%nat) as [Hlt|Hge].
      * by apply (proj1 (fmap_seq_ext src src' 0 32) H1 i).
      * pose proof (proj1 (fmap_seq_ext (λ i, src (32 + i)%nat)
                             (λ i, src' (32 + i)%nat) 0 32) H2 (i - 32)%nat) as H.
        cbv beta in H. rewrite Nat.add_0_l in H.
        replace (32 + (i - 32))%nat with i in H by lia. apply H. lia.
    + intros Hext. f_equal; f_equal.
      * apply fmap_seq_ext. intros i Hi. apply Hext. lia.
      * apply (fmap_seq_ext (λ i, src (32 + i)%nat) (λ i, src' (32 + i)%nat) 0 32).
        intros i Hi. apply Hext. lia.
Qed.

Lemma generated_keys_spell_the_random_bytes_witness :
  (_generateKeys (λ _, x00)).1 = (_generateKeys (λ _, x00)).2 ∧
  _generateKeys demo_entropy = _generateKeys (λ i, demo_entropy (i mod 256)%nat).
Proof.
  destruct generated_keys_spell_the_random_bytes as (_ & Hpair & Hcalls).
  split.
  - apply Hpair. reflexivity.
  - apply Hcalls. intros i Hi. rewrite Nat.mod_small by lia. reflexivity.
Defined.

(** ** Names in the bucket *)

Section CloudNamesKept.
Context `{Json}.

Lemma gcs_only_records_try_unlink p b name :
  GCS.only_records_below_prefix p b →
  GCS.only_records_below_prefix p (try_unlink b name).
Proof.
  intros Hwf name' [Hpre Hin%elem_of_readdir]%list_elem_of_filter.
  apply Hwf, list_elem_of_filter. split; [done|]. apply elem_of_readdir.
  destruct Hin as [data Hdata]. exists data. by eapply try_unlink_lookup_Some.
Qed.

Lemma gcs_upload_keeps_names_always p b src now buf name mime r p1 :
  GCS.bucket p = Some b →
  GCS.only_records_below_prefix p b →
  String.prefix (GCS.metadataPrefix p) (GCS._getFilePath p (_generateKeys src).1)
    = false →
  GCS.uploadFile p src now buf name mime = (r, p1) →
  ∃ b1, GCS.bucket p1 = Some b1 ∧ GCS.only_records_below_prefix p1 b1.
Proof.
  intros Hb Hwf Hpre. unfold GCS.uploadFile. rewrite Hb.
  destruct (_generateKeys src) as [pub priv]. cbn [fst] in Hpre.
  destruct (disk_write b _ _) as [b1|] eqn:H1; [|intros [= <- <-]; by eauto].
  apply disk_write_Some in H1 as [_ ->].
  assert (GCS.only_records_below_prefix p
            (Disk (<[GCS._getFilePath p pub := buf]> (entries b)) (rejecting b)))
    as Hwf1 by (apply gcs_only_records_insert; eauto).
  destruct (disk_write _ (GCS._getMetadataPath p pub) _) as [b2|] eqn:H2;
    [|intros [= <- <-]; by eauto].
  apply disk_write_Some in H2 as [_ ->]. cbn [entries rejecting].
  match goal with
  | |- context [disk_write ?d _ _] =>
      assert (GCS.only_records_below_prefix p d) as Hwf2
        by (apply (gcs_only_records_insert p (Disk _ (rejecting b))); eauto)
  end.
  destruct (disk_write _ (GCS._getMetadataPath p priv) _) as [b3|] eqn:H3;
    intros [= <- <-]; [|by eauto].
  apply disk_write_Some in H3 as [_ ->]. eexists. split; [done|].
  apply (gcs_only_records_insert p (Disk _ (rejecting b))); eauto.
Qed.

Lemma gcs_delete_keeps_names p b key r p2 :
  GCS.bucket p = Some b →
  GCS.only_records_below_prefix p b →
  GCS.deleteFile p key = (r, p2) →
  ∃ b2, GCS.bucket p2 = Some b2 ∧ GCS.only_records_below_prefix p2 b2.
Proof.
  intros Hb Hwf. unfold GCS.deleteFile. rewrite Hb.
  destruct (negb _); [intros [= <- <-]; by eauto|].
  destruct (disk_read b _ ≫= JSON_parse) as [m|]; intros [= <- <-]; [|by eauto].
  eexists. split; [done|]. by do 3 apply gcs_only_records_try_unlink.
Qed.

Lemma gcs_update_keeps_names p b now key r p2 :
  GCS.bucket p = Some b →
  GCS.only_records_below_prefix p b →
  GCS.updateLastAccessed p now key = (r, p2) →
  ∃ b2, GCS.bucket p2 = Some b2 ∧ GCS.only_records_below_prefix p2 b2.
Proof.
  intros Hb Hwf. unfold GCS.updateLastAccessed. rewrite Hb.
  destruct (disk_read b _ ≫= JSON_parse) as [m|]; [|intros [= <- <-]; by eauto].
  destruct (disk_write b _ _) as [b1|] eqn:H1; [|intros [= <- <-]; by eauto].
  apply disk_write_Some in H1 as [_ ->].
  assert (GCS.only_records_below_prefix p
            (Disk (<[GCS._getMetadataPath p key :=
                       JSON_stringify (touch m now)]> (entries b)) (rejecting b)))
    as Hwf1 by (apply gcs_only_records_insert; eauto).
  destruct (disk_write _ _ _) as [b2|] eqn:H2; intros [= <- <-].
  - apply disk_write_Some in H2 as [_ ->]. eexists. split; [done|].
    apply (gcs_only_records_insert p (Disk _ (rejecting b))); eauto.
  - eexists. split; [done|]. done.
Qed.

Lemma gcs_default_prefixes b key :
  String.prefix (GCS.metadataPrefix (GCS.initialize (GCS.Config None None) b))
    (GCS._getFilePath (GCS.initialize (GCS.Config None None) b) key) = false.
Proof. reflexivity. Qed.

End CloudNamesKept.

(** X20. The cloud provider keeps the metadata prefix of its bucket free
    of foreign objects, which is what its inactive-file scan relies on: an
    empty bucket holds only metadata records below the prefix, and
    [uploadFile] (completed or not, as long as the content prefix does not
    lie below the metadata prefix, which is so for the default prefixes),
    [downloadFile], [deleteFile] and [updateLastAccessed] keep it that way,
    whatever they answer. *)
Theorem bucket_keeps_only_records_below_prefix `{Json} :
  (∀ p rej, GCS.only_records_below_prefix p (Disk ∅ rej)) ∧
  (∀ b key,
     String.prefix (GCS.metadataPrefix (GCS.initialize (GCS.Config None None) b))
       (GCS._getFilePath (GCS.initialize (GCS.Config None None) b) key) = false) ∧
  (∀ p b src now buf name mime r p1,
     GCS.bucket p = Some b →
     GCS.only_records_below_prefix p b →
     String.prefix (GCS.metadataPrefix p) (GCS._getFilePath p (_generateKeys src).1)
       = false →
     GCS.uploadFile p src now buf name mime = (r, p1) →
     ∃ b1, GCS.bucket p1 = Some b1 ∧ GCS.only_records_below_prefix p1 b1) ∧
  (∀ p b now key r p1,
     GCS.bucket p = Some b →
     GCS.only_records_below_prefix p b →
     GCS.downloadFile p now key = (r, p1) →
     ∃ b1, GCS.bucket p1 = Some b1 ∧ GCS.only_records_below_prefix p1 b1) ∧
  (∀ p b key r p1,
     GCS.bucket p = Some b →
     GCS.only_records_below_prefix p b →
     GCS.deleteFile p key = (r, p1) →
     ∃ b1, GCS.bucket p1 = Some b1 ∧ GCS.only_records_below_prefix p1 b1) ∧
  (∀ p b now key r p1,
     GCS.bucket p = Some b →
     GCS.only_records_below_prefix p b →
     GCS.updateLastAccessed p now key = (r, p1) →
     ∃ b1, GCS.bucket p1 = Some b1 ∧ GCS.only_records_below_prefix p1 b1).
Proof.
  split_and!.
  - apply gcs_only_records_empty.
  - apply gcs_default_prefixes.
  - apply gcs_upload_keeps_names_always.
  - apply gcs_download_keeps_names.
  - apply gcs_delete_keeps_names.
  - apply gcs_update_keeps_names.
Qed.

Lemma bucket_keeps_only_records_below_prefix_witness :
  (∃ b1, GCS.bucket gcs_stored = Some b1 ∧ GCS.only_records_below_prefix gcs_stored b1) ∧
  (∃ b1, GCS.bucket gcs_read = Some b1 ∧ GCS.only_records_below_prefix gcs_read b1).
Proof.
  pose proof (bucket_keeps_only_records_below_prefix (H := Codec.codec))
    as (Hempty & Hdefault & Hup & Hdown & _ & _).
  assert (∃ b1, GCS.bucket gcs_stored = Some b1
                ∧ GCS.only_records_below_prefix gcs_stored b1) as Hstored.
  { apply (Hup gcs_empty (Disk ∅ ∅) demo_entropy 1000 demo_content "hi.txt"
             "text/plain" (Ok (demo_pub, demo_priv)) gcs_stored).
    - reflexivity.
    - apply Hempty.
    - apply Hdefault.
    - exact gcs_stored_eq. }
  split; [exact Hstored|].
  destruct Hstored as (b1 & Hb1 & Hwf1).
  apply (Hdown gcs_stored b1 3000 demo_pub _ gcs_read Hb1 Hwf1 gcs_read_eq).
Defined.

(** ** What a cleanup cycle does to the store *)

Lemma disk_within_refl d : disk_within d d.
Proof. by split. Qed.

Lemma disk_within_trans d1 d2 d3 :
  disk_within d1 d2 → disk_within d2 d3 → disk_within d1 d3.
Proof. intros [? ?] [? ?]. split; [by etrans | congruence]. Qed.

Lemma try_unlink_within d name : disk_within (try_unlink d name) d.
Proof.
  split; [|apply try_unlink_rejecting].
  unfold try_unlink, disk_unlink. case_decide; [done|].
  destruct (entries d !! name); cbn; [apply delete_subseteq | done].
Qed.

Lemma disk_within_read d' d name data :
  disk_within d' d → disk_read d' name = Some data → disk_read d name = Some data.
Proof. intros [Hsub _] Hd. unfold disk_read in *. by eapply lookup_weaken. Qed.

Section CleanupGeneric.
Context {St : Type} (sp : StorageProvider St).

Lemma delete_each_step k rest n s :
  ∃ n', CleanupJob.delete_each sp (k :: rest) n s
        = CleanupJob.delete_each sp rest n' (deleteFile sp s k).2.
Proof.
  cbn. destruct (deleteFile sp s k) as [[[]|e] s']; by eexists.
Qed.

(** A relation between states that every deletion respects is respected
    by the whole loop. *)
Lemma delete_each_preserves (R : St → St → Prop) :
  (∀ s, R s s) → (∀ a b c, R a b → R b c → R a c) →
  (∀ s k, R (deleteFile sp s k).2 s) →
  ∀ files n s, R (CleanupJob.delete_each sp files n s).2 s.
Proof.
  intros Hrefl Htrans Hdel files. induction files as [|k rest IH]; intros n s.
  - apply Hrefl.
  - destruct (delete_each_step k rest n s) as [n' ->].
    eapply Htrans; [apply IH | apply Hdel].
Qed.

End CleanupGeneric.

Section LocalCleanup.
Context `{Json}.

Lemma local_delete_within p key :
  local_within (Local.deleteFile p key).2 p.
Proof.
  unfold Local.deleteFile.
  destruct (_ ≫= _) as [m|]; cbn; [|split; apply disk_within_refl].
  split; [apply try_unlink_within|].
  eapply disk_within_trans; apply try_unlink_within.
Qed.

Lemma local_delete_each_within files n p :
  local_within (CleanupJob.delete_each localProvider files n p).2 p.
Proof.
  apply (delete_each_preserves localProvider local_within).
  - intros s. split; apply disk_within_refl.
  - intros a b c [? ?] [? ?]. split; by eapply disk_within_trans.
  - intros s k. apply local_delete_within.
Qed.

Lemma local_cleanup_within env now p :
  local_within (CleanupJob.runCleanup (Some localProvider) env now p).2 p.
Proof.
  unfold CleanupJob.runCleanup. cbn.
  destruct (Js.valid_date _); [apply local_delete_each_within|].
  split; apply disk_within_refl.
Qed.

(** No readable record is left under a key that [deleteFile] was called
    with, provided the metadata folder refuses no removal. *)
Lemma local_delete_unreadable p key :
  rejecting (Local.metadataFolder p) = ∅ →
  disk_read (Local.metadataFolder (Local.deleteFile p key).2) (key +:+ ".json")
    ≫= JSON_parse = None.
Proof.
  intros Hrej. unfold Local.deleteFile, Local._getMetadataPath.
  destruct (disk_read (Local.metadataFolder p) _ ≫= JSON_parse) as [m|] eqn:Hm;
    cbn [snd Local.metadataFolder]; [|done].
  unfold disk_read. rewrite try_unlink_gone; [done|].
  rewrite try_unlink_rejecting, Hrej. set_solver.
Qed.

Lemma within_unreadable (d' d : disk) name :
  disk_within d' d →
  disk_read d name ≫= JSON_parse = None →
  disk_read d' name ≫= JSON_parse = None.
Proof.
  intros Hin Hnone. destruct (disk_read d' name) as [data|] eqn:Hd; [|done].
  by rewrite (disk_within_read _ _ _ _ Hin Hd) in Hnone.
Qed.

Lemma local_delete_each_unreadable files n p key :
  rejecting (Local.metadataFolder p) = ∅ →
  key ∈ files →
  disk_read (Local.metadataFolder (CleanupJob.delete_each localProvider files n p).2)
    (key +:+ ".json") ≫= JSON_parse = None.
Proof.
  revert n p. induction files as [|k rest IH]; intros n p Hrej Hin.
  { by apply elem_of_nil in Hin. }
  destruct (delete_each_step localProvider k rest n p) as [n' ->].
  cbn [deleteFile localProvider].
  assert (rejecting (Local.metadataFolder (Local.deleteFile p k).2) = ∅) as Hrej'.
  { destruct (local_delete_within p k) as [_ [_ ->]]. done. }
  apply elem_of_cons in Hin as [->|Hin]; [|by apply IH].
  eapply within_unreadable.
  - apply local_delete_each_within.
  - by apply local_delete_unreadable.
Qed.

Lemma local_scan_elem p cutoff key :
  key ∈ Local.scan p cutoff (readdir (Local.metadataFolder p)) [] ↔
  ∃ f, is_Some (entries (Local.metadataFolder p) !! f) ∧
       Local.inspect p cutoff f = Some key.
Proof.
  rewrite local_scan_omap, app_nil_l, list_elem_of_omap.
  by setoid_rewrite elem_of_readdir.
Qed.

Lemma local_cleanup_leaves_nothing env now p :
  (∀ f m, disk_read (Local.metadataFolder p) f ≫= JSON_parse = Some m →
          Js.all_chars is_hex_char (privateKey m) = true) →
  rejecting (Local.metadataFolder p) = ∅ →
  Js.valid_date (now - CleanupJob.INACTIVITY_PERIOD_MS env) = true →
  let p' := (CleanupJob.runCleanup (Some localProvider) env now p).2 in
  Local.getInactiveFiles p' (now - CleanupJob.INACTIVITY_PERIOD_MS env) = (Ok [], p').
Proof.
  intros Hhex Hrej Hvalid p'. unfold Local.getInactiveFiles. do 2 f_equal.
  set (cutoff := now - CleanupJob.INACTIVITY_PERIOD_MS env).
  destruct (Local.scan p' cutoff _ []) as [|k rest] eqn:Hscan; [done|exfalso].
  assert (k ∈ Local.scan p' cutoff (readdir (Local.metadataFolder p')) [])
    as Hk by (rewrite Hscan; apply elem_of_cons; by left).
  apply local_scan_elem in Hk as (f & _ & Hins).
  apply local_inspect_Some in Hins as (Hend & m & Hm & Hname & Hold & ->).
  pose proof (local_cleanup_within env now p) as [_ Hin]. fold p' in Hin.
  assert (disk_read (Local.metadataFolder p) f ≫= JSON_parse = Some m) as Hm0.
  { destruct (disk_read (Local.metadataFolder p') f) as [data|] eqn:Hd; [|done].
    by rewrite (disk_within_read _ _ _ _ Hin Hd). }
  assert (f = privateKey m +:+ ".json") as Hf.
  { apply json_name_of_key; [done|by eapply Hhex|done]. }
  assert (privateKey m ∈ Local.scan p cutoff (readdir (Local.metadataFolder p)) [])
    as Hcand.
  { apply local_scan_elem. exists f. split.
    - unfold disk_read in Hm0. by destruct (entries _ !! f); [eexists|].
    - apply local_inspect_Some. split; [done|]. by exists m. }
  pose proof (local_delete_each_unreadable _ 0%nat p _ Hrej Hcand) as Hgone.
  subst p'. unfold CleanupJob.runCleanup in Hm. cbn in Hm.
  fold cutoff in Hm, Hvalid. rewrite Hvalid, Hf in Hm. congruence.
Qed.

End LocalCleanup.

Section CloudCleanup.
Context `{Json}.

Lemma gcs_within_refl p : gcs_within p p.
Proof.
  split; [done|]. split; [done|].
  destruct (GCS.bucket p); [apply disk_within_refl | done].
Qed.

Lemma gcs_within_trans p1 p2 p3 :
  gcs_within p1 p2 → gcs_within p2 p3 → gcs_within p1 p3.
Proof.
  intros (? & ? & H12) (? & ? & H23). split; [congruence|]. split; [congruence|].
  destruct (GCS.bucket p1), (GCS.bucket p2), (GCS.bucket p3); try done.
  by eapply disk_within_trans.
Qed.

Lemma gcs_delete_within p key : gcs_within (GCS.deleteFile p key).2 p.
Proof.
  unfold GCS.deleteFile.
  destruct (GCS.bucket p) as [b|] eqn:Hb; [|apply gcs_within_refl].
  destruct (negb _); [apply gcs_within_refl|].
  destruct (disk_read b _ ≫= JSON_parse) as [m|]; [|apply gcs_within_refl].
  cbn. split; [done|]. split; [done|]. rewrite Hb.
  eapply disk_within_trans; [apply try_unlink_within|].
  eapply disk_within_trans; apply try_unlink_within.
Qed.

Lemma gcs_delete_each_within files n p :
  gcs_within (CleanupJob.delete_each googleProvider files n p).2 p.
Proof.
  apply (delete_each_preserves googleProvider gcs_within).
  - apply gcs_within_refl.
  - apply gcs_within_trans.
  - intros s k. apply gcs_delete_within.
Qed.

Lemma gcs_cleanup_within env now p :
  gcs_within (CleanupJob.runCleanup (Some googleProvider) env now p).2 p.
Proof.
  unfold CleanupJob.runCleanup. cbn [getInactiveFiles googleProvider].
  unfold GCS.getInactiveFiles.
  destruct (Js.valid_date _); [|apply gcs_within_refl].
  destruct (GCS.bucket p); [apply gcs_delete_each_within | apply gcs_within_refl].
Qed.

Lemma gcs_within_bucket p' p b :
  gcs_within p' p → GCS.bucket p = Some b →
  ∃ b', GCS.bucket p' = Some b' ∧ disk_within b' b ∧
        ∀ k, GCS._getMetadataPath p' k = GCS._getMetadataPath p k.
Proof.
  intros (_ & Hpre & Hb) Hbucket. rewrite Hbucket in Hb.
  destruct (GCS.bucket p') as [b'|]; [|done].
  exists b'. split; [done|]. split; [done|].
  intros k. unfold GCS._getMetadataPath. by rewrite Hpre.
Qed.

Lemma gcs_delete_unreadable p b key :
  GCS.bucket p = Some b →
  rejecting b = ∅ →
  ∃ b', GCS.bucket (GCS.deleteFile p key).2 = Some b' ∧
        disk_read b' (GCS._getMetadataPath p key) ≫= JSON_parse = None.
Proof.
  intros Hb Hrej. unfold GCS.deleteFile. rewrite Hb.
  destruct (disk_exists b _) eqn:Hex; cbn [negb].
  - destruct (disk_read b (GCS._getMetadataPath p key) ≫= JSON_parse) as [m|] eqn:Hm;
      cbn [snd]; [|by eauto].
    eexists. split; [done|].
    unfold disk_read. rewrite try_unlink_gone; [done|].
    rewrite !try_unlink_rejecting, Hrej. set_solver.
  - exists b. split; [done|].
    unfold disk_exists in Hex. apply bool_decide_eq_false in Hex.
    unfold disk_read. destruct (entries b !! _); [|done]. destruct Hex. by eexists.
Qed.

Lemma gcs_delete_each_unreadable files n p b key :
  GCS.bucket p = Some b →
  rejecting b = ∅ →
  key ∈ files →
  ∃ b', GCS.bucket (CleanupJob.delete_each googleProvider files n p).2 = Some b' ∧
        disk_read b' (GCS._getMetadataPath p key) ≫= JSON_parse = None.
Proof.
  revert n p b. induction files as [|k rest IH]; intros n p b Hb Hrej Hin.
  { by apply elem_of_nil in Hin. }
  destruct (delete_each_step googleProvider k rest n p) as [n' ->].
  cbn [deleteFile googleProvider].
  destruct (gcs_within_bucket _ _ _ (gcs_delete_within p k) Hb)
    as (b1 & Hb1 & [Hsub1 Hrej1] & Hpath1).
  apply elem_of_cons in Hin as [->|Hin].
  - destruct (gcs_delete_unreadable p b k Hb Hrej) as (b1' & Hb1' & Hgone).
    rewrite Hb1 in Hb1'. injection Hb1' as <-.
    destruct (gcs_within_bucket _ _ _
                (gcs_delete_each_within rest n' (GCS.deleteFile p k).2) Hb1)
      as (b2 & Hb2 & Hin2 & _).
    exists b2. split; [done|]. by eapply within_unreadable.
  - destruct (IH n' _ b1 Hb1 ltac:(congruence) Hin) as (b2 & Hb2 & Hgone).
    exists b2. split; [done|]. by rewrite <- Hpath1.
Qed.

Lemma gcs_scan_elem p b cutoff key :
  key ∈ GCS.scan p b cutoff (GCS.getFiles b (GCS.metadataPrefix p)) [] ↔
  ∃ name, name ∈ GCS.getFiles b (GCS.metadataPrefix p) ∧
          GCS.inspect p b cutoff name = Some key.
Proof. by rewrite gcs_scan_omap, app_nil_l, list_elem_of_omap. Qed.

Lemma gcs_cleanup_leaves_nothing env now p b :
  GCS.bucket p = Some b →
  GCS.only_records_below_prefix p b →
  (∀ name m, disk_read b name ≫= JSON_parse = Some m →
             Js.all_chars is_hex_char (privateKey m) = true) →
  rejecting b = ∅ →
  Js.valid_date (now - CleanupJob.INACTIVITY_PERIOD_MS env) = true →
  let p' := (CleanupJob.runCleanup (Some googleProvider) env now p).2 in
  GCS.getInactiveFiles p' (now - CleanupJob.INACTIVITY_PERIOD_MS env) = (Ok [], p').
Proof.
  intros Hb Hwf Hhex Hrej Hvalid p'.
  set (cutoff := now - CleanupJob.INACTIVITY_PERIOD_MS env).
  destruct (gcs_within_bucket _ _ _ (gcs_cleanup_within env now p) Hb)
    as (b' & Hb' & Hin & Hpath).
  fold p' in Hb', Hpath.
  assert (GCS.metadataPrefix p' = GCS.metadataPrefix p) as Hpre.
  { by destruct (gcs_cleanup_within env now p) as (_ & ? & _). }
  unfold GCS.getInactiveFiles. rewrite Hb'. do 2 f_equal.
  destruct (GCS.scan p' b' cutoff _ []) as [|k rest] eqn:Hscan; [done|exfalso].
  assert (k ∈ GCS.scan p' b' cutoff (GCS.getFiles b' (GCS.metadataPrefix p')) [])
    as Hk by (rewrite Hscan; apply elem_of_cons; by left).
  apply gcs_scan_elem in Hk as (name & Hlisted & Hins).
  apply gcs_inspect_Some in Hins as (m & Hm & Hname & Hold & ->).
  rewrite Hpre in Hname, Hlisted.
  assert (disk_read b name ≫= JSON_parse = Some m) as Hm0.
  { destruct (disk_read b' name) as [data|] eqn:Hd; [|done].
    by rewrite (disk_within_read _ _ _ _ Hin Hd). }
  assert (name ∈ GCS.getFiles b (GCS.metadataPrefix p)) as Hlisted0.
  { apply list_elem_of_filter in Hlisted as [Hp _].
    apply list_elem_of_filter. split; [done|]. apply elem_of_readdir.
    unfold disk_read in Hm0. by destruct (entries b !! name); [eexists|]. }
  destruct (Hwf _ Hlisted0) as [key' ->].
  pose proof (Hhex _ _ Hm0) as Hk.
  assert (GCS._getMetadataPath p key' = GCS._getMetadataPath p (privateKey m)) as Hf.
  { by apply gcs_metadata_path_of_key. }
  assert (privateKey m
            ∈ GCS.scan p b cutoff (GCS.getFiles b (GCS.metadataPrefix p)) []) as Hcand.
  { apply gcs_scan_elem. exists (GCS._getMetadataPath p key'). split; [done|].
    apply gcs_inspect_Some. by exists m. }
  destruct (gcs_delete_each_unreadable _ 0%nat p b _ Hb Hrej Hcand)
    as (b2 & Hb2 & Hgone).
  subst p'. unfold CleanupJob.runCleanup in Hb'.
  cbn [getInactiveFiles googleProvider] in Hb'. unfold GCS.getInactiveFiles in Hb'.
  rewrite Hb in Hb'. fold cutoff in Hb', Hvalid. rewrite Hvalid, Hb2 in Hb'.
  injection Hb' as ->.
  rewrite Hf in Hm. congruence.
Qed.

End CloudCleanup.

(** X21. A cleanup cycle only removes. Whatever the providers hold after
    [runCleanup] was there before with the same bytes, in the content
    folder and the metadata folder of the local provider and in the bucket
    of the cloud provider, and the configuration of the cloud provider is
    unchanged. *)
Theorem cleanup_only_removes `{Json} :
  (∀ env now p,
     let p' := (CleanupJob.runCleanup (Some localProvider) env now p).2 in
     entries (Local.filesFolder p') ⊆ entries (Local.filesFolder p) ∧
     entries (Local.metadataFolder p') ⊆ entries (Local.metadataFolder p)) ∧
  (∀ env now p b,
     GCS.bucket p = Some b →
     let p' := (CleanupJob.runCleanup (Some googleProvider) env now p).2 in
     ∃ b', GCS.bucket p' = Some b' ∧ entries b' ⊆ entries b ∧
           GCS.config_ p' = GCS.config_ p ∧
           GCS.metadataPrefix p' = GCS.metadataPrefix p).
Proof.
  split.
  - intros env now p p'.
    by destruct (local_cleanup_within env now p) as [[? _] [? _]].
  - intros env now p b Hb p'.
    destruct (gcs_cleanup_within env now p) as (Hcfg & Hpre & _).
    destruct (gcs_within_bucket _ _ _ (gcs_cleanup_within env now p) Hb)
      as (b' & Hb' & [Hsub _] & _).
    by exists b'.
Qed.

Lemma cleanup_only_removes_witness :
  ∃ b', GCS.bucket (CleanupJob.runCleanup (Some (googleProvider (H := Codec.codec)))
                      None 5000000000 gcs_stored).2 = Some b' ∧
        ∀ name data, entries b' !! name = Some data →
                     ∃ b, GCS.bucket gcs_stored = Some b ∧ entries b !! name = Some data.
Proof.
  destruct gcs_stored_bucket as (b & Hb & _).
  destruct (proj2 (cleanup_only_removes (H := Codec.codec)) None 5000000000
              gcs_stored b Hb) as (b' & Hb' & Hsub & _).
  exists b'. split; [exact Hb'|].
  intros name data Hdata. exists b. split; [exact Hb|].
  exact (lookup_weaken _ _ _ _ Hdata Hsub).
Defined.

(** X22. After a cleanup cycle nothing is inactive any more. When every
    readable metadata record names a private key of hex digits and the
    backend refuses no removal, the scan with the cutoff of the cycle
    returns nothing right after the cycle, so that a second cycle at the
    same time deletes nothing and leaves the store as it is. For the
    bucket the metadata prefix must hold nothing but the provider's
    records. The scan is that of a cycle that got as far as the
    enumeration, its cutoff being a valid date; the second cycle deletes
    nothing in either case. *)
Theorem cleanup_leaves_nothing_inactive `{Json} :
  (∀ env now p,
     (∀ f m, disk_read (Local.metadataFolder p) f ≫= JSON_parse = Some m →
             Js.all_chars is_hex_char (privateKey m) = true) →
     rejecting (Local.metadataFolder p) = ∅ →
     let p' := (CleanupJob.runCleanup (Some localProvider) env now p).2 in
     (Js.valid_date (now - CleanupJob.INACTIVITY_PERIOD_MS env) = true →
      Local.getInactiveFiles p' (now - CleanupJob.INACTIVITY_PERIOD_MS env)
        = (Ok [], p')) ∧
     CleanupJob.runCleanup (Some localProvider) env now p' = (0%nat, p')) ∧
  (∀ env now p b,
     GCS.bucket p = Some b →
     GCS.only_records_below_prefix p b →
     (∀ name m, disk_read b name ≫= JSON_parse = Some m →
                Js.all_chars is_hex_char (privateKey m) = true) →
     rejecting b = ∅ →
     let p' := (CleanupJob.runCleanup (Some googleProvider) env now p).2 in
     (Js.valid_date (now - CleanupJob.INACTIVITY_PERIOD_MS env) = true →
      GCS.getInactiveFiles p' (now - CleanupJob.INACTIVITY_PERIOD_MS env)
        = (Ok [], p')) ∧
     CleanupJob.runCleanup (Some googleProvider) env now p' = (0%nat, p')).
Proof.
  split.
  - intros env now p Hhex Hrej p'.
    pose proof (local_cleanup_leaves_nothing env now p Hhex Hrej) as Hscan.
    fold p' in Hscan. split; [done|].
    unfold CleanupJob.runCleanup at 1. cbn [getInactiveFiles localProvider].
    destruct (Js.valid_date _); [|done]. by rewrite Hscan.
  - intros env now p b Hb Hwf Hhex Hrej p'.
    pose proof (gcs_cleanup_leaves_nothing env now p b Hb Hwf Hhex Hrej) as Hscan.
    fold p' in Hscan. split; [done|].
    unfold CleanupJob.runCleanup at 1. cbn [getInactiveFiles googleProvider].
    destruct (Js.valid_date _); [|done]. by rewrite Hscan.
Qed.

Lemma local_stored_shape :
  (∀ f m, disk_read (Local.metadataFolder local_stored) f
            ≫= JSON_parse (Json := Codec.codec) = Some m →
          Js.all_chars is_hex_char (privateKey m) = true) ∧
  rejecting (Local.metadataFolder local_stored) = ∅.
Proof.
  destruct (local_upload_ok (H := Codec.codec) _ _ _ _ _ _ _ _ _ local_stored_eq)
    as (_ & _ & _ & _ & Heq).
  rewrite Heq. split; [|done].
  intros f m. unfold disk_read. cbn [Local.metadataFolder entries local_empty].
  rewrite lookup_insert. case_decide.
  { cbn. rewrite Codec.parse_stringify. intros [= <-]. apply demo_keys_are_keys. }
  rewrite lookup_insert. case_decide.
  { cbn. rewrite Codec.parse_stringify. intros [= <-]. apply demo_keys_are_keys. }
  by rewrite lookup_empty.
Qed.

Lemma cleanup_leaves_nothing_inactive_witness :
  let p' := (CleanupJob.runCleanup (Some (localProvider (H := Codec.codec))) None
               5000000000 local_stored).2 in
  Local.getInactiveFiles (H := Codec.codec) p'
    (5000000000 - CleanupJob.INACTIVITY_PERIOD_MS None) = (Ok [], p') ∧
  CleanupJob.runCleanup (Some (localProvider (H := Codec.codec))) None 5000000000 p'
  = (0%nat, p').
Proof.
  destruct local_stored_shape as [Hhex Hrej].
  destruct (proj1 (cleanup_leaves_nothing_inactive (H := Codec.codec)) None 5000000000
              local_stored Hhex Hrej) as [Hscan Hagain].
  split; [apply Hscan; reflexivity | exact Hagain].
Defined.

Lemma singleton_list {A} `{EqDecision A} (l : list A) (a : A) :
  a ∈ l → (∀ x, x ∈ l → x = a) →
  (length (filter (λ x, x = a) l) ≤ 1)%nat → l = [a].
Proof.
  intros Hin Hall Hlen.
  destruct l as [|x l]; [by apply elem_of_nil in Hin|].
  assert (x = a) as -> by (apply Hall, elem_of_cons; by left).
  destruct l as [|y l]; [done|].
  assert (y = a) as -> by (apply Hall, elem_of_cons; right; apply elem_of_cons; by left).
  rewrite !filter_cons_True in Hlen by done. cbn in Hlen. lia.
Qed.

Section TwoObjects.
Context `{Json}.

Lemma local_eviction p0 srcA tA bufA nameA mimeA pubA privA p1
    srcB tB bufB nameB mimeB pubB privB p2 env now t :
  let cutoff := now - CleanupJob.INACTIVITY_PERIOD_MS env in
  Local.getInactiveFiles p0 cutoff = (Ok [], p0) →
  Local.uploadFile p0 srcA tA bufA nameA mimeA = (Ok (pubA, privA), p1) →
  Local.uploadFile p1 srcB tB bufB nameB mimeB = (Ok (pubB, privB), p2) →
  pubA ≠ privA → pubB ≠ pubA → pubB ≠ privA → privB ≠ pubA → privB ≠ privA →
  Js.valid_date tA = true → Js.valid_date tB = true →
  tA < cutoff → cutoff ≤ tB →
  ∃ p3, CleanupJob.runCleanup (Some localProvider) env now p2 = (1%nat, p3) ∧
        Local.downloadFile p3 t pubA = (Err FileNotFound, p3) ∧
        (Local.downloadFile p3 t pubB).1 = Ok (bufB, mimeB, nameB) ∧
        Local.getFileMetadata p3 privB = Ok (None, tB).
Proof.
  intros cutoff Hnone HupA HupB HneA Hne1 Hne2 Hne3 Hne4 HvA HvB Hold Hnew.
  assert (Js.valid_date cutoff = true) as Hvalid.
  { unfold Js.valid_date in *.
    apply bool_decide_eq_true in HvA, HvB. apply bool_decide_eq_true. lia. }
  set (mA := Metadata pubA privA nameA mimeA tA None (length bufA) None).
  set (mB := Metadata pubB privB nameB mimeB tB None (length bufB) None).
  pose proof (local_upload_ok _ _ _ _ _ _ _ _ _ HupA) as (HkeysA & HrA1 & HrA2 & _ & Hp1).
  pose proof (local_upload_ok _ _ _ _ _ _ _ _ _ HupB) as (HkeysB & _ & _ & _ & Hp2).
  assert (is_key pubA ∧ is_key privA) as [HkpubA HkprivA].
  { pose proof (generateKeys_is_key srcA) as Hk. by rewrite <- HkeysA in Hk. }
  assert (is_key pubB ∧ is_key privB) as [HkpubB HkprivB].
  { pose proof (generateKeys_is_key srcB) as Hk. by rewrite <- HkeysB in Hk. }
  assert (∀ a b : string, a ≠ b → a +:+ ".json" ≠ b +:+ ".json") as Hjson.
  { intros a b Hab ?%string_app_inj_r. done. }
  (* the records of the first object survive the second upload *)
  destruct (local_upload_records _ _ _ _ _ _ _ _ _ HupA) as (HpubA1 & HprivA1 & _).
  assert (disk_read (Local.metadataFolder p2) (privA +:+ ".json")
          = Some (JSON_stringify mA)) as HprivA2.
  { rewrite Hp2. unfold disk_read in *. cbn [Local.metadataFolder entries].
    rewrite !lookup_insert_ne by (apply Hjson; done). done. }
  assert (disk_read (Local.metadataFolder p2) (pubA +:+ ".json")
          = Some (JSON_stringify mA)) as HpubA2.
  { rewrite Hp2. unfold disk_read in *. cbn [Local.metadataFolder entries].
    rewrite !lookup_insert_ne by (apply Hjson; done). done. }
  (* the candidates of the cycle *)
  set (L := Local.scan p2 cutoff (readdir (Local.metadataFolder p2)) []).
  assert (L = [privA]) as HL.
  { apply singleton_list.
    - apply local_scan_member; [done|]. exists mA.
      rewrite HprivA2. cbn. rewrite JSON_parse_stringify. done.
    - intros k (f & m & Hm & Hend & Hrep & Hpriv & Hrefd)%local_scan_origin.
      rewrite Hp2, Hp1 in Hm. unfold disk_read in Hm.
      cbn [Local.metadataFolder entries] in Hm.
      rewrite lookup_insert in Hm. case_decide as Hf1.
      { cbn in Hm. rewrite JSON_parse_stringify in Hm. injection Hm as <-.
        cbn in Hrefd. lia. }
      rewrite lookup_insert in Hm. case_decide as Hf2.
      { cbn in Hm. rewrite JSON_parse_stringify in Hm. injection Hm as <-.
        cbn in Hrefd. lia. }
      rewrite lookup_insert in Hm. case_decide as Hf3.
      { cbn in Hm. rewrite JSON_parse_stringify in Hm. injection Hm as <-.
        by cbn in Hpriv. }
      rewrite lookup_insert in Hm. case_decide as Hf4.
      { cbn in Hm. rewrite JSON_parse_stringify in Hm. injection Hm as <-.
        cbn in Hpriv. subst f.
        rewrite replace_key_json in Hrep by apply HkpubA. congruence. }
      exfalso.
      assert (k ∈ Local.scan p0 cutoff (readdir (Local.metadataFolder p0)) []) as Hin.
      { apply local_scan_elem. exists f. split.
        - apply bind_Some in Hm as (d & Hd & _). by exists d.
        - apply local_inspect_Some. split; [done|]. exists m.
          split_and!; [done | congruence | done | done]. }
      unfold Local.getInactiveFiles in Hnone. injection Hnone as Hnone.
      rewrite Hnone in Hin. by apply elem_of_nil in Hin.
    - by apply local_scan_at_most_once. }
  (* the one deletion *)
  assert (rejecting (Local.metadataFolder p2) = rejecting (Local.metadataFolder p0))
    as Hrej by (by rewrite Hp2, Hp1).
  destruct (local_delete_found p2 privA mA) as (p3 & Hdel & Hgone & _).
  { rewrite HprivA2. cbn. by rewrite JSON_parse_stringify. }
  { by rewrite Hrej. }
  { cbn. by rewrite Hrej. }
  cbn [publicKey mA] in Hgone.
  exists p3. split_and!.
  - unfold CleanupJob.runCleanup. cbn [getInactiveFiles localProvider].
    unfold Local.getInactiveFiles. fold cutoff. rewrite Hvalid. fold L. rewrite HL.
    cbn [CleanupJob.delete_each deleteFile localProvider]. by rewrite Hdel.
  - unfold Local.downloadFile, Local._getMetadataPath. by rewrite disk_exists_false.
  - destruct (local_delete_frame p2 privA mA p3 t pubB) as [_ ->]; try done.
    { rewrite HprivA2. cbn. by rewrite JSON_parse_stringify. }
    by destruct (local_download_after_upload _ _ _ _ _ _ _ _ _ t HupB) as [p4 ->].
  - destruct (local_delete_frame p2 privA mA p3 t privB) as [-> _]; try done.
    { rewrite HprivA2. cbn. by rewrite JSON_parse_stringify. }
    apply (local_metadata_after_put _ _ _ _ _ _ _ _ _ _ HupB). by right.
Qed.

End TwoObjects.

(** X23. A cleanup cycle evicts the inactive object and nothing else. In
    a local store with nothing inactive, after the upload of an object
    before the cutoff and of a second object with other keys at or after
    the cutoff, [runCleanup] deletes exactly one object: the first can no
    longer be downloaded, the second is downloaded as before and its
    metadata is intact. The two upload times are readings of the clock,
    hence valid dates, and so is the cutoff between them. *)
Theorem cleanup_evicts_only_the_inactive `{Json}
    p0 srcA tA bufA nameA mimeA pubA privA p1
    srcB tB bufB nameB mimeB pubB privB p2 env now t :
  let cutoff := now - CleanupJob.INACTIVITY_PERIOD_MS env in
  Local.getInactiveFiles p0 cutoff = (Ok [], p0) →
  Local.uploadFile p0 srcA tA bufA nameA mimeA = (Ok (pubA, privA), p1) →
  Local.uploadFile p1 srcB tB bufB nameB mimeB = (Ok (pubB, privB), p2) →
  pubA ≠ privA → pubB ≠ pubA → pubB ≠ privA → privB ≠ pubA → privB ≠ privA →
  Js.valid_date tA = true → Js.valid_date tB = true →
  tA < cutoff → cutoff ≤ tB →
  ∃ p3, CleanupJob.runCleanup (Some localProvider) env now p2 = (1%nat, p3) ∧
        Local.downloadFile p3 t pubA = (Err FileNotFound, p3) ∧
        (Local.downloadFile p3 t pubB).1 = Ok (bufB, mimeB, nameB) ∧
        Local.getFileMetadata p3 privB = Ok (None, tB).
Proof. apply local_eviction. Qed.

Lemma cleanup_evicts_only_the_inactive_witness :
  ∃ p3, CleanupJob.runCleanup (Some (localProvider (H := Codec.codec))) None
          5000000000 local_two_stored = (1%nat, p3) ∧
        Local.downloadFile (H := Codec.codec) p3 5000000000 demo_pub
          = (Err FileNotFound, p3) ∧
        (Local.downloadFile (H := Codec.codec) p3 5000000000 demo_pub2).1
          = Ok ([x6f; x6b], "text/plain", "ok.txt") ∧
        Local.getFileMetadata (H := Codec.codec) p3 demo_priv2 = Ok (None, 3000000000).
Proof.
  apply (cleanup_evicts_only_the_inactive (H := Codec.codec)
           local_empty demo_entropy 1000 demo_content "hi.txt" "text/plain"
           demo_pub demo_priv local_stored
           demo_entropy2 3000000000 [x6f; x6b] "ok.txt" "text/plain"
           demo_pub2 demo_priv2 local_two_stored None 5000000000 5000000000).
  - reflexivity.
  - exact local_stored_eq.
  - reflexivity.
  - by vm_compute.
  - by vm_compute.
  - by vm_compute.
  - by vm_compute.
  - by vm_compute.
  - reflexivity.
  - reflexivity.
  - reflexivity.
  - by vm_compute.
Defined.

(** ** Starting and stopping the job *)

Section SchedulerLemmas.
Context {St : Type}.
Implicit Types (j : Scheduler.job St) (t : Scheduler.timers) (s : St).

Lemma initialize_returned env j sp now t s :
  Scheduler.initialize env j (Some sp) now t s
  = (Scheduler.Returned,
     Scheduler.Job (Some (Scheduler.fresh t)) (Some sp),
     Scheduler.Timers ({[Scheduler.fresh t]} ∪ Scheduler.running t)
       (S (Scheduler.fresh t)),
     (CleanupJob.runCleanup (Some sp) env now s).2).
Proof.
  unfold Scheduler.initialize.
  by destruct (CleanupJob.runCleanup (Some sp) env now s) as [n s'].
Qed.

Lemma timers_wf_fresh t : timers_wf t → Scheduler.fresh t ∉ Scheduler.running t.
Proof. intros Hwf Hin. apply Hwf in Hin. lia. Qed.

Lemma clear_registered (h : nat) (X : gset nat) : h ∉ X → ({[h]} ∪ X) ∖ {[h]} = X.
Proof.
  intros Hh. apply set_eq. intros x.
  rewrite elem_of_difference, elem_of_union, !elem_of_singleton. split.
  - by intros [[->|?] ?].
  - intros Hx. split; [by right|]. by intros ->.
Qed.

End SchedulerLemmas.

(** X24. The life cycle of the cleanup job. [initialize] without a
    provider throws and changes nothing. [initialize] with a provider runs
    one cycle, registers one new interval timer and remembers its handle;
    a following [stop] clears exactly that timer, so that the timers
    running are those from before, and keeps the provider, so that
    [runCleanup] still works after [stop]; a second [stop] does nothing.
    Calling [initialize] a second time without [stop] in between leaves
    the timer of the first call running after [stop]. *)
Theorem cleanup_job_lifecycle {St} env (j : Scheduler.job St) sp sp' now now' t s :
  timers_wf t →
  Scheduler.initialize env j None now t s = (Scheduler.ProviderRequired, j, t, s) ∧
  ∃ h t1 s1,
    Scheduler.initialize env j (Some sp) now t s
      = (Scheduler.Returned, Scheduler.Job (Some h) (Some sp), t1, s1) ∧
    s1 = (CleanupJob.runCleanup (Some sp) env now s).2 ∧
    (h ∉ Scheduler.running t) ∧
    Scheduler.running t1 = {[h]} ∪ Scheduler.running t ∧
    timers_wf t1 ∧
    (∃ t2,
       Scheduler.stop (Scheduler.Job (Some h) (Some sp)) t1
         = (Scheduler.Job None (Some sp), t2) ∧
       Scheduler.running t2 = Scheduler.running t ∧
       Scheduler.stop (Scheduler.Job None (Some sp)) t2
         = (Scheduler.Job None (Some sp), t2) ∧
       Scheduler.runCleanup env (Scheduler.Job None (Some sp)) now' s1
         = CleanupJob.runCleanup (Some sp) env now' s1) ∧
    (∃ h' t3 s3 t4,
       Scheduler.initialize env (Scheduler.Job (Some h) (Some sp)) (Some sp') now' t1 s1
         = (Scheduler.Returned, Scheduler.Job (Some h') (Some sp'), t3, s3) ∧
       Scheduler.stop (Scheduler.Job (Some h') (Some sp')) t3
         = (Scheduler.Job None (Some sp'), t4) ∧
       Scheduler.running t4 = {[h]} ∪ Scheduler.running t ∧
       h ∈ Scheduler.running t4).
Proof.
  intros Hwf. pose proof (timers_wf_fresh t Hwf) as Hfresh.
  split; [done|].
  assert (S (Scheduler.fresh t) ∉ ({[Scheduler.fresh t]} ∪ Scheduler.running t : gset nat))
    as Hfresh'.
  { intros [Hin%elem_of_singleton|Hin%Hwf]%elem_of_union; lia. }
  eexists _, _, _. split; [apply initialize_returned|].
  split; [done|]. split; [done|]. split; [done|]. split.
  { intros h [->%elem_of_singleton|Hin%Hwf]%elem_of_union;
      cbn [Scheduler.fresh]; lia. }
  split.
  - eexists. split; [done|].
    unfold Scheduler.clearInterval. cbn [Scheduler.running Scheduler.fresh].
    by rewrite clear_registered by done.
  - eexists _, _, _, _. split; [apply initialize_returned|]. split; [done|].
    unfold Scheduler.clearInterval. cbn [Scheduler.running Scheduler.fresh].
    rewrite clear_registered by done. split; [done|].
    apply elem_of_union. left. by apply elem_of_singleton.
Qed.

Lemma cleanup_job_lifecycle_witness :
  ∃ h t1 s1,
    Scheduler.initialize None (Scheduler.Job None None) (Some flaky_provider) 0
      (Scheduler.Timers ∅ 0) []
    = (Scheduler.Returned, Scheduler.Job (Some h) (Some flaky_provider), t1, s1) ∧
    s1 = ["key1"; "key2"] ∧
    ∃ t2, Scheduler.stop (Scheduler.Job (Some h) (Some flaky_provider)) t1
            = (Scheduler.Job None (Some flaky_provider), t2) ∧
          Scheduler.running t2 = ∅.
Proof.
  destruct (cleanup_job_lifecycle None (Scheduler.Job None None) flaky_provider
              flaky_provider 0 0 (Scheduler.Timers ∅ 0) [])
    as (_ & h & t1 & s1 & Hinit & Hs1 & _ & _ & _ & (t2 & Hstop & Hrun & _) & _).
  { intros h Hin. by apply elem_of_empty in Hin. }
  exists h, t1, s1. split; [exact Hinit|]. split; [exact Hs1|].
  exists t2. split; [exact Hstop | exact Hrun].
Defined.

(** ** The inactivity period *)

(** X25. The inactivity period is never zero: an unset, unreadable or
    zero [INACTIVITY_PERIOD_DAYS] stands for 30 days, any other number of
    days, up to the [10 ^ 11] for which the product is exact, is taken as
    it is, also a negative one. When the cutoff of the cycle that runs at
    [clock] is a valid date, an object that was uploaded and never read is
    a candidate of that cycle exactly when more than the period has passed
    since the upload; with a negative period that is so from the moment of
    the upload. When the cutoff is not a valid date the cycle reports zero
    and leaves the store alone, over any provider. *)
Theorem inactivity_period_from_environment `{Json} :
  (∀ env, CleanupJob.INACTIVITY_PERIOD_MS env ≠ 0) ∧
  (∀ env, env = None ∨ env = Some 0 →
     CleanupJob.INACTIVITY_PERIOD_MS env = 2592000000) ∧
  (∀ n, n ≠ 0 → Z.abs n ≤ 10 ^ 11 →
     CleanupJob.INACTIVITY_PERIOD_MS (Some n) = n * 86400000) ∧
  (∀ env p src now buf name mime pub priv p1 clock,
     Local.uploadFile p src now buf name mime = (Ok (pub, priv), p1) →
     Js.valid_date now = true → Js.valid_date clock = true →
     Js.valid_date (clock - CleanupJob.INACTIVITY_PERIOD_MS env) = true →
     ∃ files,
       Local.getInactiveFiles p1 (clock - CleanupJob.INACTIVITY_PERIOD_MS env)
         = (Ok files, p1) ∧
       (priv ∈ files ↔ now + CleanupJob.INACTIVITY_PERIOD_MS env < clock) ∧
       CleanupJob.runCleanup (Some localProvider) env clock p1
         = CleanupJob.delete_each localProvider files 0 p1) ∧
  (∀ n p src now buf name mime pub priv p1,
     n < 0 →
     Local.uploadFile p src now buf name mime = (Ok (pub, priv), p1) →
     Js.valid_date now = true →
     Js.valid_date (now - CleanupJob.INACTIVITY_PERIOD_MS (Some n)) = true →
     ∃ files,
       Local.getInactiveFiles p1 (now - CleanupJob.INACTIVITY_PERIOD_MS (Some n))
         = (Ok files, p1) ∧
       priv ∈ files) ∧
  (∀ St (sp : StorageProvider St) env now s,
     Js.valid_date (now - CleanupJob.INACTIVITY_PERIOD_MS env) = false →
     CleanupJob.runCleanup (Some sp) env now s = (0%nat, s)).
Proof.
  assert (∀ env p src now buf name mime pub priv p1 clock,
     Local.uploadFile p src now buf name mime = (Ok (pub, priv), p1) →
     ∃ files,
       Local.getInactiveFiles p1 (clock - CleanupJob.INACTIVITY_PERIOD_MS env)
         = (Ok files, p1) ∧
       (priv ∈ files ↔ now + CleanupJob.INACTIVITY_PERIOD_MS env < clock)) as Hcand.
  { intros env p src now buf name mime pub priv p1 clock Hup.
    eexists. split; [done|].
    rewrite (local_scan_after_upload _ _ _ _ _ _ _ _ _ _ Hup). lia. }
  split_and!.
  - intros env. unfold CleanupJob.INACTIVITY_PERIOD_MS,
      CleanupJob.DEFAULT_INACTIVITY_PERIOD_DAYS, Js.or_number.
    destruct env as [n|]; [|done]. case_decide; lia.
  - by intros env [-> | ->].
  - intros n Hn _. unfold CleanupJob.INACTIVITY_PERIOD_MS, Js.or_number.
    case_decide; lia.
  - intros env p src now buf name mime pub priv p1 clock Hup _ _ Hvalid.
    destruct (Hcand env p src now buf name mime pub priv p1 clock Hup)
      as (files & Hfiles & Hin).
    exists files. split; [done|]. split; [done|].
    unfold CleanupJob.runCleanup. rewrite Hvalid.
    cbn [getInactiveFiles localProvider]. by rewrite Hfiles.
  - intros n p src now buf name mime pub priv p1 Hn Hup _ _.
    destruct (Hcand (Some n) p src now buf name mime pub priv p1 now Hup)
      as (files & Hfiles & Hin).
    exists files. split; [done|]. apply Hin.
    unfold CleanupJob.INACTIVITY_PERIOD_MS, Js.or_number. case_decide; lia.
  - intros St sp env now s Hinvalid.
    unfold CleanupJob.runCleanup. by rewrite Hinvalid.
Qed.

(** One day counted backwards: the object uploaded at [1000] is a candidate
    at once. Two hundred million days counted backwards from the same
    instant: there is no such date and the cycle does nothing. *)
Lemma inactivity_period_from_environment_witness :
  CleanupJob.INACTIVITY_PERIOD_MS (Some 0) = 2592000000 ∧
  CleanupJob.INACTIVITY_PERIOD_MS (Some 7) = 7 * 86400000 ∧
  (∃ files,
     Local.getInactiveFiles (H := Codec.codec) local_stored
       (1000 - CleanupJob.INACTIVITY_PERIOD_MS (Some (-1))) = (Ok files, local_stored) ∧
     demo_priv ∈ files) ∧
  CleanupJob.runCleanup (Some (localProvider (H := Codec.codec)))
    (Some (-200000000)) 1000 local_stored = (0%nat, local_stored).
Proof.
  destruct (inactivity_period_from_environment (H := Codec.codec))
    as (_ & Hdefault & Hgiven & _ & Hneg & Hinvalid).
  split_and!.
  - apply Hdefault. by right.
  - apply Hgiven; [lia | by vm_compute].
  - apply (Hneg (-1) local_empty demo_entropy 1000 demo_content "hi.txt" "text/plain"
             demo_pub demo_priv local_stored).
    + lia.
    + exact local_stored_eq.
    + reflexivity.
    + reflexivity.
  - apply Hinvalid. reflexivity.
Defined.
